(** * The game server of Daniil-C/munchkin (server/server_main.py)

    A shallow embedding of the synchronization core of the server: the
    per-connection protocol state machine ([Player]), the roster
    ([PlayerList]), the round orchestrator and the admission of connections
    ([GameServer]), followed by the properties of the specification that
    concern them.

    Conventions of the embedding.
    - Python objects that are shared and mutated (the [Player] objects of the
      roster) live in one store, the list [players]; a reference to a player
      ([self], [GameServer.current_player], the values of
      [PlayerList.sockets], the keys of the score dictionary) is the player's
      [number], which [PlayerList.add_player] makes unique in a session
      (lemma [reachable_wf]).
    - A Python exception is the result [None]; it leaves the event loop.
      What raises in the model is the server's own code (a lookup, an index,
      an attribute of [None], [int()], [list.remove]); the calls of the
      socket and connection objects are taken to return, a failure of the
      transport showing in [conn.status].
    - Strings are sequences of code points below 256.
    - Randomness ([shuffle], [randrange]) is an explicit argument.
    - The modules [connection], [monitor] and [environment] are not part of
      the sources.  The connection object is taken as a parameter (class
      [ConnAPI]); [Monitor] only serializes attribute access and logging has
      no effect on the state, so neither appears. *)

From Stdlib Require Import ZArith Ascii.
From stdpp Require Import gmap strings list fin_maps pretty.

Local Open Scope string_scope.
Local Open Scope list_scope.
Local Open Scope nat_scope.
Local Open Scope stdpp_scope.

(** ** Python built-ins used by the server *)

(** [str.isspace] on the code points below 256. *)
Definition is_space (a : ascii) : bool :=
  let n := nat_of_ascii a in
  (((9 <=? n) && (n <=? 13)) || ((28 <=? n) && (n <=? 32))
   || (n =? 133) || (n =? 160))%nat.

(** [str.split()] without argument: maximal runs of non-space characters.
    [tok] is the token being read, if any. *)
Fixpoint py_split_from (tok : option string) (s : string) : list string :=
  match s with
  | EmptyString => match tok with Some t => [t] | None => [] end
  | String a s' =>
      if is_space a then
        match tok with
        | Some t => t :: py_split_from None s'
        | None => py_split_from None s'
        end
      else
        py_split_from
          (Some (match tok with Some t => t +:+ String a "" | None => String a "" end)) s'
  end.

Definition py_split (s : string) : list string := py_split_from None s.

Definition is_ascii_digit (a : ascii) : bool :=
  let n := nat_of_ascii a in ((48 <=? n) && (n <=? 57))%nat.

(** The numeric characters below 256: the ten digits, the superscripts
    one, two, three and the three vulgar fractions. *)
Definition is_numeric_char (a : ascii) : bool :=
  let n := nat_of_ascii a in
  is_ascii_digit a
  || ((n =? 178) || (n =? 179) || (n =? 185) || (n =? 188) || (n =? 189) || (n =? 190))%nat.

Fixpoint string_forallb (f : ascii -> bool) (s : string) : bool :=
  match s with
  | EmptyString => true
  | String a s' => f a && string_forallb f s'
  end.

(** [str.isnumeric]: non-empty and every character numeric. *)
Definition py_isnumeric (s : string) : bool :=
  match s with
  | EmptyString => false
  | _ => string_forallb is_numeric_char s
  end.

Fixpoint digits_value (acc : Z) (s : string) : Z :=
  match s with
  | EmptyString => acc
  | String a s' => digits_value (10 * acc + (Z.of_nat (nat_of_ascii a) - 48))%Z s'
  end.

(** [sys.int_info.default_max_str_digits]: the number of decimal digits
    above which [int()] refuses a string (leading zeros count). *)
Definition max_str_digits : Z := 4300.

(** [int(s)] for a token [s] (no spaces, and the callers test [isnumeric]
    first, so no sign): [ValueError] unless every character is a decimal
    digit, and also when there are more than [max_str_digits] of them. *)
Definition py_int (s : string) : option Z :=
  match s with
  | EmptyString => None
  | _ =>
      if string_forallb is_ascii_digit s
         && (Z.of_nat (String.length s) <=? max_str_digits)%Z
      then Some (digits_value 0 s) else None
  end.

(** [sep.join(l)] *)
Definition py_join (sep : string) (l : list string) : string := String.concat sep l.

(** [str(x)] for an integer and for an attribute that is an integer or [None]. *)
Definition str_Z (x : Z) : string := pretty x.
Definition str_nat (x : nat) : string := pretty x.
Definition str_card (c : option Z) : string :=
  match c with Some x => str_Z x | None => "None" end.

(** [list(range(n))] *)
Definition py_range (n : Z) : list Z := map Z.of_nat (seq 0 (Z.to_nat n)).

(** [l[:stop]] with Python's treatment of a negative or too large [stop]. *)
Definition slice_to {A} (l : list A) (stop : Z) : list A :=
  let len := Z.of_nat (length l) in
  let stop' := (if stop <? 0 then Z.max 0 (stop + len) else Z.min stop len)%Z in
  take (Z.to_nat stop') l.

(** [l[start:]] for a non-negative [start]. *)
Definition slice_from {A} (l : list A) (start : nat) : list A := drop start l.

(** [l.remove(x)]: the first occurrence goes (callers test membership first). *)
Fixpoint remove_first (x : Z) (l : list Z) : list Z :=
  match l with
  | [] => []
  | y :: l' => if Z.eqb y x then l' else y :: remove_first x l'
  end.

(** ** Enumerations *)

(** [Player.state] *)
Inductive PState :=
  | VER_CHECK | VER_WAIT | START_WAIT | BEGIN_SYNC | READY_WAIT | TURN_SYNC
  | WAIT_ASSOC | WAIT_SELF_CARD | SELF_SYNC | WAIT_VOTE | VOTE_SYNC
  | WAIT_NEXT_TURN | SYNC_NEXT_TURN.

(** [Player.status] *)
Inductive Status := MASTER | PLAYER.

(** [GameState.state] *)
Inductive Phase := PLAYER_CONN | GAME | ERROR | SHUTDOWN.

Global Instance PState_eq_dec : EqDecision PState := ltac:(solve_decision).
Global Instance Status_eq_dec : EqDecision Status := ltac:(solve_decision).
Global Instance Phase_eq_dec : EqDecision Phase := ltac:(solve_decision).

Definition str_status (st : Status) : string :=
  match st with MASTER => "MASTER" | PLAYER => "PLAYER" end.

(** Sockets are opaque handles; they are the keys of [PlayerList.sockets]. *)
Definition Sock := nat.

(** ** The connection object (module [connection], taken as a parameter) *)

Class ConnAPI := {
  connection : Type;
  conn_new : Sock -> connection;                   (* connection(sock) *)
  conn_status : connection -> bool;                (* conn.status *)
  conn_send : string -> connection -> connection;  (* conn.send(data) *)
  conn_get : connection -> string * connection     (* conn.get() *)
}.

Section Server.
Context `{ConnAPI}.

(** ** Data model *)

(** Class [Player].  [conn] is [None] once [Player.stop] has run. *)
Record Player := {
  player_socket : Sock;
  status : Status;
  state : PState;
  conn : option connection;
  valid : bool;
  name : string;
  score : Z;
  get_broadcast : bool;
  cards : list Z;
  number : nat;
  current_card : option Z;
  selected_card : option Z;
  buffer : list string;
  has_buffer : bool;
  has_turn : bool
}.

(** The state shared by [GameServer], [GameState], [Resources] and
    [PlayerList]: [game_state] and [card_set] are the attributes of
    [GameState], [res_name], [res_link] and [configuration] those of
    [Resources], [players] to [seq_number] those of [PlayerList],
    [srv_cards] is [GameServer.cards].  [closed] records the sockets that
    [GameServer.accept_connection] shut down and closed, [gone] the player
    objects that [PlayerList.check] took out of the roster, as it left
    them. *)
Record Server := {
  game_state : Phase;
  card_set : string;
  res_name : string;
  res_link : string;
  configuration : option (gmap string Z);
  players : list Player;
  sockets : gmap Sock nat;
  have_master : bool;
  seq_number : nat;
  srv_cards : list Z;
  current_player : option nat;
  closed : list Sock;
  gone : list Player
}.

Definition set_state (x : PState) (p : Player) : Player :=
  {| player_socket := player_socket p; status := status p; state := x;
     conn := conn p; valid := valid p; name := name p; score := score p;
     get_broadcast := get_broadcast p; cards := cards p; number := number p;
     current_card := current_card p; selected_card := selected_card p;
     buffer := buffer p; has_buffer := has_buffer p;
     has_turn := has_turn p |}.
Definition set_conn (x : option connection) (p : Player) : Player :=
  {| player_socket := player_socket p; status := status p; state := state p;
     conn := x; valid := valid p; name := name p; score := score p;
     get_broadcast := get_broadcast p; cards := cards p; number := number p;
     current_card := current_card p; selected_card := selected_card p;
     buffer := buffer p; has_buffer := has_buffer p;
     has_turn := has_turn p |}.
Definition set_valid (x : bool) (p : Player) : Player :=
  {| player_socket := player_socket p; status := status p; state := state p;
     conn := conn p; valid := x; name := name p; score := score p;
     get_broadcast := get_broadcast p; cards := cards p; number := number p;
     current_card := current_card p; selected_card := selected_card p;
     buffer := buffer p; has_buffer := has_buffer p;
     has_turn := has_turn p |}.
Definition set_name (x : string) (p : Player) : Player :=
  {| player_socket := player_socket p; status := status p; state := state p;
     conn := conn p; valid := valid p; name := x; score := score p;
     get_broadcast := get_broadcast p; cards := cards p; number := number p;
     current_card := current_card p; selected_card := selected_card p;
     buffer := buffer p; has_buffer := has_buffer p;
     has_turn := has_turn p |}.
Definition set_score (x : Z) (p : Player) : Player :=
  {| player_socket := player_socket p; status := status p; state := state p;
     conn := conn p; valid := valid p; name := name p; score := x;
     get_broadcast := get_broadcast p; cards := cards p; number := number p;
     current_card := current_card p; selected_card := selected_card p;
     buffer := buffer p; has_buffer := has_buffer p;
     has_turn := has_turn p |}.
Definition set_get_broadcast (x : bool) (p : Player) : Player :=
  {| player_socket := player_socket p; status := status p; state := state p;
     conn := conn p; valid := valid p; name := name p; score := score p;
     get_broadcast := x; cards := cards p; number := number p;
     current_card := current_card p; selected_card := selected_card p;
     buffer := buffer p; has_buffer := has_buffer p;
     has_turn := has_turn p |}.
Definition set_cards (x : list Z) (p : Player) : Player :=
  {| player_socket := player_socket p; status := status p; state := state p;
     conn := conn p; valid := valid p; name := name p; score := score p;
     get_broadcast := get_broadcast p; cards := x; number := number p;
     current_card := current_card p; selected_card := selected_card p;
     buffer := buffer p; has_buffer := has_buffer p;
     has_turn := has_turn p |}.
Definition set_current_card (x : option Z) (p : Player) : Player :=
  {| player_socket := player_socket p; status := status p; state := state p;
     conn := conn p; valid := valid p; name := name p; score := score p;
     get_broadcast := get_broadcast p; cards := cards p; number := number p;
     current_card := x; selected_card := selected_card p; buffer := buffer p;
     has_buffer := has_buffer p; has_turn := has_turn p |}.
Definition set_selected_card (x : option Z) (p : Player) : Player :=
  {| player_socket := player_socket p; status := status p; state := state p;
     conn := conn p; valid := valid p; name := name p; score := score p;
     get_broadcast := get_broadcast p; cards := cards p; number := number p;
     current_card := current_card p; selected_card := x; buffer := buffer p;
     has_buffer := has_buffer p; has_turn := has_turn p |}.
Definition set_buffer (x : list string) (p : Player) : Player :=
  {| player_socket := player_socket p; status := status p; state := state p;
     conn := conn p; valid := valid p; name := name p; score := score p;
     get_broadcast := get_broadcast p; cards := cards p; number := number p;
     current_card := current_card p; selected_card := selected_card p;
     buffer := x; has_buffer := has_buffer p; has_turn := has_turn p |}.
Definition set_has_buffer (x : bool) (p : Player) : Player :=
  {| player_socket := player_socket p; status := status p; state := state p;
     conn := conn p; valid := valid p; name := name p; score := score p;
     get_broadcast := get_broadcast p; cards := cards p; number := number p;
     current_card := current_card p; selected_card := selected_card p;
     buffer := buffer p; has_buffer := x; has_turn := has_turn p |}.
Definition set_has_turn (x : bool) (p : Player) : Player :=
  {| player_socket := player_socket p; status := status p; state := state p;
     conn := conn p; valid := valid p; name := name p; score := score p;
     get_broadcast := get_broadcast p; cards := cards p; number := number p;
     current_card := current_card p; selected_card := selected_card p;
     buffer := buffer p; has_buffer := has_buffer p; has_turn := x |}.

Definition set_game_state (x : Phase) (s : Server) : Server :=
  {| game_state := x; card_set := card_set s; res_name := res_name s;
     res_link := res_link s; configuration := configuration s;
     players := players s; sockets := sockets s;
     have_master := have_master s; seq_number := seq_number s;
     srv_cards := srv_cards s; current_player := current_player s;
     closed := closed s; gone := gone s |}.
Definition set_card_set (x : string) (s : Server) : Server :=
  {| game_state := game_state s; card_set := x; res_name := res_name s;
     res_link := res_link s; configuration := configuration s;
     players := players s; sockets := sockets s;
     have_master := have_master s; seq_number := seq_number s;
     srv_cards := srv_cards s; current_player := current_player s;
     closed := closed s; gone := gone s |}.
Definition set_players (x : list Player) (s : Server) : Server :=
  {| game_state := game_state s; card_set := card_set s;
     res_name := res_name s; res_link := res_link s;
     configuration := configuration s; players := x; sockets := sockets s;
     have_master := have_master s; seq_number := seq_number s;
     srv_cards := srv_cards s; current_player := current_player s;
     closed := closed s; gone := gone s |}.
Definition set_sockets (x : gmap Sock nat) (s : Server) : Server :=
  {| game_state := game_state s; card_set := card_set s;
     res_name := res_name s; res_link := res_link s;
     configuration := configuration s; players := players s; sockets := x;
     have_master := have_master s; seq_number := seq_number s;
     srv_cards := srv_cards s; current_player := current_player s;
     closed := closed s; gone := gone s |}.
Definition set_have_master (x : bool) (s : Server) : Server :=
  {| game_state := game_state s; card_set := card_set s;
     res_name := res_name s; res_link := res_link s;
     configuration := configuration s; players := players s;
     sockets := sockets s; have_master := x; seq_number := seq_number s;
     srv_cards := srv_cards s; current_player := current_player s;
     closed := closed s; gone := gone s |}.
Definition set_seq_number (x : nat) (s : Server) : Server :=
  {| game_state := game_state s; card_set := card_set s;
     res_name := res_name s; res_link := res_link s;
     configuration := configuration s; players := players s;
     sockets := sockets s; have_master := have_master s; seq_number := x;
     srv_cards := srv_cards s; current_player := current_player s;
     closed := closed s; gone := gone s |}.
Definition set_srv_cards (x : list Z) (s : Server) : Server :=
  {| game_state := game_state s; card_set := card_set s;
     res_name := res_name s; res_link := res_link s;
     configuration := configuration s; players := players s;
     sockets := sockets s; have_master := have_master s;
     seq_number := seq_number s; srv_cards := x;
     current_player := current_player s; closed := closed s;
     gone := gone s |}.
Definition set_current_player (x : option nat) (s : Server) : Server :=
  {| game_state := game_state s; card_set := card_set s;
     res_name := res_name s; res_link := res_link s;
     configuration := configuration s; players := players s;
     sockets := sockets s; have_master := have_master s;
     seq_number := seq_number s; srv_cards := srv_cards s;
     current_player := x; closed := closed s; gone := gone s |}.
Definition set_closed (x : list Sock) (s : Server) : Server :=
  {| game_state := game_state s; card_set := card_set s;
     res_name := res_name s; res_link := res_link s;
     configuration := configuration s; players := players s;
     sockets := sockets s; have_master := have_master s;
     seq_number := seq_number s; srv_cards := srv_cards s;
     current_player := current_player s; closed := x; gone := gone s |}.
Definition set_gone (x : list Player) (s : Server) : Server :=
  {| game_state := game_state s; card_set := card_set s;
     res_name := res_name s; res_link := res_link s;
     configuration := configuration s; players := players s;
     sockets := sockets s; have_master := have_master s;
     seq_number := seq_number s; srv_cards := srv_cards s;
     current_player := current_player s; closed := closed s; gone := x |}.

(** ** Class [Player]: construction, liveness, output queue *)

(** [Player.__init__] *)
Definition new_player (sock : Sock) (st : Status) (n : nat) : Player :=
  {| player_socket := sock; status := st; state := VER_CHECK;
     conn := Some (conn_new sock); valid := true; name := "Player";
     score := 0; get_broadcast := false; cards := []; number := n;
     current_card := None; selected_card := None; buffer := [];
     has_buffer := false; has_turn := false |}.

(** [Player.stop] *)
Definition stop (p : Player) : Player := set_conn None (set_valid false p).

(** [Player.verify]: [self.valid and self.conn.status]; the attribute
    access fails on a valid player without connection. *)
Definition verify (p : Player) : option bool :=
  if valid p then c ← conn p; Some (conn_status c) else Some false.

(** [Player.send_message] *)
Definition send_message (data : string) (p : Player) : Player :=
  set_has_buffer true (set_buffer (buffer p ++ [data]) p).

(** [Player.push_buffer]: every queued message goes to the connection, in
    order. *)
Definition push_buffer (p : Player) : option Player :=
  match buffer p with
  | [] => Some (set_has_buffer false p)
  | _ :: _ =>
      c ← conn p;
      Some (set_has_buffer false
              (set_buffer []
                 (set_conn (Some (foldl (fun c m => conn_send m c) c (buffer p))) p)))
  end.

(** ** Class [PlayerList] *)

(** [PlayerList.__iter__]: the valid players, in join order. *)
Definition valid_players (ps : list Player) : list Player := List.filter valid ps.

(** [PlayerList.__len__] *)
Definition len_players (ps : list Player) : nat := length (valid_players ps).

(** Dereferencing: the player object with a given number, and an update of
    that object in the store. *)
Definition find_player (n : nat) (ps : list Player) : option Player :=
  List.find (fun p => Nat.eqb (number p) n) ps.

Definition update_player (n : nat) (f : Player -> Player) (ps : list Player)
  : list Player :=
  map (fun p => if Nat.eqb (number p) n then f p else p) ps.

(** [for player in self.plist: body(player)], for a body that touches only
    [player]. *)
Definition for_players (body : Player -> Player) (ps : list Player) : list Player :=
  map (fun p => if valid p then body p else p) ps.

(** The same loop with a body that may raise. *)
Fixpoint for_players_opt (body : Player -> option Player) (ps : list Player)
  : option (list Player) :=
  match ps with
  | [] => Some []
  | p :: ps' =>
      p' ← (if valid p then body p else Some p);
      ps'' ← for_players_opt body ps';
      Some (p' :: ps'')
  end.

(** The same loop with a body that also reads and updates a local of the
    enclosing function, and may raise. *)
Fixpoint for_players_st {A} (body : A -> Player -> option (A * Player))
    (a : A) (ps : list Player) : option (A * list Player) :=
  match ps with
  | [] => Some (a, [])
  | p :: ps' =>
      '(a', p') ← (if valid p then body a p else Some (a, p));
      '(a'', ps'') ← for_players_st body a' ps';
      Some (a'', p' :: ps'')
  end.

(** [for x in l: acc = step(acc, x)] with a step that may raise. *)
Fixpoint foldM {A B} (step : A -> B -> option A) (acc : A) (l : list B) : option A :=
  match l with
  | [] => Some acc
  | x :: l' => acc' ← step acc x; foldM step acc' l'
  end.

(** The digest [number;name,...] of the broadcast-eligible valid players. *)
Definition player_list_digest (ps : list Player) : string :=
  py_join ","
    (map (fun i => str_nat (number i) +:+ ";" +:+ name i)
         (List.filter get_broadcast (valid_players ps))).

(** [PlayerList.broadcast(data, info)]; [info] is a reference to a player
    or [None]. *)
Definition broadcast (data : string) (info : option nat) (ps : list Player)
  : option (list Player) :=
  let data1 :=
    if String.eqb data "#PLAYER_LIST"
    then "PLAYER_LIST " +:+ player_list_digest ps else data in
  data2 ← (if String.eqb data1 "#SELF"
           then n ← info; Some ("PLAYER " +:+ str_nat n)
           else Some data1);
  Some (for_players (fun i => if get_broadcast i then send_message data2 i else i) ps).

(** [PlayerList.add_player] *)
Definition add_player (sock : Sock) (s : Server) : Server :=
  let new := new_player sock (if have_master s then PLAYER else MASTER) (seq_number s) in
  set_seq_number (seq_number s + 1)
    (set_have_master true
       (set_sockets (<[sock := number new]> (sockets s))
          (set_players (players s ++ [new]) s))).

(** The loop of [PlayerList.check]: the index of the first player that does
    not verify. *)
Fixpoint first_dead (i : nat) (ps : list Player) : option (option nat) :=
  match ps with
  | [] => Some None
  | p :: ps' =>
      ok ← verify p;
      if ok : bool then first_dead (S i) ps' else Some (Some i)
  end.

(** [PlayerList.check] *)
Definition check (s : Server) : option Server :=
  d ← first_dead 0 (players s);
  match d with
  | None => Some s
  | Some i =>
      player ← players s !! i;
      flushed ← push_buffer player;
      let s := set_gone (gone s ++ [stop flushed]) s in
      _ ← sockets s !! player_socket player;
      let s1 := set_sockets (delete (player_socket player) (sockets s)) s in
      let s2 :=
        if bool_decide (status player = MASTER)
           && bool_decide (game_state s1 = PLAYER_CONN)
        then set_game_state ERROR s1 else s1 in
      let s3 := set_players (delete i (players s2)) s2 in
      if bool_decide (game_state s3 = PLAYER_CONN)
      then ps ← broadcast "#PLAYER_LIST" None (players s3); Some (set_players ps s3)
      else Some s3
  end.

(** The first loop of [PlayerList.next_player]: the index of [player], 0
    when it is not in the list. *)
Definition index_of (player : option nat) (ps : list Player) : nat :=
  match player with
  | None => 0
  | Some n =>
      match list_find (fun p => number p = n) ps with
      | Some (i, _) => i
      | None => 0
      end
  end.

(** The second loop, [fuel] iterations left. *)
Fixpoint next_player_loop (fuel p_idx : nat) (ps : list Player)
  : option (option nat) :=
  match fuel with
  | 0 => Some None
  | S fuel' =>
      let p_idx1 := p_idx + 1 in
      let p_idx2 := if length ps <=? p_idx1 then 0 else p_idx1 in
      p ← ps !! p_idx2;
      if valid p then Some (Some (number p)) else next_player_loop fuel' p_idx2 ps
  end.

(** [PlayerList.next_player] *)
Definition next_player (player : option nat) (ps : list Player)
  : option (option nat) :=
  next_player_loop (length ps * 2) (index_of player ps) ps.

(** [PlayerList.stop] *)
Definition stop_all (s : Server) : option Server :=
  flushed ← mapM push_buffer (players s);
  Some (set_gone (gone s ++ map stop flushed) (set_sockets ∅ (set_players [] s))).

(** ** Class [Player]: the protocol state machine *)

(** An assignment to attributes of the player object [n]. *)
Definition upd (n : nat) (f : Player -> Player) (s : Server) : Server :=
  set_players (update_player n f (players s)) s.

(** [for player in self.plist: player.state = st] *)
Definition set_all_states (st : PState) (s : Server) : Server :=
  set_players (for_players (set_state st) (players s)) s.

Definition tok (i : nat) (res : list string) : string := nth i res "".

(** [Player.handle_message] of the player object [n]. *)
Definition handle_message (n : nat) (s : Server) : option Server :=
  self ← find_player n (players s);
  c ← conn self;
  let '(line, c') := conn_get c in
  let res := py_split line in
  let s := upd n (set_conn (Some c')) s in
  let invalid := Some (upd n (set_valid false) s) in
  match state self with
  | VER_WAIT =>
      if negb (length res =? 2) || negb (String.eqb (tok 0 res) "OK") then invalid
      else
        let s := upd n (fun p => set_get_broadcast true (set_name (tok 1 res) p)) s in
        ps ← broadcast "#PLAYER_LIST" None (players s);
        Some (upd n (set_state START_WAIT) (set_players ps s))
  | START_WAIT =>
      if negb (bool_decide (status self = MASTER)) then invalid
      else if negb (length res =? 2) || negb (String.eqb (tok 0 res) "START_GAME")
      then invalid
      else
        Some (upd n (set_state BEGIN_SYNC)
                (set_card_set (tok 1 res) (set_game_state GAME s)))
  | READY_WAIT =>
      if negb (length res =? 1) || negb (String.eqb (tok 0 res) "READY") then invalid
      else Some (upd n (set_state TURN_SYNC) s)
  | WAIT_ASSOC =>
      if negb (has_turn self) then invalid
      else if (length res <? 3) || negb (String.eqb (tok 0 res) "TURN")
              || negb (py_isnumeric (tok 1 res))
      then Some (set_all_states TURN_SYNC (upd n (set_valid false) s))
      else
        card ← py_int (tok 1 res);
        let s :=
          upd n (fun p => set_selected_card (Some (-1)%Z)
                            (set_current_card (Some card) p)) s in
        let s := set_all_states WAIT_SELF_CARD s in
        ps ← broadcast ("ASSOC " +:+ py_join " " (drop 2 res)) None (players s);
        Some (set_players ps s)
  | WAIT_SELF_CARD =>
      if negb (has_turn self) then
        if (length res <? 2) || negb (String.eqb (tok 0 res) "CARD")
           || negb (py_isnumeric (tok 1 res))
        then invalid
        else
          card ← py_int (tok 1 res);
          let s := upd n (set_current_card (Some card)) s in
          ps ← broadcast "#SELF" (Some n) (players s);
          Some (upd n (set_state SELF_SYNC) (set_players ps s))
      else invalid
  | WAIT_VOTE =>
      if negb (has_turn self) then
        if (length res <? 2) || negb (String.eqb (tok 0 res) "CARD")
           || negb (py_isnumeric (tok 1 res))
        then invalid
        else
          card ← py_int (tok 1 res);
          Some (upd n (fun p => set_state VOTE_SYNC (set_selected_card (Some card) p)) s)
      else invalid
  | WAIT_NEXT_TURN =>
      if negb (length res =? 1) || negb (String.eqb (tok 0 res) "NEXT_TURN")
      then invalid
      else Some (upd n (set_state SYNC_NEXT_TURN) s)
  | _ => invalid
  end.

(** The attribute [attr] of the player object [n], as it is now. *)
Definition self_is {A} (n : nat) (attr : Player -> A) (test : A -> bool) (s : Server)
  : bool :=
  match find_player n (players s) with
  | Some self => test (attr self)
  | None => false
  end.

(** [Player.handle_state] of the player object [n]: five tests in a row,
    each on the state the previous ones left. *)
Definition on_ver_check (n : nat) (s : Server) : Server :=
  if self_is n state (fun st => bool_decide (st = VER_CHECK)) s then
    upd n (fun self =>
             set_state VER_WAIT
               (send_message
                  ("VERSION " +:+ str_nat (number self) +:+ " "
                   +:+ str_status (status self) +:+ " " +:+ res_name s
                   +:+ " " +:+ res_link s) self)) s
  else s.

Definition on_start_wait (n : nat) (s : Server) : Server :=
  if self_is n state (fun st => bool_decide (st = START_WAIT)) s
     && bool_decide (game_state s = GAME)
  then upd n (set_state BEGIN_SYNC) s else s.

Definition on_ver_wait (n : nat) (s : Server) : Server :=
  if self_is n state (fun st => bool_decide (st = VER_WAIT)) s
     && bool_decide (game_state s = GAME)
  then upd n (set_valid false) s else s.

Definition on_wait_self_card (n : nat) (s : Server) : option Server :=
  if self_is n state (fun st => bool_decide (st = WAIT_SELF_CARD)) s
     && self_is n has_turn id s
  then
    let s := upd n (set_state SELF_SYNC) s in
    ps ← broadcast "#SELF" (Some n) (players s);
    Some (set_players ps s)
  else Some s.

Definition on_wait_vote (n : nat) (s : Server) : Server :=
  if self_is n state (fun st => bool_decide (st = WAIT_VOTE)) s
     && self_is n has_turn id s
  then upd n (set_state VOTE_SYNC) s else s.

Definition handle_state (n : nat) (s : Server) : option Server :=
  s ← on_wait_self_card n (on_ver_wait n (on_start_wait n (on_ver_check n s)));
  Some (on_wait_vote n s).

(** ** Class [GameServer] *)

(** [GameServer.get_sync_state]; [st] is the local of the same name. *)
Fixpoint get_sync_state_from (st : option PState) (ps : list Player)
  : option PState :=
  match ps with
  | [] => st
  | player :: ps' =>
      if valid player then
        match st with
        | None => get_sync_state_from (Some (state player)) ps'
        | Some x =>
            if bool_decide (state player = x)
            then get_sync_state_from st ps' else None
        end
      else get_sync_state_from st ps'
  end.

Definition get_sync_state (s : Server) : option PState :=
  get_sync_state_from None (players s).

(** [GameServer.accept_connection]; [sock] is the socket that
    [listening_socket.accept()] returned. *)
Definition accept_connection (sock : Sock) (s : Server) : Server :=
  let reject := set_closed (closed s ++ [sock]) s in
  if bool_decide (game_state s = PLAYER_CONN) then
    if len_players (players s) <? 7 then add_player sock s else reject
  else reject.

(** The number of cards of the configured card set, 50 when the
    configuration has no entry for it (or could not be loaded). *)
Definition card_num (s : Server) : Z :=
  match configuration s with
  | Some conf => default 50%Z (conf !! card_set s)
  | None => 50%Z
  end.

(** The [if]/[elif] chain of [GameServer.begin_game]. *)
Definition reduce_deck (n : nat) (cards : list Z) : list Z :=
  if n =? 4 then slice_to cards (Z.of_nat (length cards) - 2)
  else if n =? 5 then slice_to cards (Z.of_nat (length cards) - 23)
  else if n =? 6 then slice_to cards (Z.of_nat (length cards) - 26)
  else cards.

(** The deck of [GameServer.begin_game] before the hands are dealt. *)
Definition usable_deck (shuffle : forall A : Type, list A -> list A) (s : Server) : list Z :=
  reduce_deck (len_players (players s)) (shuffle Z (py_range (card_num s))).

(** [player.cards = self.cards[:6]; self.cards = self.cards[6:]] *)
Definition deal_six (deck : list Z) (player : Player) : option (list Z * Player) :=
  Some (slice_from deck 6, set_cards (slice_to deck 6) player).

(** [GameServer.begin_game] *)
Definition begin_game (shuffle : forall A : Type, list A -> list A) (s : Server)
  : option Server :=
  '(deck, ps) ← for_players_st deal_six (usable_deck shuffle s) (players s);
  Some (set_srv_cards deck (set_players ps s)).

(** [result[k] += 1] *)
Definition dict_incr (k : nat) (m : gmap nat Z) : option (gmap nat Z) :=
  v ← m !! k; Some (<[k := (v + 1)%Z]> m).

Definition is_not (player : Player) (ref : nat) : bool :=
  negb (Nat.eqb (number player) ref).

(** The two nested loops of [GameServer.calculate_result] that fill the
    dictionary [result]. *)
Definition count_votes (cp : nat) (vs : list Player) (result : gmap nat Z)
  : option (gmap nat Z) :=
  foldM
    (fun result i =>
       foldM
         (fun result player =>
            if is_not player cp then
              if bool_decide (current_card i = selected_card player)
              then dict_incr (number i) result else Some result
            else Some result)
         result vs)
    result vs.

(** [GameServer.calculate_result] *)
Definition calculate_result (s : Server) : option Server :=
  cp ← current_player s;
  cur ← find_player cp (players s);
  let card := current_card cur in
  let vs := valid_players (players s) in
  result ← count_votes cp vs (list_to_map (map (fun p => (number p, 0%Z)) vs));
  correct ← result !! cp;
  if bool_decide (correct = (Z.of_nat (length vs) - 1)%Z) then
    Some (set_players
            (for_players
               (fun player =>
                  if is_not player cp then set_score (score player + 3)%Z player
                  else player)
               (players s)) s)
  else
    let s :=
      if negb (bool_decide (correct = 0%Z)) then
        upd cp (fun p => set_score (score p + 3)%Z p)
          (set_players
             (for_players
                (fun player =>
                   if is_not player cp then
                     if bool_decide (selected_card player = card)
                     then set_score (score player + 3)%Z player else player
                   else player)
                (players s)) s)
      else s in
    ps ← for_players_opt
           (fun i => r ← result !! number i; Some (set_score (score i + r)%Z i))
           (players s);
    Some (set_players ps s).

(** [player.cards.remove(card)] for the first [card] of the hand that equals
    [player.current_card], if there is one. *)
Definition remove_played (c : option Z) (hand : list Z) : list Z :=
  match c with
  | Some x => remove_first x hand
  | None => hand
  end.

(** [self.current_player.verify()]: an object that left the roster (it is
    in [gone]) went through [Player.stop], so it is not valid. *)
Definition verify_ref (n : nat) (s : Server) : option bool :=
  match find_player n (players s) with
  | Some p => verify p
  | None => Some false
  end.

(** [randrange(n)], [rnd] being the number drawn. *)
Definition randrange (rnd n : nat) : option nat :=
  if n =? 0 then None else Some (rnd `mod` n).

Definition same_ref (player : Player) (ref : option nat) : bool :=
  match ref with
  | Some n => Nat.eqb (number player) n
  | None => false
  end.

(** The first lines of [GameServer.global_operations]: a storyteller that
    does not verify sends every valid player back to [TURN_SYNC]. *)
Definition recover (s : Server) : option Server :=
  match current_player s with
  | Some cp =>
      ok ← verify_ref cp s;
      Some (if ok : bool then s else set_all_states TURN_SYNC s)
  | None => Some s
  end.

(** The branch of [global_operations] for [BEGIN_SYNC]. *)
Definition on_begin_sync (shuffle : forall A : Type, list A -> list A) (rnd : nat)
    (s : Server) : option Server :=
  if 0 <? len_players (players s) then
    s ← begin_game shuffle s;
    let player_lst := player_list_digest (players s) in
    let s :=
      set_players
        (for_players
           (fun player =>
              send_message
                ("BEGIN " +:+ card_set s +:+ " "
                 +:+ py_join "," (map str_Z (cards player)) +:+ " " +:+ player_lst)
                (set_state READY_WAIT player))
           (players s)) s in
    r ← randrange rnd (length (players s));
    start ← players s !! r;
    cp ← next_player (Some (number start)) (players s);
    Some (set_current_player cp s)
  else Some (set_game_state ERROR s).

(** The branch for [TURN_SYNC]. *)
Definition on_turn_sync (s : Server) : option Server :=
  cp ← next_player (current_player s) (players s);
  let s := set_current_player cp s in
  let s :=
    set_players
      (for_players
         (fun player => set_state WAIT_ASSOC (set_has_turn (same_ref player cp) player))
         (players s)) s in
  n ← cp;
  ps ← broadcast ("TURN " +:+ str_nat n) None (players s);
  Some (set_players ps s).

(** The branch for [SELF_SYNC]. *)
Definition on_self_sync (shuffle : forall A : Type, list A -> list A) (s : Server)
  : option Server :=
  let card_list := map current_card (valid_players (players s)) in
  ps ← broadcast ("VOTE " +:+ py_join "," (map str_card (shuffle _ card_list)))
         None (players s);
  Some (set_all_states WAIT_VOTE (set_players ps s)).

(** The branch for [VOTE_SYNC]. *)
Definition on_vote_sync (s : Server) : option Server :=
  s ← calculate_result s;
  let card_list :=
    map (fun player =>
           str_nat (number player) +:+ ";" +:+ str_card (current_card player)
           +:+ ";" +:+ str_card (selected_card player))
        (valid_players (players s)) in
  let score_list :=
    map (fun player => str_nat (number player) +:+ ";" +:+ str_Z (score player))
        (valid_players (players s)) in
  cp ← current_player s;
  cur ← find_player cp (players s);
  ps ← broadcast
         ("STATUS " +:+ str_card (current_card cur) +:+ " "
          +:+ py_join "," card_list +:+ " " +:+ py_join "," score_list)
         None (players s);
  Some (set_all_states WAIT_NEXT_TURN (set_players ps s)).

(** [player.cards.append(self.cards.pop(0))] *)
Definition deal_one (deck : list Z) (player : Player) : option (list Z * Player) :=
  match deck with
  | c :: deck' => Some (deck', set_cards (cards player ++ [c]) player)
  | [] => None
  end.

(** The last [if] of the branch for [SYNC_NEXT_TURN]: the hand of the first
    valid player decides between the next turn and the end of the game. *)
Definition finish_turn (s : Server) : option Server :=
  first ← head (valid_players (players s));
  if 0 <? length (cards first) then
    Some (set_players
            (for_players
               (fun player =>
                  set_state TURN_SYNC
                    (send_message
                       ("CARDS " +:+ py_join "," (map str_Z (cards player))) player))
               (players s)) s)
  else
    ps ← broadcast "END_GAME" None (players s);
    Some (set_players (for_players (set_valid false) ps) s).

(** The branch for [SYNC_NEXT_TURN]. *)
Definition on_sync_next_turn (s : Server) : option Server :=
  let s :=
    set_players
      (for_players
         (fun player =>
            set_cards (remove_played (current_card player) (cards player)) player)
         (players s)) s in
  s ← (if len_players (players s) <=? length (srv_cards s) then
         '(deck, ps) ← for_players_st deal_one (srv_cards s) (players s);
         Some (set_srv_cards deck (set_players ps s))
       else Some s);
  finish_turn s.

(** [GameServer.global_operations] *)
Definition global_operations (shuffle : forall A : Type, list A -> list A) (rnd : nat)
    (s : Server) : option Server :=
  s ← recover s;
  match get_sync_state s with
  | Some BEGIN_SYNC => on_begin_sync shuffle rnd s
  | Some TURN_SYNC => on_turn_sync s
  | Some SELF_SYNC => on_self_sync shuffle s
  | Some VOTE_SYNC => on_vote_sync s
  | Some SYNC_NEXT_TURN => on_sync_next_turn s
  | _ => Some s
  end.

(** [GameServer.prepare]; the arguments are what [Resources] reads from the
    environment and from its two files. *)
Definition prepare (rname rlink : string) (conf : option (gmap string Z)) (s : Server)
  : Server :=
  {| game_state := PLAYER_CONN; card_set := card_set s; res_name := rname;
     res_link := rlink; configuration := conf; players := []; sockets := ∅;
     have_master := false; seq_number := 0; srv_cards := srv_cards s;
     current_player := None; closed := closed s; gone := [] |}.

(** ** The body of the main loop, and the console *)

(** "Push buffers", for one socket ready for writing. *)
Definition flush (flow : Sock) (s : Server) : option Server :=
  n ← sockets s !! flow;
  player ← find_player n (players s);
  c ← conn player;
  match buffer player with
  | m :: rest =>
      Some (upd n (fun p => set_has_buffer (0 <? length rest)
                              (set_buffer rest (set_conn (Some (conn_send m c)) p))) s)
  | [] => None
  end.

(** "Handle input", for one player socket ready for reading. *)
Definition handle_input (flow : Sock) (s : Server) : option Server :=
  n ← sockets s !! flow; handle_message n s.

(** "Do player events according to state". *)
Definition handle_states (s : Server) : option Server :=
  foldM (fun s n => if self_is n valid id s then handle_state n s else Some s)
        s (map number (players s)).

(** [CLI.comm_start], [CLI.comm_end] and [CLI.comm_stop]. *)
Definition comm_start (cmdline : list string) (s : Server) : Server :=
  if negb (bool_decide (game_state s = PLAYER_CONN)) then s
  else if length cmdline =? 2
       then set_game_state GAME (set_card_set (tok 1 cmdline) s)
       else s.

Definition comm_end (s : Server) : Server :=
  if bool_decide (game_state s = GAME) then
    set_srv_cards [] (set_players (for_players (set_cards []) (players s)) s)
  else s.

Definition comm_stop (s : Server) : Server := set_game_state SHUTDOWN s.

(** One session: what the event loop and the console can do to the state
    after [prepare], one operation at a time.  The socket that
    [listening_socket.accept()] returns is a new object, so it is not yet a
    key of the lookup. *)
Inductive step : Server -> Server -> Prop :=
  | step_flush flow s s' : flush flow s = Some s' -> step s s'
  | step_input flow s s' : handle_input flow s = Some s' -> step s s'
  | step_accept sock s :
      sockets s !! sock = None -> step s (accept_connection sock s)
  | step_states s s' : handle_states s = Some s' -> step s s'
  | step_global shuffle rnd s s' :
      global_operations shuffle rnd s = Some s' -> step s s'
  | step_check s s' : check s = Some s' -> step s s'
  | step_start cmdline s : step s (comm_start cmdline s)
  | step_end s : step s (comm_end s)
  | step_stop s : step s (comm_stop s).

Inductive reachable : Server -> Prop :=
  | reach_prepare rname rlink conf s : reachable (prepare rname rlink conf s)
  | reach_step s s' : reachable s -> step s s' -> reachable s'.

(** ** The rules of the specification, in its own words *)

(** "The session is synchronized on state S iff every currently-valid
    player's state equals S (and the roster is non-empty)." *)
Definition synchronized_on (st : PState) (s : Server) : Prop :=
  valid_players (players s) <> [] /\
  Forall (fun p => state p = st) (valid_players (players s)).

(** The storyteller, if one is designated, still verifies. *)
Definition storyteller_ok (s : Server) : Prop :=
  match current_player s with
  | Some cp => verify_ref cp s = Some true
  | None => True
  end.

(** "fooled[i] = count of non-storyteller players whose vote equals i's
    played card." *)
Definition fooled (cp : nat) (vs : list Player) (i : Player) : Z :=
  Z.of_nat
    (length
       (List.filter
          (fun voter =>
             is_not voter cp && bool_decide (selected_card voter = current_card i))
          vs)).

(** The points that player [i] gains in a round with storyteller [teller]
    and roster [vs]. *)
Definition score_gain (teller : Player) (vs : list Player) (i : Player) : Z :=
  let cp := number teller in
  let correct := fooled cp vs teller in
  if bool_decide (correct = Z.of_nat (length vs) - 1)%Z then
    if is_not i cp then 3%Z else 0%Z
  else
    ((if bool_decide (0 < correct)%Z then
        if is_not i cp then
          if bool_decide (selected_card i = current_card teller) then 3 else 0
        else 3
      else 0)
     + fooled cp vs i)%Z.

(** "4 players: -2, 5 players: -23, 6 players: -26, any other size: no
    reduction." *)
Definition deck_offset (n : nat) : Z :=
  match n with
  | 4 => 2%Z
  | 5 => 23%Z
  | 6 => 26%Z
  | _ => 0%Z
  end.

(** The [k]-th hand of six cards from the front of [deck]. *)
Definition hand_at (deck : list Z) (k : nat) : list Z := take 6 (drop (6 * k) deck).

(** The valid players of [ps] receive the hands [hs], in join order. *)
Fixpoint assign_hands (hs : list (list Z)) (ps : list Player) : list Player :=
  match ps with
  | [] => []
  | p :: ps' =>
      if valid p then
        match hs with
        | h :: hs' => set_cards h p :: assign_hands hs' ps'
        | [] => p :: ps'
        end
      else p :: assign_hands hs ps'
  end.

(** The transition on [SYNC_NEXT_TURN]: every valid player loses its played
    card; if the deck holds a card for each of them, the [k]-th valid player
    takes the [k]-th card of the deck; the game is over when the first valid
    player is left without cards. *)
Definition next_turn_spec (s : Server) : Server :=
  let vs := valid_players (players s) in
  let deck := srv_cards s in
  let dealt := bool_decide (length vs <= length deck) in
  let kept := map (fun p => remove_played (current_card p) (cards p)) vs in
  let hands :=
    if dealt then zip_with (fun h c => h ++ [c]) kept (take (length vs) deck)
    else kept in
  let ps := assign_hands hands (players s) in
  let over := bool_decide (head hands = Some []) in
  set_srv_cards (if dealt then drop (length vs) deck else deck)
    (set_players
       (map (fun p =>
               if valid p then
                 if over then
                   set_valid false
                     (if get_broadcast p then send_message "END_GAME" p else p)
                 else
                   set_state TURN_SYNC
                     (send_message ("CARDS " +:+ py_join "," (map str_Z (cards p))) p)
               else p)
            ps)
       s).

(** A message that fails the test of the [WAIT_ASSOC] branch,
    [len(res) < 3 or res[0] != "TURN" or not res[1].isnumeric()]. *)
Definition malformed_clue (res : list string) : Prop :=
  length res < 3 \/ tok 0 res <> "TURN" \/ py_isnumeric (tok 1 res) = false.

(** A player that the sweep would remove. *)
Definition dead (p : Player) : bool :=
  match verify p with
  | Some true => false
  | _ => true
  end.

(** The invariant of a session on the identities in the roster. *)
Record wf (s : Server) : Prop := {
  wf_numbers : NoDup (map number (players s));
  wf_sockets : NoDup (map player_socket (players s));
  wf_players :
    Forall (fun p =>
              number p < seq_number s /\ is_Some (conn p) /\
              sockets s !! player_socket p = Some (number p) /\
              (status p = MASTER <-> number p = 0))
           (players s);
  wf_master : have_master s = true <-> 0 < seq_number s
}.

(** Two states of one player object: an operation may change its
    attributes but not its identity, and does not take its connection. *)
Definition same_ids (p p' : Player) : Prop :=
  number p' = number p /\ status p' = status p /\
  player_socket p' = player_socket p /\ (is_Some (conn p) -> is_Some (conn p')).

Definition keeps (f : Player -> Player) : Prop := forall p, same_ids p (f p).

(** An operation that neither adds nor removes a player. *)
Definition roster_kept (s s' : Server) : Prop :=
  Forall2 same_ids (players s) (players s') /\ sockets s' = sockets s /\
  have_master s' = have_master s /\ seq_number s' = seq_number s /\
  gone s' = gone s.

(** ** What a session keeps *)

(** The queue flag is set exactly when something is queued. *)
Definition queue_ok (p : Player) : Prop := has_buffer p = true <-> buffer p <> [].

(** A later state of a player object in a session: the same identity, and
    what an operation never takes back. *)
Definition later (p p' : Player) : Prop :=
  same_ids p p' /\
  (valid p = false -> valid p' = false) /\
  (score p <= score p')%Z /\
  (get_broadcast p = true -> get_broadcast p' = true) /\
  (queue_ok p -> queue_ok p').

(** The two tests at the head of the inner loop of [GameServer.main]: the
    session is left when the phase is neither [PLAYER_CONN] nor [GAME], or
    when no valid player is left outside [PLAYER_CONN]. *)
Definition session_over (s : Server) : bool :=
  (negb (bool_decide (game_state s = PLAYER_CONN))
   && negb (bool_decide (game_state s = GAME)))
  || ((len_players (players s) =? 0)
      && negb (bool_decide (game_state s = PLAYER_CONN))).

(** The states of a turn, from the clue to the count of the votes. *)
Definition in_turn (st : PState) : bool :=
  match st with
  | WAIT_ASSOC | WAIT_SELF_CARD | SELF_SYNC | WAIT_VOTE | VOTE_SYNC => true
  | _ => false
  end.

(** No player is in a turn before a storyteller has been designated. *)
Definition turn_has_teller (s : Server) : Prop :=
  current_player s <> None \/
  Forall (fun p => in_turn (state p) = false) (players s).

(** ** One iteration of the loop of [GameServer.main] *)

(** [rlist] without the listening socket, and [wlist]. *)
Definition rlist (s : Server) : list Sock :=
  map player_socket (valid_players (players s)).

Definition wlist (s : Server) : list Sock :=
  map player_socket (List.filter has_buffer (valid_players (players s))).

(** An element of [flows[0]]: the listening socket, with the socket that
    [accept()] is going to return, or the socket of a player. *)
Inductive Flow := Listening (new : Sock) | Client (flow : Sock).

(** The body of the loop "Handle input". *)
Definition handle_flow (f : Flow) (s : Server) : option Server :=
  match f with
  | Listening new => Some (accept_connection new s)
  | Client flow => handle_input flow s
  end.

(** The body of the inner loop after the two exit tests: [wflows] and
    [rflows] are what [select] returned. *)
Definition iteration (wflows : list Sock) (rflows : list Flow)
    (shuffle : forall A : Type, list A -> list A) (rnd : nat) (s : Server)
  : option Server :=
  s ← foldM (fun s flow => flush flow s) s wflows;
  s ← foldM (fun s f => handle_flow f s) s rflows;
  s ← handle_states s;
  s ← global_operations shuffle rnd s;
  check s.

(** What [select] can return: sockets of [wlist] and of [rlist], each at
    most once; an accepted socket is a new one. *)
Definition select_ok (s : Server) (wflows : list Sock) (rflows : list Flow) : Prop :=
  NoDup wflows /\ Forall (fun flow => flow ∈ wlist s) wflows /\
  NoDup rflows /\
  Forall (fun f => match f with
                   | Listening new => sockets s !! new = None
                   | Client flow => flow ∈ rlist s
                   end) rflows.

End Server.

(** ** Concrete rosters for the examples *)

(** A connection that reads from a script: the lines still to come, the
    lines written so far, the health flag. *)
Record script_conn := { sc_in : list string; sc_out : list string; sc_ok : bool }.

Definition script_api : ConnAPI :=
  {| connection := script_conn;
     conn_new := fun _ => {| sc_in := []; sc_out := []; sc_ok := true |};
     conn_status := sc_ok;
     conn_send := fun m c =>
       {| sc_in := sc_in c; sc_out := sc_out c ++ [m]; sc_ok := sc_ok c |};
     conn_get := fun c =>
       match sc_in c with
       | l :: r => (l, {| sc_in := r; sc_out := sc_out c; sc_ok := sc_ok c |})
       | [] => ("", {| sc_in := []; sc_out := sc_out c; sc_ok := false |})
       end |}.

Definition reading (l : list string) : @connection script_api :=
  {| sc_in := l; sc_out := []; sc_ok := true |}.

Definition id_shuffle : forall A : Type, list A -> list A := fun _ l => l.

(** A configuration with the card set "0" of [n] cards. *)
Definition card_set_of (n : Z) : option (gmap string Z) := Some {[ "0" := n ]}.

(** The state that [GameServer.__init__] and the first lines of
    [GameServer.main] build, and a session right after [prepare] with
    [conf] as configuration. *)
Definition boot : @Server script_api :=
  {| game_state := PLAYER_CONN; card_set := "0"; res_name := ""; res_link := "";
     configuration := None; players := []; sockets := ∅; have_master := false;
     seq_number := 0; srv_cards := []; current_player := None; closed := [];
     gone := [] |}.

Definition fresh (conf : option (gmap string Z)) : @Server script_api :=
  prepare "v1" "http://host/pack" conf boot.

(** [n] connections accepted on the sockets 10, 11, ... *)
Definition seated (conf : option (gmap string Z)) (n : nat) : @Server script_api :=
  foldl (fun s k => accept_connection k s) (fresh conf) (seq 10 n).

(** [n] players on the [BEGIN_SYNC] barrier, the game just started. *)
Definition at_deal (conf : option (gmap string Z)) (n : nat) : @Server script_api :=
  set_all_states BEGIN_SYNC (set_game_state GAME (seated conf n)).

(** A seated player in the middle of a round. *)
Definition in_round (n : nat) (st : PState) (turn : bool) (hand : list Z)
    (played voted : option Z) (line : list string) : @Player script_api :=
  {| player_socket := 10 + n; status := if n =? 0 then MASTER else PLAYER;
     state := st; conn := Some (reading line); valid := true;
     name := "p" +:+ str_nat n; score := 0; get_broadcast := true; cards := hand;
     number := n; current_card := played; selected_card := voted; buffer := [];
     has_buffer := false; has_turn := turn |}.

(** A game in progress with roster [ps], deck [deck] and player 0 as
    storyteller. *)
Definition round_of (phase : Phase) (ps : list (@Player script_api)) (deck : list Z)
  : @Server script_api :=
  {| game_state := phase; card_set := "0"; res_name := "v1";
     res_link := "http://host/pack"; configuration := None; players := ps;
     sockets := list_to_map (map (fun p => (player_socket p, number p)) ps);
     have_master := true; seq_number := length ps; srv_cards := deck;
     current_player := Some 0; closed := []; gone := [] |}.

(** Four players at the vote barrier: the storyteller played 7, player 1
    played 11 and voted 7, players 2 and 3 voted 11. *)
Definition teller7 : @Player script_api :=
  in_round 0 VOTE_SYNC true [1; 7]%Z (Some 7%Z) (Some (-1)%Z) [].

Definition vote_round : @Server script_api :=
  round_of GAME
    [ teller7;
      in_round 1 VOTE_SYNC false [2; 11]%Z (Some 11%Z) (Some 7%Z) [];
      in_round 2 VOTE_SYNC false [3; 12]%Z (Some 12%Z) (Some 11%Z) [];
      in_round 3 VOTE_SYNC false [4; 13]%Z (Some 13%Z) (Some 11%Z) [] ] [].

(** Two players at the end of a turn, the deck is empty; the second one
    plays its last card. *)
Definition last_card : @Server script_api :=
  round_of GAME
    [ in_round 0 SYNC_NEXT_TURN true [1; 2]%Z (Some 1%Z) (Some (-1)%Z) [];
      in_round 1 SYNC_NEXT_TURN false [3]%Z (Some 3%Z) (Some 1%Z) [] ] [].

(** Three players at the end of a turn, four cards in the deck. *)
Definition next_round : @Server script_api :=
  round_of GAME
    [ in_round 0 SYNC_NEXT_TURN true [1; 2]%Z (Some 1%Z) (Some (-1)%Z) [];
      in_round 1 SYNC_NEXT_TURN false [3; 4]%Z (Some 3%Z) (Some 1%Z) [];
      in_round 2 SYNC_NEXT_TURN false [5; 6]%Z (Some 6%Z) (Some 1%Z) [] ]
    [8; 9; 10; 11]%Z.

(** The storyteller of [next_round] has been invalidated. *)
Definition teller_gone : @Server script_api :=
  set_players
    (update_player 0 (fun p => set_state WAIT_NEXT_TURN (set_valid false p))
       (players next_round))
    next_round.

(** The storyteller is about to send a clue without card number. *)
Definition clue_sender : @Player script_api :=
  in_round 0 WAIT_ASSOC true [1; 2]%Z None None ["TURN blue sky"].

Definition bad_clue : @Server script_api :=
  round_of GAME
    [ clue_sender;
      in_round 1 WAIT_ASSOC false [3; 4]%Z None None [];
      in_round 2 WAIT_ASSOC false [5; 6]%Z None None [] ] [].

(** The same storyteller, alone in the game. *)
Definition lone_clue : @Server script_api := round_of GAME [clue_sender] [].

(** Three players while connecting; [dead_ones] are the numbers of those
    that have been invalidated. *)
Definition lobby (dead_ones : list nat) : @Server script_api :=
  round_of PLAYER_CONN
    (map (fun n => set_valid (negb (bool_decide (n ∈ dead_ones)))
                     (in_round n START_WAIT false [] None None []))
         [0; 1; 2]) [].

(** The lobby with players 1 and 2 invalidated while two messages are still
    queued for every player. *)
Definition lobby_queued : @Server script_api :=
  set_players
    (map (fun p => send_message "PLAYER_LIST 0;p0,1;p1"
                     (send_message "PLAYER_LIST 0;p0" p))
         (players (lobby [1; 2])))
    (lobby [1; 2]).

(** The master of a lobby sends garbage before the handshake and a second
    player connects before the sweep. *)
Definition master_left : @Server script_api :=
  default (fresh None) (handle_input 10 (seated None 1)).

Definition late_joiner : @Server script_api := accept_connection 11 master_left.

(** ** A session played through the main loop *)

(** The superscript two, a numeric character that is not a decimal digit. *)
Definition superscript_two : string := String (ascii_of_nat 178) "".

(** Connections that deliver, on socket [k], the lines [script k]. *)
Definition session_api (script : Sock -> list string) : ConnAPI :=
  {| connection := script_conn;
     conn_new := fun k => {| sc_in := script k; sc_out := []; sc_ok := true |};
     conn_status := sc_ok;
     conn_send := fun m c =>
       {| sc_in := sc_in c; sc_out := sc_out c ++ [m]; sc_ok := sc_ok c |};
     conn_get := fun c =>
       match sc_in c with
       | l :: r => (l, {| sc_in := r; sc_out := sc_out c; sc_ok := sc_ok c |})
       | [] => ("", {| sc_in := []; sc_out := sc_out c; sc_ok := false |})
       end |}.

(** One client, on socket 10: it plays alone and gives its clue for a card
    that it names with a superscript. *)
Definition solo_script (k : Sock) : list string :=
  if k =? 10
  then ["OK alice"; "START_GAME 0"; "READY"; "TURN " +:+ superscript_two +:+ " sky"]
  else [].

Definition solo_api : ConnAPI := session_api solo_script.

Definition solo_fresh : @Server solo_api :=
  prepare "v1" "http://host/pack" None
    {| game_state := PLAYER_CONN; card_set := "0"; res_name := ""; res_link := "";
       configuration := None; players := []; sockets := ∅; have_master := false;
       seq_number := 0; srv_cards := []; current_player := None; closed := [];
       gone := [] |}.

(** The iterations of the main loop: the connection is accepted, then one
    line is read in each iteration. *)
Definition solo_lobby : @Server solo_api :=
  default solo_fresh (iteration [] [Listening 10] id_shuffle 0 solo_fresh).

Definition solo_named : @Server solo_api :=
  default solo_lobby (iteration [10] [Client 10] id_shuffle 0 solo_lobby).

Definition solo_dealt : @Server solo_api :=
  default solo_named (iteration [10] [Client 10] id_shuffle 0 solo_named).

Definition solo_turn : @Server solo_api :=
  default solo_dealt (iteration [10] [Client 10] id_shuffle 0 solo_dealt).

(** The player of the solo session, as it is in state [s]. *)
Definition solo_player (s : @Server solo_api) : @Player solo_api :=
  default (new_player 10 MASTER 0) (find_player 0 (players s)).

Definition solo_conn (s : @Server solo_api) : @connection solo_api :=
  default (conn_new 10) (conn (solo_player s)).

(** The master has sent [START_GAME 0]: the state between "Handle input"
    and "Global operations" in the third iteration. *)
Definition solo_started : @Server solo_api :=
  default solo_named (handle_input 10 solo_named).

(** The players of [next_round] at the [TURN_SYNC] barrier, and those of
    [vote_round] at the [SELF_SYNC] barrier. *)
Definition turn_barrier : @Server script_api := set_all_states TURN_SYNC next_round.

Definition ballot_barrier : @Server script_api := set_all_states SELF_SYNC vote_round.

(** The solo session when the first line is read before the version message
    could be written: two messages are queued. *)
Definition solo_backlog : @Server solo_api :=
  default solo_lobby (iteration [] [Client 10] id_shuffle 0 solo_lobby).

(** A card id of [n] digits. *)
Fixpoint digit_run (n : nat) : string :=
  match n with
  | 0 => ""
  | S n' => String "1" (digit_run n')
  end.

(** The shortest card id of decimal digits that [int()] refuses. *)
Definition long_id : string := digit_run (Z.to_nat (max_str_digits + 1)).

(** Two players after the clue of player 0; player 1 answers with the card
    id [id]. *)
Definition card_sender (id : string) : @Player script_api :=
  in_round 1 WAIT_SELF_CARD false [3; 4]%Z None None ["CARD " +:+ id].

Definition card_reply (id : string) : @Server script_api :=
  round_of GAME
    [ in_round 0 WAIT_SELF_CARD true [1; 2]%Z (Some 1%Z) (Some (-1)%Z) [];
      card_sender id ] [].


(** * Properties *)

Ltac keeps_setter := intros p; unfold same_ids; simpl; repeat split; auto.

Create HintDb roster.

Section Properties.
Context `{ConnAPI}.

(** *** Operations that keep the roster: same players, same identities *)

Lemma same_ids_refl p : same_ids p p.
Proof. by repeat split. Qed.

Lemma same_ids_trans p q r : same_ids p q -> same_ids q r -> same_ids p r.
Proof.
  intros (?&?&?&?) (?&?&?&?). repeat split; try congruence. auto.
Qed.

Lemma same_ids_list_refl ps : Forall2 same_ids ps ps.
Proof. apply Forall_Forall2_diag, Forall_forall. intros. apply same_ids_refl. Qed.

Lemma same_ids_list_trans ps qs rs :
  Forall2 same_ids ps qs -> Forall2 same_ids qs rs -> Forall2 same_ids ps rs.
Proof.
  intros Hpq. revert rs. induction Hpq; inversion 1; subst; constructor;
    eauto using same_ids_trans.
Qed.

Lemma same_ids_map f ps : keeps f -> Forall2 same_ids ps (map f ps).
Proof. intros Hf. induction ps; constructor; auto. Qed.

Lemma roster_kept_refl s : roster_kept s s.
Proof. split; [apply same_ids_list_refl|done]. Qed.

Lemma roster_kept_trans s1 s2 s3 :
  roster_kept s1 s2 -> roster_kept s2 s3 -> roster_kept s1 s3.
Proof.
  intros (?&?&?&?&?) (?&?&?&?&?). split; [by eapply same_ids_list_trans|].
  repeat split; congruence.
Qed.

Lemma roster_kept_players s ps :
  Forall2 same_ids (players s) ps -> roster_kept s (set_players ps s).
Proof. by split. Qed.

Lemma keeps_valid f : keeps f -> keeps (fun p => if valid p then f p else p).
Proof. intros Hf p. destruct (valid p); [apply Hf|apply same_ids_refl]. Qed.

Lemma keeps_number n f : keeps f -> keeps (fun p => if number p =? n then f p else p).
Proof. intros Hf p. destruct (_ =? n); [apply Hf|apply same_ids_refl]. Qed.

Lemma keeps_compose f g : keeps f -> keeps g -> keeps (fun p => f (g p)).
Proof. intros Hf Hg p. eapply same_ids_trans; [apply Hg|apply Hf]. Qed.

Lemma keeps_id : keeps (fun p => p).
Proof. intros p. apply same_ids_refl. Qed.

Lemma keeps_if (b : Player -> bool) f g :
  keeps f -> keeps g -> keeps (fun p => if b p then f p else g p).
Proof. intros Hf Hg p. destruct (b p); auto. Qed.

Lemma keeps_set_state x : keeps (set_state x).
Proof. keeps_setter. Qed.
Lemma keeps_set_conn c : keeps (set_conn (Some c)).
Proof. keeps_setter. Qed.
Lemma keeps_set_valid x : keeps (set_valid x).
Proof. keeps_setter. Qed.
Lemma keeps_set_name x : keeps (set_name x).
Proof. keeps_setter. Qed.
Lemma keeps_set_score f : keeps (fun p => set_score (f p) p).
Proof. keeps_setter. Qed.
Lemma keeps_set_get_broadcast x : keeps (set_get_broadcast x).
Proof. keeps_setter. Qed.
Lemma keeps_set_cards f : keeps (fun p => set_cards (f p) p).
Proof. keeps_setter. Qed.
Lemma keeps_set_current_card x : keeps (set_current_card x).
Proof. keeps_setter. Qed.
Lemma keeps_set_selected_card x : keeps (set_selected_card x).
Proof. keeps_setter. Qed.
Lemma keeps_set_buffer x : keeps (set_buffer x).
Proof. keeps_setter. Qed.
Lemma keeps_set_has_buffer x : keeps (set_has_buffer x).
Proof. keeps_setter. Qed.
Lemma keeps_set_has_turn f : keeps (fun p => set_has_turn (f p) p).
Proof. keeps_setter. Qed.
Lemma keeps_send_message f : keeps (fun p => send_message (f p) p).
Proof. keeps_setter. Qed.

Lemma same_ids_for_players f ps : keeps f -> Forall2 same_ids ps (for_players f ps).
Proof. intros Hf. apply same_ids_map. by apply keeps_valid. Qed.

Lemma same_ids_update_player n f ps : keeps f -> Forall2 same_ids ps (update_player n f ps).
Proof. intros Hf. apply same_ids_map. by apply keeps_number. Qed.

Lemma same_ids_broadcast data info ps ps' :
  broadcast data info ps = Some ps' -> Forall2 same_ids ps ps'.
Proof.
  unfold broadcast. intros (d & _ & [= <-])%bind_Some.
  apply same_ids_for_players. intros p. destruct (get_broadcast p).
  - apply (keeps_send_message (fun _ => d)).
  - apply same_ids_refl.
Qed.

Lemma same_ids_for_players_opt body ps ps' :
  (forall p p', body p = Some p' -> same_ids p p') ->
  for_players_opt body ps = Some ps' -> Forall2 same_ids ps ps'.
Proof.
  intros Hb. revert ps'. induction ps as [|p ps IH]; intros ps'; simpl.
  - intros [= <-]. constructor.
  - intros (p' & Hp & (ps'' & Hps & [= <-])%bind_Some)%bind_Some.
    constructor; [|auto]. destruct (valid p); [auto|].
    injection Hp as <-. apply same_ids_refl.
Qed.

Lemma same_ids_for_players_st {A} (body : A -> Player -> option (A * Player)) a ps a' ps' :
  (forall a p a' p', body a p = Some (a', p') -> same_ids p p') ->
  for_players_st body a ps = Some (a', ps') -> Forall2 same_ids ps ps'.
Proof.
  intros Hb. revert a ps'. induction ps as [|p ps IH]; intros a ps'; simpl.
  - intros [= <- <-]. constructor.
  - intros ([a1 p1] & Hp & ([a2 ps2] & Hps & [= <- <-])%bind_Some)%bind_Some.
    constructor; [|eauto]. destruct (valid p); [eauto|].
    injection Hp as <- <-. apply same_ids_refl.
Qed.

(** The roster is kept by an assignment to a player, by a loop over the
    valid players, by a broadcast and by an assignment to an attribute of
    the server other than the roster. *)
Lemma rk_upd s s' n f : keeps f -> roster_kept s s' -> roster_kept s (upd n f s').
Proof.
  intros Hf Hs. eapply roster_kept_trans; [exact Hs|].
  apply roster_kept_players. by apply same_ids_update_player.
Qed.

Lemma rk_for s s' f :
  keeps f -> roster_kept s s' ->
  roster_kept s (set_players (for_players f (players s')) s').
Proof.
  intros Hf Hs. eapply roster_kept_trans; [exact Hs|].
  apply roster_kept_players. by apply same_ids_for_players.
Qed.

Lemma rk_all_states s s' st : roster_kept s s' -> roster_kept s (set_all_states st s').
Proof. apply rk_for, keeps_set_state. Qed.

Lemma rk_broadcast s s' data info ps :
  broadcast data info (players s') = Some ps -> roster_kept s s' ->
  roster_kept s (set_players ps s').
Proof.
  intros Hb Hs. eapply roster_kept_trans; [exact Hs|].
  apply roster_kept_players. by eapply same_ids_broadcast.
Qed.

Lemma rk_game_state s s' x : roster_kept s s' -> roster_kept s (set_game_state x s').
Proof. done. Qed.
Lemma rk_card_set s s' x : roster_kept s s' -> roster_kept s (set_card_set x s').
Proof. done. Qed.
Lemma rk_srv_cards s s' x : roster_kept s s' -> roster_kept s (set_srv_cards x s').
Proof. done. Qed.
Lemma rk_current_player s s' x : roster_kept s s' -> roster_kept s (set_current_player x s').
Proof. done. Qed.

#[local] Hint Resolve roster_kept_refl rk_upd rk_for rk_all_states rk_broadcast
  rk_game_state rk_card_set rk_srv_cards rk_current_player
  keeps_valid keeps_number keeps_compose keeps_id keeps_set_state keeps_set_conn
  keeps_set_valid keeps_set_name keeps_set_score keeps_set_get_broadcast
  keeps_set_cards keeps_set_current_card keeps_set_selected_card keeps_set_buffer
  keeps_set_has_buffer keeps_set_has_turn keeps_send_message : roster.

Lemma handle_message_keeps n s s' : handle_message n s = Some s' -> roster_kept s s'.
Proof.
  unfold handle_message. intros Hm.
  apply bind_Some in Hm as (self & _ & Hm).
  apply bind_Some in Hm as (c & _ & Hm).
  destruct (conn_get c) as [line c'].
  assert (roster_kept s (upd n (set_conn (Some c')) s)) as H0 by auto with roster.
  assert (roster_kept s (upd n (set_valid false) (upd n (set_conn (Some c')) s))) as H1
    by auto with roster.
  destruct (state self); try (by injection Hm as <-);
    repeat (match type of Hm with
            | (if ?b then _ else _) = _ => destruct b
            | _ ≫= _ = Some _ => apply bind_Some in Hm as (? & ? & Hm)
            end);
    try (by injection Hm as <-); injection Hm as <-.
  - eapply rk_upd; [auto with roster|]. eapply rk_broadcast; [eassumption|].
    eapply (rk_upd _ _ _ (fun p => set_get_broadcast true (set_name _ p)));
      [|done].
    apply (keeps_compose (set_get_broadcast true) (set_name _)); auto with roster.
  - auto with roster.
  - auto with roster.
  - auto with roster.
  - eapply rk_broadcast; [eassumption|]. apply rk_all_states.
    eapply (rk_upd _ _ _ (fun p => set_selected_card _ (set_current_card _ p)));
      [|done].
    apply (keeps_compose (set_selected_card _) (set_current_card _)); auto with roster.
  - eapply rk_upd; [auto with roster|]. eapply rk_broadcast; [eassumption|].
    auto with roster.
  - eapply (rk_upd _ _ _ (fun p => set_state _ (set_selected_card _ p))); [|done].
    apply (keeps_compose (set_state _) (set_selected_card _)); auto with roster.
  - auto with roster.
Qed.

Lemma handle_state_keeps n s s' : handle_state n s = Some s' -> roster_kept s s'.
Proof.
  unfold handle_state. intros (s1 & Hb & [= <-])%bind_Some.
  assert (roster_kept s (on_ver_check n s)) as H1.
  { unfold on_ver_check. case_match; [|apply roster_kept_refl].
    apply rk_upd; [|apply roster_kept_refl].
    intros p; unfold same_ids; simpl; auto. }
  assert (forall a, roster_kept s a -> roster_kept s (on_start_wait n a)) as H2.
  { intros a Ha. unfold on_start_wait. case_match; auto with roster. }
  assert (forall a, roster_kept s a -> roster_kept s (on_ver_wait n a)) as H3.
  { intros a Ha. unfold on_ver_wait. case_match; auto with roster. }
  assert (roster_kept s s1) as H4.
  { unfold on_wait_self_card in Hb. case_match.
    - apply bind_Some in Hb as (ps & Hb & [= <-]).
      eapply rk_broadcast; [eassumption|]. auto with roster.
    - injection Hb as <-. auto. }
  unfold on_wait_vote. case_match; auto with roster.
Qed.

Lemma foldM_keeps {B} (step : Server -> B -> option Server) l s s' :
  (forall a x a', step a x = Some a' -> roster_kept a a') ->
  foldM step s l = Some s' -> roster_kept s s'.
Proof.
  intros Hstep. revert s. induction l as [|x l IH]; intros s; simpl.
  - intros [= <-]. apply roster_kept_refl.
  - intros (a & Ha & Hl)%bind_Some. eapply roster_kept_trans; eauto.
Qed.

Lemma handle_states_keeps s s' : handle_states s = Some s' -> roster_kept s s'.
Proof.
  unfold handle_states. apply foldM_keeps. intros a n a' Ha.
  destruct (self_is n valid id a); [by eapply handle_state_keeps|].
  injection Ha as <-. apply roster_kept_refl.
Qed.

Lemma flush_keeps flow s s' : flush flow s = Some s' -> roster_kept s s'.
Proof.
  unfold flush. intros Hf.
  apply bind_Some in Hf as (n & _ & Hf).
  apply bind_Some in Hf as (player & _ & Hf).
  apply bind_Some in Hf as (c & _ & Hf).
  destruct (buffer player); [done|]. injection Hf as <-.
  apply rk_upd; [|apply roster_kept_refl].
  intros p; unfold same_ids; simpl; auto.
Qed.

Lemma handle_input_keeps flow s s' : handle_input flow s = Some s' -> roster_kept s s'.
Proof.
  unfold handle_input. intros (n & _ & Hm)%bind_Some. by eapply handle_message_keeps.
Qed.

Lemma comm_keeps cmdline s :
  roster_kept s (comm_start cmdline s) /\ roster_kept s (comm_end s) /\
  roster_kept s (comm_stop s).
Proof.
  unfold comm_start, comm_end, comm_stop. split; [|split].
  - repeat case_match; auto with roster.
  - case_match; [|apply roster_kept_refl].
    apply rk_srv_cards, rk_for; [|apply roster_kept_refl].
    apply (keeps_set_cards (fun _ => [])).
  - auto with roster.
Qed.

Lemma begin_game_keeps shuffle s s' : begin_game shuffle s = Some s' -> roster_kept s s'.
Proof.
  unfold begin_game. intros ([deck ps] & Hd & [= <-])%bind_Some.
  apply rk_srv_cards, roster_kept_players.
  eapply same_ids_for_players_st; [|exact Hd].
  intros a p a' p' [= <- <-]. apply (keeps_set_cards (fun _ => slice_to a 6)).
Qed.

Lemma calculate_result_keeps s s' : calculate_result s = Some s' -> roster_kept s s'.
Proof.
  unfold calculate_result. intros Hc.
  apply bind_Some in Hc as (cp & _ & Hc).
  apply bind_Some in Hc as (cur & _ & Hc).
  apply bind_Some in Hc as (result & _ & Hc).
  apply bind_Some in Hc as (correct & _ & Hc).
  assert (keeps (fun p => set_score (score p + 3)%Z p)) as K3
    by apply (keeps_set_score (fun p => (score p + 3)%Z)).
  destruct (bool_decide (correct = _)).
  - injection Hc as <-. apply rk_for; [|apply roster_kept_refl].
    intros p. destruct (is_not p cp); [apply K3|apply same_ids_refl].
  - apply bind_Some in Hc as (ps & Hps & [= <-]).
    match type of Hps with
    | for_players_opt _ (players ?s1) = _ => assert (roster_kept s s1) as H1
    end.
    { destruct (negb _); [|apply roster_kept_refl].
      apply rk_upd; [done|]. apply rk_for; [|apply roster_kept_refl].
      intros p. destruct (is_not p cp); [|apply same_ids_refl].
      destruct (bool_decide _); [apply K3|apply same_ids_refl]. }
    eapply roster_kept_trans; [exact H1|]. apply roster_kept_players.
    eapply same_ids_for_players_opt; [|exact Hps].
    intros p p' (r & _ & [= <-])%bind_Some.
    apply (keeps_set_score (fun p => (score p + r)%Z)).
Qed.

Lemma on_sync_next_turn_keeps s s' : on_sync_next_turn s = Some s' -> roster_kept s s'.
Proof.
  unfold on_sync_next_turn. intros (s1 & H1 & Hf)%bind_Some.
  assert (roster_kept s s1) as Hs1.
  { match type of H1 with
    | (if _ then _ else Some ?s0) = _ => assert (roster_kept s s0) as H0
    end.
    { apply rk_for; [|apply roster_kept_refl].
      apply (keeps_set_cards (fun p => remove_played (current_card p) (cards p))). }
    destruct (_ <=? _).
    - apply bind_Some in H1 as ([deck ps] & Hd & [= <-]).
      apply rk_srv_cards. eapply roster_kept_trans; [exact H0|].
      apply roster_kept_players. eapply same_ids_for_players_st; [|exact Hd].
      intros a p a' p'. unfold deal_one. destruct a; [done|]. intros [= <- <-].
      apply (keeps_set_cards (fun p => cards p ++ [z])).
    - by injection H1 as <-. }
  unfold finish_turn in Hf. apply bind_Some in Hf as (first & _ & Hf).
  destruct (0 <? _).
  - injection Hf as <-. apply rk_for; [|done].
    apply (keeps_compose (set_state TURN_SYNC)
             (fun p => send_message ("CARDS " +:+ py_join "," (map str_Z (cards p))) p));
      auto with roster.
  - apply bind_Some in Hf as (ps & Hb & [= <-]).
    eapply roster_kept_trans; [exact Hs1|]. apply roster_kept_players.
    eapply same_ids_list_trans; [by eapply same_ids_broadcast|].
    apply same_ids_for_players, keeps_set_valid.
Qed.

Lemma global_operations_keeps shuffle rnd s s' :
  global_operations shuffle rnd s = Some s' -> roster_kept s s'.
Proof.
  unfold global_operations. intros (s1 & Hr & Hg)%bind_Some.
  assert (roster_kept s s1) as H1.
  { unfold recover in Hr.
    destruct (current_player s); [|injection Hr as <-; apply roster_kept_refl].
    apply bind_Some in Hr as (ok & _ & [= <-]). destruct ok; auto with roster. }
  eapply roster_kept_trans; [exact H1|]. clear Hr H1 s. rename s1 into s.
  destruct (get_sync_state s) as [[]|]; try (injection Hg as <-; apply roster_kept_refl).
  - unfold on_begin_sync in Hg.
    destruct (0 <? _); [|injection Hg as <-; auto with roster].
    apply bind_Some in Hg as (s1 & Hb & Hg).
    apply bind_Some in Hg as (r & _ & Hg).
    apply bind_Some in Hg as (start & _ & Hg).
    apply bind_Some in Hg as (cp & _ & [= <-]).
    apply rk_current_player, rk_for; [|by eapply begin_game_keeps].
    intros p. unfold same_ids. simpl. auto.
  - unfold on_turn_sync in Hg.
    apply bind_Some in Hg as (cp & _ & Hg).
    apply bind_Some in Hg as (n & _ & Hg).
    apply bind_Some in Hg as (ps & Hb & [= <-]).
    eapply rk_broadcast; [exact Hb|].
    apply (rk_for s (set_current_player cp s)); [|auto with roster].
    apply (keeps_compose (set_state WAIT_ASSOC) (fun p => set_has_turn (same_ref p cp) p));
      auto with roster.
  - unfold on_self_sync in Hg. apply bind_Some in Hg as (ps & Hb & [= <-]).
    apply rk_all_states. eapply rk_broadcast; [exact Hb|apply roster_kept_refl].
  - unfold on_vote_sync in Hg.
    apply bind_Some in Hg as (s1 & Hc & Hg).
    apply bind_Some in Hg as (cp & _ & Hg).
    apply bind_Some in Hg as (cur & _ & Hg).
    apply bind_Some in Hg as (ps & Hb & [= <-]).
    apply rk_all_states. eapply rk_broadcast; [exact Hb|].
    by apply calculate_result_keeps.
  - by apply on_sync_next_turn_keeps.
Qed.

(** *** The sweep *)

Lemma first_dead_found k ps i :
  first_dead k ps = Some (Some i) ->
  k <= i /\ exists p, ps !! (i - k) = Some p /\ verify p = Some false /\
  Forall (fun q => verify q = Some true) (take (i - k) ps).
Proof.
  revert k. induction ps as [|p ps IH]; intros k; simpl; [done|].
  destruct (verify p) as [[]|] eqn:Hv; simpl; [| |done].
  - intros Hf. destruct (IH _ Hf) as (Hle & q & Hq & Hvq & Hall).
    split; [lia|]. exists q.
    replace (i - k) with (S (i - S k)) by lia. simpl. eauto.
  - intros [= <-]. split; [lia|]. exists p. rewrite Nat.sub_diag. simpl. eauto.
Qed.

Lemma first_dead_none k ps :
  Forall (fun q => verify q = Some true) ps -> first_dead k ps = Some None.
Proof.
  intros Hall. revert k. induction Hall as [|p ps Hp _ IH]; intros k; simpl; [done|].
  rewrite Hp. simpl. apply IH.
Qed.

Lemma verify_send_message data p : verify (send_message data p) = verify p.
Proof. done. Qed.

Lemma broadcast_verify data info ps ps' :
  broadcast data info ps = Some ps' -> map verify ps' = map verify ps.
Proof.
  unfold broadcast. intros Hb. apply bind_Some in Hb as (d & _ & [= <-]).
  unfold for_players. rewrite <- list_fmap_compose. apply list_fmap_ext.
  intros _ p _. simpl. by destruct (valid p), (get_broadcast p).
Qed.

Lemma dead_alive p : dead p = false <-> verify p = Some true.
Proof. unfold dead. destruct (verify p) as [[]|]; naive_solver. Qed.

Lemma one_dead_others_alive ps i p :
  length (List.filter dead ps) <= 1 -> ps !! i = Some p -> verify p = Some false ->
  Forall (fun q => verify q = Some true) (delete i ps).
Proof.
  intros Hlen Hi Hv.
  rewrite <- (take_drop_middle ps i p Hi) in Hlen.
  rewrite List.filter_app in Hlen. simpl in Hlen.
  assert (dead p = true) as Hd by (unfold dead; by rewrite Hv).
  rewrite Hd, length_app in Hlen. simpl in Hlen.
  rewrite delete_take_drop. apply Forall_app.
  split; apply Forall_forall; intros q Hq; apply dead_alive;
    destruct (dead q) eqn:Hdq; try done; exfalso.
  - assert (q ∈ List.filter dead (take i ps)) as Hin
      by (apply list_elem_of_In, filter_In; split; [by apply list_elem_of_In|done]).
    destruct (List.filter dead (take i ps)); [by apply not_elem_of_nil in Hin|].
    simpl in Hlen. lia.
  - assert (q ∈ List.filter dead (drop (S i) ps)) as Hin
      by (apply list_elem_of_In, filter_In; split; [by apply list_elem_of_In|done]).
    destruct (List.filter dead (drop (S i) ps)); [by apply not_elem_of_nil in Hin|].
    simpl in Hlen. lia.
Qed.

Lemma Forall_verify_map ps ps' :
  map verify ps' = map verify ps ->
  Forall (fun q => verify q = Some true) ps ->
  Forall (fun q => verify q = Some true) ps'.
Proof.
  intros Hm Hall.
  assert (Forall (fun o => o = Some true) (map verify ps)) as Ho
    by (by apply Forall_fmap).
  rewrite <- Hm in Ho. by apply Forall_fmap in Ho.
Qed.

Lemma dead_verify p q : verify p = verify q -> dead p = dead q.
Proof. unfold dead. by intros ->. Qed.

Lemma dead_count_ext (l l' : list Player) :
  map verify l = map verify l' ->
  length (List.filter dead l) = length (List.filter dead l').
Proof.
  revert l'. induction l as [|x l IH]; intros [|y l']; simpl; try done.
  intros [= Hx Hl]. rewrite (dead_verify _ _ Hx).
  destruct (dead y); simpl; auto.
Qed.

(** What a successful sweep that finds a dead player does. *)
Lemma check_removes s s1 i :
  first_dead 0 (players s) = Some (Some i) -> check s = Some s1 ->
  exists p ps1,
    players s !! i = Some p /\ verify p = Some false /\
    players s1 = ps1 /\ map verify ps1 = map verify (delete i (players s)) /\
    map number ps1 = map number (delete i (players s)) /\
    sockets s1 = delete (player_socket p) (sockets s) /\
    game_state s1 =
      (if bool_decide (status p = MASTER) && bool_decide (game_state s = PLAYER_CONN)
       then ERROR else game_state s) /\
    Forall2 same_ids (delete i (players s)) ps1 /\
    have_master s1 = have_master s /\ seq_number s1 = seq_number s /\
    exists flushed, push_buffer p = Some flushed /\ gone s1 = gone s ++ [stop flushed].
Proof.
  intros Hf Hc. unfold check in Hc. rewrite Hf in Hc. simpl in Hc.
  destruct (first_dead_found _ _ _ Hf) as (_ & p & Hp & Hv & _).
  rewrite Nat.sub_0_r in Hp. rewrite Hp in Hc. simpl in Hc.
  destruct (push_buffer p) as [flushed|] eqn:Hpb; simpl in Hc; [|done].
  destruct (sockets s !! player_socket p); simpl in Hc; [|done].
  exists p. destruct (bool_decide (status p = MASTER) && bool_decide (game_state s = PLAYER_CONN)) eqn:Hm;
    simpl in Hc.
  - injection Hc as <-. eexists. simpl.
    repeat split; eauto using same_ids_list_refl.
  - case_bool_decide as Hg.
    + injection Hc as <-. eexists. simpl. repeat split; eauto.
      * unfold for_players. rewrite <- list_fmap_compose. apply list_fmap_ext.
        intros _ q _. simpl. by destruct (valid q), (get_broadcast q).
      * unfold for_players. rewrite <- list_fmap_compose. apply list_fmap_ext.
        intros _ q _. simpl. by destruct (valid q), (get_broadcast q).
      * apply same_ids_for_players. intros q. destruct (get_broadcast q).
        -- apply (keeps_send_message (fun _ => _)).
        -- apply same_ids_refl.
    + injection Hc as <-. eexists. simpl.
      repeat split; eauto using same_ids_list_refl.
Qed.

Lemma first_dead_total k ps :
  Forall (fun p => is_Some (conn p)) ps -> is_Some (first_dead k ps).
Proof.
  intros Hall. revert k. induction Hall as [|p ps [c Hc] _ IH]; intros k; simpl; [done|].
  unfold verify. rewrite Hc. destruct (valid p); simpl; [|done].
  destruct (conn_status c); [apply IH|done].
Qed.

Lemma check_total s : wf s -> is_Some (check s).
Proof.
  intros [_ _ Hps _]. unfold check.
  destruct (first_dead_total 0 (players s)) as [[i|] Hd].
  { eapply Forall_impl; [exact Hps|]. by intros q (_ & Hq & _). }
  2:{ by rewrite Hd. }
  rewrite Hd. simpl.
  destruct (first_dead_found _ _ _ Hd) as (_ & p & Hp & _).
  rewrite Nat.sub_0_r in Hp. rewrite Hp. simpl.
  assert (p ∈ players s) as Hin by (by eapply list_elem_of_lookup_2).
  rewrite Forall_forall in Hps. destruct (Hps p Hin) as (_ & [c Hc] & Hs & _).
  assert (is_Some (push_buffer p)) as [p' ->].
  { unfold push_buffer. rewrite Hc. by destruct (buffer p). }
  simpl. rewrite Hs. simpl.
  destruct (bool_decide (status p = MASTER) && bool_decide (game_state s = PLAYER_CONN));
    simpl; [done|].
  case_bool_decide; done.
Qed.

(** C8, as amended.  When at most one player of the roster fails to verify,
    a second sweep right after a first one changes nothing: no removal, no
    broadcast, the same roster, lookup, phase and queued output.  And the
    sweep of a well-formed roster does return. *)
Theorem check_twice (s : Server) :
  length (List.filter dead (players s)) <= 1 ->
  (forall s1, check s = Some s1 -> check s1 = Some s1) /\
  (wf s -> is_Some (check s)).
Proof.
  intros Hone. split; [|apply check_total].
  intros s1 Hc. destruct (first_dead 0 (players s)) as [[i|]|] eqn:Hd.
  - destruct (check_removes _ _ _ Hd Hc) as (p & ps1 & Hp & Hv & <- & Hm & _).
    unfold check. rewrite first_dead_none; [done|].
    eapply Forall_verify_map; [exact Hm|].
    by eapply one_dead_others_alive.
  - unfold check in Hc. rewrite Hd in Hc. injection Hc as <-.
    unfold check. by rewrite Hd.
  - unfold check in Hc. by rewrite Hd in Hc.
Qed.

(** C9.  When the sweep removes a [MASTER], which is the first player of
    the roster that fails to verify, the phase becomes [ERROR] if it was
    [PLAYER_CONN] and is unchanged otherwise. *)
Theorem check_master_phase (s s1 : Server) (i : nat) (p : Player) :
  check s = Some s1 ->
  first_dead 0 (players s) = Some (Some i) ->
  players s !! i = Some p ->
  status p = MASTER ->
  map number (players s1) = map number (delete i (players s)) /\
  (game_state s = PLAYER_CONN -> game_state s1 = ERROR) /\
  (game_state s <> PLAYER_CONN -> game_state s1 = game_state s).
Proof.
  intros Hc Hd Hp Hm.
  destruct (check_removes _ _ _ Hd Hc) as (p' & ps1 & Hp' & _ & <- & _ & Hn & _ & Hg & _).
  assert (p' = p) as -> by congruence.
  split; [done|]. rewrite Hg, (bool_decide_eq_true_2 _ Hm). simpl.
  split; intros Hph.
  - by rewrite bool_decide_eq_true_2.
  - by rewrite bool_decide_eq_false_2.
Qed.

Lemma first_dead_none_inv k ps :
  first_dead k ps = Some None -> Forall (fun q => verify q = Some true) ps.
Proof.
  revert k. induction ps as [|p ps IH]; intros k; simpl; [constructor|].
  destruct (verify p) as [[]|] eqn:Hv; simpl; [|done|done].
  intros Hf. constructor; [done|]. by eapply IH.
Qed.

Lemma push_buffer_sends p flushed :
  push_buffer p = Some flushed ->
  (buffer p <> [] -> is_Some (conn p)) /\
  flushed
  = set_has_buffer false
      (set_buffer []
         (set_conn ((fun c => foldl (fun c m => conn_send m c) c (buffer p)) <$> conn p)
            p)).
Proof.
  unfold push_buffer. destruct (buffer p) as [|m l] eqn:Hb.
  - intros [= <-]. split; [done|].
    destruct p as [? ? ? [c|] ? ? ? ? ? ? ? ? ? ? ?]; simpl in *; by subst.
  - destruct (conn p) as [c|] eqn:Hc; simpl; [|done].
    intros [= <-]. split; [by eauto|]. reflexivity.
Qed.

Lemma check_detaches s s1 i p :
  first_dead 0 (players s) = Some (Some i) -> check s = Some s1 ->
  players s !! i = Some p -> is_Some (sockets s !! player_socket p).
Proof.
  intros Hd Hc Hp. unfold check in Hc. rewrite Hd in Hc. simpl in Hc.
  rewrite Hp in Hc. simpl in Hc.
  destruct (push_buffer p); simpl in Hc; [|done].
  by destruct (sockets s !! player_socket p).
Qed.

(** C10.  One sweep removes at most one player.  Either every player
    verifies and nothing changes, or the first player in join order that
    fails to verify, [p] at index [i], is processed and the loop stops.
    Its queued messages are sent on its connection, in the order in which
    they were queued, and its queue is emptied (a player with queued output
    has a connection, or the sweep raises).  It is stopped, that is
    invalidated and left without connection, and put aside.  Its socket,
    which was in the lookup, leaves it.  The roster is the old one without
    index [i]: one player fewer, the others in the same order, each
    verifying or not as before, so the other invalid players are still
    there. *)
Theorem check_removes_one (s s1 : Server) :
  check s = Some s1 ->
  (first_dead 0 (players s) = Some None /\
   Forall (fun q => verify q = Some true) (players s) /\ s1 = s) \/
  (exists i p flushed,
     first_dead 0 (players s) = Some (Some i) /\
     players s !! i = Some p /\
     Forall (fun q => verify q = Some true) (take i (players s)) /\
     verify p = Some false /\
     push_buffer p = Some flushed /\
     (buffer p <> [] -> is_Some (conn p)) /\
     flushed
     = set_has_buffer false
         (set_buffer []
            (set_conn
               ((fun c => foldl (fun c m => conn_send m c) c (buffer p)) <$> conn p)
               p)) /\
     gone s1 = gone s ++ [set_conn None (set_valid false flushed)] /\
     is_Some (sockets s !! player_socket p) /\
     sockets s1 = delete (player_socket p) (sockets s) /\
     length (players s1) + 1 = length (players s) /\
     map number (players s1) = map number (delete i (players s)) /\
     map verify (players s1) = map verify (delete i (players s)) /\
     length (List.filter dead (players s1)) + 1
     = length (List.filter dead (players s))).
Proof.
  intros Hc. destruct (first_dead 0 (players s)) as [[i|]|] eqn:Hd.
  - right.
    destruct (check_removes _ _ _ Hd Hc)
      as (p & ps1 & Hp & Hv & <- & Hm & Hn & Esock & _ & _ & _ & _ & flushed & Hf & Hg).
    destruct (first_dead_found _ _ _ Hd) as (_ & p' & Hp' & _ & Hall).
    rewrite Nat.sub_0_r in Hp', Hall.
    destruct (push_buffer_sends _ _ Hf) as [Hconn Hfl].
    pose proof (check_detaches _ _ _ _ Hd Hc Hp) as Hsock.
    exists i, p, flushed.
    split; [done|]. split; [done|]. split; [done|]. split; [done|].
    split; [done|]. split; [done|]. split; [done|]. split; [exact Hg|].
    split; [done|]. split; [done|]. split; [|split; [done|split; [done|]]].
    + rewrite <- (length_map number), Hn, length_map, length_delete by eauto.
      apply lookup_lt_Some in Hp. lia.
    + rewrite (dead_count_ext _ _ Hm), delete_take_drop.
      rewrite <- (take_drop_middle _ _ _ Hp) at 3.
      rewrite !List.filter_app, !length_app. simpl.
      assert (dead p = true) as -> by (unfold dead; by rewrite Hv).
      simpl. lia.
  - left. unfold check in Hc. rewrite Hd in Hc. injection Hc as <-.
    split; [done|]. split; [|done]. by eapply first_dead_none_inv.
  - unfold check in Hc. by rewrite Hd in Hc.
Qed.

(** C6.  Admission.  While connecting and with fewer than seven valid
    players, an accepted connection is added to the roster; in every other
    case the socket is shut down and closed and nothing else changes, so an
    eighth connection while seven players are seated leaves the roster as
    it is. *)
Theorem accept_connection_admission (sock : Sock) (s : Server) :
  (game_state s = PLAYER_CONN -> len_players (players s) < 7 ->
   accept_connection sock s = add_player sock s /\
   players (accept_connection sock s)
   = players s ++ [new_player sock (if have_master s then PLAYER else MASTER) (seq_number s)] /\
   sockets (accept_connection sock s) !! sock = Some (seq_number s) /\
   closed (accept_connection sock s) = closed s) /\
  (~ (game_state s = PLAYER_CONN /\ len_players (players s) < 7) ->
   accept_connection sock s = set_closed (closed s ++ [sock]) s) /\
  (game_state s = PLAYER_CONN -> len_players (players s) = 7 ->
   players (accept_connection sock s) = players s /\
   sockets (accept_connection sock s) = sockets s /\
   closed (accept_connection sock s) = closed s ++ [sock]).
Proof.
  unfold accept_connection. split; [|split].
  - intros Hp Hl. rewrite bool_decide_eq_true_2 by done.
    apply Nat.ltb_lt in Hl. rewrite Hl. split; [done|].
    split; [done|]. split; [|done]. simpl. apply lookup_insert_eq.
  - intros Hn. case_bool_decide as Hp; [|done].
    destruct (len_players (players s) <? 7) eqn:Hl; [|done].
    apply Nat.ltb_lt in Hl. tauto.
  - intros Hp Hl. rewrite bool_decide_eq_true_2 by done.
    rewrite Hl. done.
Qed.

Lemma malformed_clue_test res :
  malformed_clue res ->
  (length res <? 3) || negb (String.eqb (tok 0 res) "TURN")
  || negb (py_isnumeric (tok 1 res)) = true.
Proof.
  intros [Hl|[Hk|Hn]].
  - apply Nat.ltb_lt in Hl. by rewrite Hl.
  - apply String.eqb_neq in Hk. rewrite Hk. simpl. by rewrite orb_true_r.
  - rewrite Hn. simpl. by rewrite orb_true_r.
Qed.

Lemma malformed_clue_handled (s : Server) (n : nat) (self : Player)
    (c c' : connection) (line : string) :
  find_player n (players s) = Some self ->
  conn self = Some c ->
  conn_get c = (line, c') ->
  state self = WAIT_ASSOC ->
  has_turn self = true ->
  malformed_clue (py_split line) ->
  exists s',
    handle_message n s = Some s' /\
    players s' =
      map (fun p =>
             if number p =? n then set_valid false (set_conn (Some c') p)
             else if valid p then set_state TURN_SYNC p else p)
          (players s) /\
    set_players [] s' = set_players [] s /\
    game_state s' = game_state s /\
    Forall (fun p => number p = n -> valid p = false) (players s') /\
    Forall (fun p => state p = TURN_SYNC) (valid_players (players s')).
Proof.
  intros Hf Hc Hg Hst Ht Hm. unfold handle_message.
  rewrite Hf. simpl. rewrite Hc. simpl. rewrite Hg, Hst, Ht. simpl.
  rewrite (malformed_clue_test _ Hm).
  eexists. split; [reflexivity|].
  assert (players
            (set_all_states TURN_SYNC
               (upd n (set_valid false) (upd n (set_conn (Some c')) s)))
          = map (fun p =>
                   if number p =? n then set_valid false (set_conn (Some c') p)
                   else if valid p then set_state TURN_SYNC p else p)
                (players s)) as Hps.
  { simpl. unfold for_players, update_player.
    rewrite <- !list_fmap_compose. apply list_fmap_ext.
    intros _ p _. simpl. destruct (number p =? n) eqn:E; simpl; rewrite ?E; simpl;
      rewrite ?E; [done|].
    by destruct (valid p). }
  split; [exact Hps|]. split; [done|]. split; [done|].
  rewrite Hps. split.
  - apply Forall_fmap, Forall_forall. intros p _. simpl.
    destruct (number p =? n) eqn:E; simpl; [done|].
    apply Nat.eqb_neq in E. by destruct (valid p).
  - apply Forall_forall. intros p Hp.
    apply list_elem_of_In, filter_In in Hp as [Hp Hv].
    apply list_elem_of_In, list_elem_of_fmap in Hp as (q & -> & _).
    destruct (number q =? n); simpl in *; [done|].
    destruct (valid q) eqn:Hq; simpl in *; [done|]. congruence.
Qed.

(** X27.  A clue that fails the test of the [WAIT_ASSOC] branch (fewer than
    three tokens, a first token other than [TURN], or a second token that
    [str.isnumeric] rejects): the storyteller that sent it is invalidated
    (and keeps its state), every other valid player is set to [TURN_SYNC],
    and nothing else changes, the session phase in particular. *)
Theorem malformed_clue_rewinds (s : Server) (n : nat) (self : Player)
    (c c' : connection) (line : string) :
  find_player n (players s) = Some self ->
  conn self = Some c ->
  conn_get c = (line, c') ->
  state self = WAIT_ASSOC ->
  has_turn self = true ->
  malformed_clue (py_split line) ->
  exists s',
    handle_message n s = Some s' /\
    players s' =
      map (fun p =>
             if number p =? n then set_valid false (set_conn (Some c') p)
             else if valid p then set_state TURN_SYNC p else p)
          (players s) /\
    set_players [] s' = set_players [] s /\
    game_state s' = game_state s /\
    Forall (fun p => number p = n -> valid p = false) (players s') /\
    Forall (fun p => state p = TURN_SYNC) (valid_players (players s')).
Proof. apply malformed_clue_handled. Qed.

#[local] Arguments slice_from : simpl never.
#[local] Arguments slice_to : simpl never.
#[local] Arguments Nat.mul : simpl never.

(** *** The deck *)

Lemma slice_to_take {A} (l : list A) (stop : Z) :
  (0 <= stop)%Z -> slice_to l stop = take (Z.to_nat stop) l.
Proof.
  intros Hs. unfold slice_to.
  destruct (Z.ltb_spec stop 0) as [?|_]; [lia|].
  destruct (Z.le_ge_cases stop (Z.of_nat (length l))).
  - by rewrite Z.min_l.
  - rewrite Z.min_r, Nat2Z.id by done. rewrite !take_ge; [done|lia|lia].
Qed.

Lemma length_py_range (c : Z) : length (py_range c) = Z.to_nat c.
Proof. unfold py_range. by rewrite length_map, length_seq. Qed.

Lemma NoDup_py_range (c : Z) : NoDup (py_range c).
Proof.
  unfold py_range. apply NoDup_fmap_2; [|apply NoDup_seq].
  intros x y. lia.
Qed.

Lemma reduce_deck_length (n : nat) (deck : list Z) :
  (deck_offset n <= Z.of_nat (length deck))%Z ->
  Z.of_nat (length (reduce_deck n deck)) = (Z.of_nat (length deck) - deck_offset n)%Z.
Proof.
  intros Hle. unfold reduce_deck.
  destruct n as [|[|[|[|[|[|[|n]]]]]]]; simpl in *; try lia;
    rewrite slice_to_take, length_take by lia; lia.
Qed.

Lemma reduce_deck_sublist (n : nat) (deck : list Z) : sublist (reduce_deck n deck) deck.
Proof.
  unfold reduce_deck, slice_to.
  repeat case_match; try done; apply sublist_take.
Qed.

(** C3, as amended.  For a card set with at least as many cards as the
    offset of the roster size (2 for four valid players, 23 for five, 26
    for six, 0 otherwise), the usable deck has the card count minus that
    offset; for a set of 50 cards that is 48, 27, 24 and 50 cards for four,
    five, six and any other number of players. *)
Theorem usable_deck_size (shuffle : forall A : Type, list A -> list A) (s : Server) :
  (forall A (l : list A), Permutation (shuffle A l) l) ->
  (deck_offset (len_players (players s)) <= card_num s)%Z ->
  Z.of_nat (length (usable_deck shuffle s))
  = (card_num s - deck_offset (len_players (players s)))%Z /\
  (card_num s = 50%Z ->
   length (usable_deck shuffle s)
   = match len_players (players s) with 4 => 48 | 5 => 27 | 6 => 24 | _ => 50 end).
Proof.
  intros Hperm Hle.
  assert (0 <= deck_offset (len_players (players s)))%Z as H0
    by (unfold deck_offset; repeat case_match; lia).
  assert (Z.of_nat (length (shuffle Z (py_range (card_num s)))) = card_num s) as Hlen.
  { rewrite (Permutation_length (Hperm _ _)), length_py_range. lia. }
  assert (Z.of_nat (length (usable_deck shuffle s))
          = (card_num s - deck_offset (len_players (players s)))%Z) as Hsize.
  { unfold usable_deck. rewrite reduce_deck_length; lia. }
  split; [exact Hsize|].
  intros H50. rewrite H50 in Hsize. unfold deck_offset in Hsize.
  repeat case_match; lia.
Qed.

(** *** Dealing *)

Lemma hands_shift (deck : list Z) (n : nat) :
  map (hand_at (drop 6 deck)) (seq 0 n) = map (hand_at deck) (seq 1 n).
Proof.
  rewrite <- (fmap_S_seq 0), <- list_fmap_compose.
  apply list_fmap_ext. intros _ k _. unfold hand_at. simpl.
  rewrite drop_drop. do 2 f_equal. lia.
Qed.

Lemma for_players_st_cons {A} (body : A -> Player -> option (A * Player)) a p ps :
  for_players_st body a (p :: ps)
  = '(a', p') ← (if valid p then body a p else Some (a, p));
    '(a'', ps'') ← for_players_st body a' ps;
    Some (a'', p' :: ps'').
Proof. done. Qed.

Lemma deal_loop (ps : list Player) (deck : list Z) :
  exists ps',
    for_players_st deal_six deck ps = Some (drop (6 * len_players ps) deck, ps') /\
    map cards (valid_players ps') = map (hand_at deck) (seq 0 (len_players ps)) /\
    map (set_cards []) ps' = map (set_cards []) ps /\
    concat (map cards (valid_players ps')) ++ drop (6 * len_players ps) deck = deck.
Proof.
  revert deck. induction ps as [|p ps IH]; intros deck.
  - exists []. simpl. by rewrite drop_0.
  - rewrite for_players_st_cons. unfold len_players in *. simpl.
    destruct (valid p) eqn:Hv; simpl.
    + destruct (IH (slice_from deck 6)) as (ps' & -> & Hh & Hf & Hc). simpl.
      exists (set_cards (slice_to deck 6) p :: ps'). simpl. rewrite Hv. simpl.
      unfold slice_from in *. rewrite drop_drop in *.
      replace (6 * S (length (valid_players ps)))
        with (6 + 6 * length (valid_players ps)) by lia.
      split; [done|]. rewrite slice_to_take by lia. split; [|split].
      * rewrite Hh, hands_shift. unfold hand_at at 2. simpl. by rewrite drop_0.
      * by rewrite Hf.
      * rewrite <- app_assoc, Hc. apply take_drop.
    + destruct (IH deck) as (ps' & -> & Hh & Hf & Hc). simpl.
      exists (p :: ps'). simpl. rewrite Hv. by rewrite Hf.
Qed.

(** C2, as amended.  At deal time [begin_game] returns; the valid players
    receive, in join order, the hands [hand_at deck 0], [hand_at deck 1],
    ... of the usable deck, that is six cards each from its front, or what
    is left of it; the server keeps the rest; nothing else changes; no card
    occurs twice in the hands and the remaining deck; and every valid
    player holds exactly six cards whenever the usable deck has six cards
    for each of them. *)
Theorem begin_game_deal (shuffle : forall A : Type, list A -> list A) (s : Server) :
  (forall A (l : list A), Permutation (shuffle A l) l) ->
  exists s',
    begin_game shuffle s = Some s' /\
    map cards (valid_players (players s'))
    = map (hand_at (usable_deck shuffle s)) (seq 0 (len_players (players s))) /\
    srv_cards s' = drop (6 * len_players (players s)) (usable_deck shuffle s) /\
    map (set_cards []) (players s') = map (set_cards []) (players s) /\
    set_srv_cards [] (set_players [] s') = set_srv_cards [] (set_players [] s) /\
    NoDup (concat (map cards (valid_players (players s'))) ++ srv_cards s') /\
    (6 * len_players (players s) <= length (usable_deck shuffle s) ->
     Forall (fun p => length (cards p) = 6) (valid_players (players s'))).
Proof.
  intros Hperm. unfold begin_game.
  destruct (deal_loop (players s) (usable_deck shuffle s)) as (ps' & -> & Hh & Hf & Hc).
  simpl. eexists. split; [reflexivity|]. simpl.
  split; [done|]. split; [done|]. split; [done|]. split; [done|]. split.
  - rewrite Hc. unfold usable_deck.
    eapply sublist_NoDup; [|apply reduce_deck_sublist].
    rewrite Hperm. apply NoDup_py_range.
  - intros Hlen.
    assert (Forall (fun h => length h = 6) (map cards (valid_players ps'))) as Hall.
    { rewrite Hh. apply Forall_fmap, Forall_forall. intros k Hk.
      apply elem_of_seq in Hk. unfold hand_at. simpl.
      rewrite length_take, length_drop. lia. }
    by apply Forall_fmap in Hall.
Qed.

(** *** References into the store *)

Lemma find_player_Some n ps p :
  find_player n ps = Some p -> p ∈ ps /\ number p = n.
Proof.
  intros Hf. apply find_some in Hf as [Hin Hn].
  split; [by apply list_elem_of_In|by apply Nat.eqb_eq].
Qed.

Lemma elem_of_valid_players p ps :
  p ∈ valid_players ps <-> p ∈ ps /\ valid p = true.
Proof. unfold valid_players. rewrite !list_elem_of_In. apply filter_In. Qed.

Lemma NoDup_number_inj ps p q :
  NoDup (map number ps) -> p ∈ ps -> q ∈ ps -> number p = number q -> p = q.
Proof.
  induction ps as [|x ps IH]; simpl; [by intros _ ?%not_elem_of_nil|].
  intros [Hx Hnd]%NoDup_cons [->|Hp]%elem_of_cons [->|Hq]%elem_of_cons Hn; auto.
  - destruct Hx. rewrite Hn. by apply list_elem_of_fmap_2.
  - destruct Hx. rewrite <- Hn. by apply list_elem_of_fmap_2.
Qed.

Lemma NoDup_valid_players ps :
  NoDup (map number ps) -> NoDup (map number (valid_players ps)).
Proof.
  induction ps as [|x ps IH]; simpl; [done|].
  intros [Hx Hnd]%NoDup_cons. destruct (valid x); [|by apply IH].
  simpl. apply NoDup_cons. split; [|by apply IH].
  intros (q & Hq & Hin)%list_elem_of_fmap. apply elem_of_valid_players in Hin as [Hin _].
  apply Hx. rewrite Hq. by apply list_elem_of_fmap_2.
Qed.

(** *** Scoring *)

Lemma fooled_cons cp x vs i :
  fooled cp (x :: vs) i
  = ((if is_not x cp && bool_decide (current_card i = selected_card x) then 1 else 0)
     + fooled cp vs i)%Z.
Proof.
  unfold fooled. simpl.
  rewrite (bool_decide_ext (selected_card x = current_card i)
             (current_card i = selected_card x)) by done.
  destruct (is_not x cp && bool_decide (current_card i = selected_card x)); simpl; lia.
Qed.

Lemma votes_for_one cp i vs r v :
  r !! number i = Some v ->
  foldM
    (fun result player =>
       if is_not player cp then
         if bool_decide (current_card i = selected_card player)
         then dict_incr (number i) result else Some result
       else Some result)
    r vs
  = Some (<[number i := (v + fooled cp vs i)%Z]> r).
Proof.
  revert r v. induction vs as [|x vs IH]; intros r v Hr.
  - simpl. unfold fooled. simpl. by rewrite Z.add_0_r, insert_id.
  - rewrite fooled_cons. simpl.
    destruct (is_not x cp); simpl.
    + case_bool_decide; simpl.
      * unfold dict_incr. rewrite Hr. simpl.
        rewrite (IH _ (v + 1)%Z) by apply lookup_insert_eq.
        rewrite insert_insert_eq. do 2 f_equal. lia.
      * by rewrite (IH _ v).
    + by rewrite (IH _ v).
Qed.

Lemma votes_for_all cp vs l r :
  NoDup (map number l) ->
  (forall i, i ∈ l -> is_Some (r !! number i)) ->
  exists r',
    foldM
      (fun result i =>
         foldM
           (fun result player =>
              if is_not player cp then
                if bool_decide (current_card i = selected_card player)
                then dict_incr (number i) result else Some result
              else Some result)
           result vs)
      r l = Some r' /\
    (forall i, i ∈ l ->
       r' !! number i = (fun v => (v + fooled cp vs i)%Z) <$> r !! number i) /\
    (forall k, k ∉ map number l -> r' !! k = r !! k).
Proof.
  revert r. induction l as [|i l IH]; intros r Hnd Hkeys.
  - exists r. split; [done|]. split; [by intros i ?%not_elem_of_nil|done].
  - apply NoDup_cons in Hnd as [Hi Hnd]. simpl.
    destruct (Hkeys i) as [v Hv]; [by left|].
    rewrite (votes_for_one cp i vs r v Hv). simpl.
    destruct (IH (<[number i := (v + fooled cp vs i)%Z]> r) Hnd) as (r' & -> & Hin & Hout).
    { intros j Hj. rewrite lookup_insert_ne; [apply Hkeys; by right|].
      intros Heq. apply Hi. rewrite Heq. by apply list_elem_of_fmap_2. }
    exists r'. split; [done|]. split.
    + intros j [->|Hj]%elem_of_cons.
      * rewrite (Hout _ Hi), lookup_insert_eq, Hv. done.
      * rewrite (Hin _ Hj), lookup_insert_ne; [done|].
        intros Heq. apply Hi. rewrite Heq. by apply list_elem_of_fmap_2.
    + intros k Hk. apply not_elem_of_cons in Hk as [Hne Hk].
      by rewrite (Hout _ Hk), lookup_insert_ne.
Qed.

Lemma result_init vs i :
  i ∈ vs ->
  (list_to_map (map (fun p => (number p, 0%Z)) vs) : gmap nat Z) !! number i = Some 0%Z.
Proof.
  induction vs as [|x vs IH]; [by intros ?%not_elem_of_nil|].
  intros Hi. simpl. destruct (decide (number x = number i)) as [->|Hne].
  - apply lookup_insert_eq.
  - rewrite lookup_insert_ne by done. apply elem_of_cons in Hi as [->|Hi]; [done|auto].
Qed.

Lemma count_votes_fooled cp vs :
  NoDup (map number vs) ->
  exists result,
    count_votes cp vs (list_to_map (map (fun p => (number p, 0%Z)) vs)) = Some result /\
    forall i, i ∈ vs -> result !! number i = Some (fooled cp vs i).
Proof.
  intros Hnd.
  destruct (votes_for_all cp vs vs
              (list_to_map (map (fun p => (number p, 0%Z)) vs)) Hnd)
    as (result & Hr & Hin & _).
  { intros i Hi. rewrite result_init; done. }
  exists result. split; [exact Hr|].
  intros i Hi. rewrite (Hin _ Hi), result_init by done. done.
Qed.

Lemma for_players_opt_total (body : Player -> option Player) (g : Player -> Player) ps :
  (forall p, p ∈ ps -> valid p = true -> body p = Some (g p)) ->
  for_players_opt body ps = Some (for_players g ps).
Proof.
  induction ps as [|p ps IH]; intros Hb; [done|].
  simpl. rewrite IH by (intros q Hq; apply Hb; by right).
  destruct (valid p) eqn:Hv; simpl; [|done].
  rewrite Hb; [done|by left|done].
Qed.

Lemma set_score_same (p : Player) (x : Z) : x = score p -> set_score x p = p.
Proof. intros ->. by destruct p. Qed.

Lemma set_players_ext (x y : list Player) (s s' : Server) :
  x = y -> set_players [] s = set_players [] s' -> set_players x s = set_players y s'.
Proof.
  intros -> Hs. destruct s, s'. unfold set_players in *. simpl in *. congruence.
Qed.

(** C1.  The scoring step.  In a roster of distinct player objects, with
    [teller], a valid player of the roster, as storyteller,
    [calculate_result] returns, and all it changes is the score
    of every valid player [p], which grows by [score_gain teller vs p], [vs]
    being the valid players: with [fooled p] the number of non-storytellers
    whose vote is the card that [p] played and [correct] that number for the
    storyteller, the gain is 3 for a non-storyteller and 0 for the
    storyteller when [correct] is the number of valid players minus one;
    otherwise it is [fooled p], plus 3 when [correct > 0] and [p] is the
    storyteller or voted for the storyteller's card. *)
Theorem calculate_result_scores (s : Server) (cp : nat) (teller : Player) :
  NoDup (map number (players s)) ->
  current_player s = Some cp ->
  find_player cp (players s) = Some teller ->
  valid teller = true ->
  calculate_result s
  = Some (set_players
            (map (fun p =>
                    if valid p then
                      set_score
                        (score p + score_gain teller (valid_players (players s)) p)%Z p
                    else p)
                 (players s))
            s).
Proof.
  intros Hnd Hcp Hf Hv.
  destruct (find_player_Some _ _ _ Hf) as [Hin Hn].
  assert (teller ∈ valid_players (players s)) as Hvin
    by (by apply elem_of_valid_players).
  unfold calculate_result. rewrite Hcp. simpl. rewrite Hf. simpl.
  destruct (count_votes_fooled cp (valid_players (players s)))
    as (result & -> & Hres); [by apply NoDup_valid_players|].
  simpl. pose proof (Hres _ Hvin) as Hc. rewrite Hn in Hc. rewrite Hc. simpl.
  unfold score_gain. rewrite Hn.
  set (vs := valid_players (players s)) in *.
  set (correct := fooled cp vs teller) in *.
  assert (0 <= correct)%Z as Hpos by (unfold correct, fooled; lia).
  assert (forall p, p ∈ players s -> valid p = false -> (number p =? cp) = false) as Hother.
  { intros p Hp Hvp. apply Nat.eqb_neq. intros Heq.
    assert (p = teller) as -> by (apply (NoDup_number_inj (players s)); congruence).
    congruence. }
  case_bool_decide as Hall.
  - do 2 f_equal. unfold for_players. apply list_fmap_ext. intros _ p _.
    destruct (valid p); [|done]. destruct (is_not p cp); [done|].
    symmetry. apply set_score_same. lia.
  - destruct (bool_decide (correct = 0%Z)) eqn:Hzero; simpl.
    + apply bool_decide_eq_true in Hzero.
      rewrite (bool_decide_eq_false_2 (0 < correct)%Z) by lia.
      rewrite (for_players_opt_total _
                 (fun i => set_score (score i + fooled cp vs i)%Z i)).
      2:{ intros p Hp Hvp. rewrite Hres; [done|]. by apply elem_of_valid_players. }
      done.
    + apply bool_decide_eq_false in Hzero.
      rewrite (bool_decide_eq_true_2 (0 < correct)%Z) by lia.
      rewrite (for_players_opt_total _
                 (fun i => set_score (score i + fooled cp vs i)%Z i)).
      2:{ intros p Hp Hvp. simpl in Hp.
          assert (exists q, q ∈ vs /\ number q = number p /\ current_card q = current_card p)
            as (q & Hq & Hnq & Hcq).
          { unfold update_player, for_players in Hp.
            rewrite <- list_fmap_compose in Hp.
            apply list_elem_of_fmap in Hp as (q & -> & Hq). exists q.
            simpl in *. destruct (valid q) eqn:Hvq.
            - split; [by apply elem_of_valid_players|].
              destruct (is_not q cp); simpl; [case_bool_decide; simpl|];
                destruct (_ =? cp); done.
            - exfalso. rewrite (Hother _ Hq Hvq) in Hvp. congruence. }
          rewrite <- Hnq, (Hres _ Hq). unfold fooled. by rewrite Hcq. }
      simpl. f_equal. apply set_players_ext; [|done].
      unfold update_player, for_players.
      rewrite <- !list_fmap_compose. apply list_fmap_ext. intros k p Hp.
      apply list_elem_of_lookup_2 in Hp. simpl.
      destruct (valid p) eqn:Hvp.
      * unfold is_not. destruct (number p =? cp) eqn:E; simpl; rewrite ?E; simpl.
        -- rewrite Hvp. unfold set_score, fooled. simpl. f_equal. lia.
        -- case_bool_decide; simpl; rewrite ?E, ?Hvp; unfold set_score, fooled; simpl;
             rewrite ?Hvp; f_equal; lia.
      * rewrite (Hother _ Hp Hvp). by rewrite Hvp.
Qed.

(** *** Barriers *)

Lemma get_sync_state_from_all st ps :
  Forall (fun p => state p = st) (valid_players ps) ->
  get_sync_state_from (Some st) ps = Some st.
Proof.
  induction ps as [|p ps IH]; simpl; [done|].
  destruct (valid p); [|done].
  intros [Hp Hall]%Forall_cons. rewrite bool_decide_eq_true_2 by done. auto.
Qed.

Lemma get_sync_state_synchronized st s :
  synchronized_on st s -> get_sync_state s = Some st.
Proof.
  unfold synchronized_on, get_sync_state. intros [Hne Hall].
  induction (players s) as [|p ps IH]; simpl in *; [done|].
  destruct (valid p); [|auto].
  apply Forall_cons in Hall as [-> Hall]. by apply get_sync_state_from_all.
Qed.

Lemma recover_storyteller_ok s : storyteller_ok s -> recover s = Some s.
Proof.
  unfold storyteller_ok, recover. destruct (current_player s); [|done].
  by intros ->.
Qed.

(** *** Hands *)

Lemma len_players_assign hs ps : len_players (assign_hands hs ps) = len_players ps.
Proof.
  unfold len_players. revert hs. induction ps as [|p ps IH]; intros hs; simpl; [done|].
  destruct (valid p) eqn:Hv.
  - destruct hs; simpl; rewrite Hv; simpl; [done|]. by rewrite IH.
  - simpl. rewrite Hv. apply IH.
Qed.

Lemma for_players_assign (h : Player -> list Z) ps :
  for_players (fun p => set_cards (h p) p) ps
  = assign_hands (map h (valid_players ps)) ps.
Proof.
  induction ps as [|p ps IH]; simpl; [done|].
  destruct (valid p); simpl; by rewrite <- IH.
Qed.

Lemma cards_assign hs ps :
  length hs = len_players ps -> map cards (valid_players (assign_hands hs ps)) = hs.
Proof.
  unfold len_players. revert hs. induction ps as [|p ps IH]; intros hs; simpl.
  - by destruct hs.
  - destruct (valid p) eqn:Hv; simpl.
    + destruct hs as [|h hs]; simpl; [done|]. intros [= Hl].
      rewrite Hv. simpl. by rewrite IH.
    + rewrite Hv. apply IH.
Qed.

Lemma assign_hands_twice hs hs' ps :
  length hs = len_players ps -> length hs' = len_players ps ->
  assign_hands hs (assign_hands hs' ps) = assign_hands hs ps.
Proof.
  unfold len_players. revert hs hs'.
  induction ps as [|p ps IH]; intros hs hs'; simpl; [done|].
  destruct (valid p) eqn:Hv; simpl.
  - destruct hs as [|h hs], hs' as [|h' hs']; simpl; try done.
    intros [= Hl] [= Hl']. rewrite Hv. by rewrite IH.
  - intros Hl Hl'. rewrite Hv. by rewrite IH.
Qed.

Lemma deal_one_loop ps deck :
  len_players ps <= length deck ->
  for_players_st deal_one deck ps
  = Some (drop (len_players ps) deck,
          assign_hands
            (zip_with (fun h c => h ++ [c]) (map cards (valid_players ps))
               (take (len_players ps) deck))
            ps).
Proof.
  unfold len_players. revert deck.
  induction ps as [|p ps IH]; intros deck Hle; [done|].
  rewrite for_players_st_cons. simpl in *. destruct (valid p) eqn:Hv; simpl in *.
  - destruct deck as [|c deck]; simpl in *; [lia|].
    rewrite IH by lia. done.
  - rewrite IH by lia. done.
Qed.

Lemma finish_turn_hands s hands :
  map cards (valid_players (players s)) = hands ->
  hands <> [] ->
  finish_turn s
  = Some (set_players
            (map (fun p =>
                    if valid p then
                      if bool_decide (head hands = Some []) then
                        set_valid false
                          (if get_broadcast p then send_message "END_GAME" p else p)
                      else
                        set_state TURN_SYNC
                          (send_message
                             ("CARDS " +:+ py_join "," (map str_Z (cards p))) p)
                    else p)
                 (players s))
            s).
Proof.
  intros Hh Hne. unfold finish_turn.
  destruct (valid_players (players s)) as [|first vs] eqn:Hvs; simpl in Hh.
  { by subst hands. }
  subst hands. simpl.
  destruct (cards first) as [|c l] eqn:Hc; simpl.
  - do 2 f_equal. unfold for_players. rewrite <- list_fmap_compose.
    apply list_fmap_ext. intros _ p _. simpl.
    destruct (valid p) eqn:Hv; [|by rewrite Hv].
    destruct (get_broadcast p); simpl; by rewrite Hv.
  - unfold for_players. reflexivity.
Qed.

Lemma on_sync_next_turn_spec s :
  valid_players (players s) <> [] ->
  on_sync_next_turn s = Some (next_turn_spec s).
Proof.
  intros Hne. unfold on_sync_next_turn, next_turn_spec.
  assert (0 < len_players (players s)) as Hpos.
  { unfold len_players. destruct (valid_players (players s)); simpl; [done|lia]. }
  set (vs := valid_players (players s)).
  set (kept := map (fun p => remove_played (current_card p) (cards p)) vs).
  rewrite (for_players_assign (fun p => remove_played (current_card p) (cards p))).
  fold vs kept. simpl.
  assert (length kept = len_players (players s)) as Hk
    by (unfold kept; by rewrite length_map).
  assert (length vs = len_players (players s)) as Hvs by done.
  rewrite len_players_assign, Hvs.
  destruct (Nat.leb_spec (len_players (players s)) (length (srv_cards s))) as [Hle|Hgt].
  - rewrite bool_decide_eq_true_2 by done.
    rewrite deal_one_loop by (by rewrite len_players_assign).
    simpl. rewrite len_players_assign, cards_assign by done.
    rewrite assign_hands_twice; [|by rewrite length_zip_with, length_take; lia|done].
    set (hands := zip_with _ kept _).
    assert (length hands = len_players (players s)) as Hh
      by (unfold hands; rewrite length_zip_with, length_take; lia).
    rewrite (finish_turn_hands _ hands).
    + done.
    + simpl. by apply cards_assign.
    + intros E. rewrite E in Hh. simpl in Hh. lia.
  - rewrite bool_decide_eq_false_2 by lia. simpl.
    rewrite (finish_turn_hands _ kept).
    + done.
    + simpl. by apply cards_assign.
    + intros E. rewrite E in Hk. simpl in Hk. lia.
Qed.

(** C4, as amended.  When the storyteller still verifies and all valid
    players are synchronized on [SYNC_NEXT_TURN], [global_operations]
    returns [next_turn_spec]: each valid player loses its played card; one
    card is dealt to each of them if and only if the deck holds at least as
    many cards as there are valid players; then, if and only if the hand of
    the first valid player is empty, END_GAME is broadcast and all players
    are invalidated; otherwise every valid player is sent its hand and set
    to [TURN_SYNC]. *)
Theorem sync_next_turn (shuffle : forall A : Type, list A -> list A) (rnd : nat)
    (s : Server) :
  storyteller_ok s ->
  synchronized_on SYNC_NEXT_TURN s ->
  global_operations shuffle rnd s = Some (next_turn_spec s).
Proof.
  intros Hok Hsync. unfold global_operations.
  rewrite (recover_storyteller_ok _ Hok). simpl.
  rewrite (get_sync_state_synchronized _ _ Hsync).
  apply on_sync_next_turn_spec, Hsync.
Qed.

(** *** The invariant of a session *)

Lemma same_ids_map_number ps ps' :
  Forall2 same_ids ps ps' -> map number ps' = map number ps.
Proof. induction 1 as [|p p' ps ps' (Hn & _) _ IH]; simpl; congruence. Qed.

Lemma same_ids_map_socket ps ps' :
  Forall2 same_ids ps ps' -> map player_socket ps' = map player_socket ps.
Proof. induction 1 as [|p p' ps ps' (_ & _ & Hs & _) _ IH]; simpl; congruence. Qed.

Lemma wf_transfer s' :
  NoDup (map number (players s')) ->
  NoDup (map player_socket (players s')) ->
  (exists ps, Forall2 same_ids ps (players s') /\
     Forall (fun p =>
               number p < seq_number s' /\ is_Some (conn p) /\
               sockets s' !! player_socket p = Some (number p) /\
               (status p = MASTER <-> number p = 0)) ps) ->
  (have_master s' = true <-> 0 < seq_number s') ->
  wf s'.
Proof.
  intros Hn Hs (ps & H2 & Hall) Hm. split; try done.
  eapply Forall2_Forall_r; [exact H2|].
  eapply Forall_impl; [exact Hall|]. simpl.
  intros p (Hlt & Hc & Hsock & Hst) p' (En & Est & Es & Ec).
  rewrite En, Est, Es. auto.
Qed.

Lemma wf_kept s s' : wf s -> roster_kept s s' -> wf s'.
Proof.
  intros [Hn Hs Hall Hm] (H2 & Esock & Em & Eseq & _). apply wf_transfer.
  - by rewrite (same_ids_map_number _ _ H2).
  - by rewrite (same_ids_map_socket _ _ H2).
  - exists (players s). split; [done|]. by rewrite Esock, Eseq.
  - by rewrite Em, Eseq.
Qed.

Lemma wf_prepare rname rlink conf s : wf (prepare rname rlink conf s).
Proof.
  split; simpl.
  - apply NoDup_nil_2.
  - apply NoDup_nil_2.
  - apply Forall_nil_2.
  - split; [done|lia].
Qed.

Lemma wf_add_player sock s :
  wf s -> sockets s !! sock = None -> wf (add_player sock s).
Proof.
  intros [Hn Hs Hall Hm] Hfresh. rewrite Forall_forall in Hall.
  split; simpl.
  - rewrite fmap_app. simpl. apply NoDup_app. split; [done|]. split.
    + intros n (p & -> & Hp)%list_elem_of_fmap [E|[]%not_elem_of_nil]%elem_of_cons.
      destruct (Hall p Hp) as (Hlt & _). lia.
    + apply NoDup_singleton.
  - rewrite fmap_app. simpl. apply NoDup_app. split; [done|]. split.
    + intros n (p & -> & Hp)%list_elem_of_fmap [E|[]%not_elem_of_nil]%elem_of_cons.
      destruct (Hall p Hp) as (_ & _ & Hsock & _). congruence.
    + apply NoDup_singleton.
  - apply Forall_app. split.
    + apply Forall_forall. intros p Hp.
      destruct (Hall p Hp) as (Hlt & Hc & Hsock & Hst).
      split; [lia|]. split; [done|]. split; [|done].
      rewrite lookup_insert_ne; [done|congruence].
    + apply Forall_singleton. simpl. split; [lia|]. split; [done|].
      split; [apply lookup_insert_eq|].
      destruct (have_master s) eqn:E.
      * assert (0 < seq_number s) by (by apply Hm). split; [done|lia].
      * split; [|done]. intros _.
        destruct (seq_number s) eqn:E'; [done|].
        assert (false = true) by (apply Hm; lia). done.
  - split; [lia|done].
Qed.

Lemma wf_accept sock s :
  wf s -> sockets s !! sock = None -> wf (accept_connection sock s).
Proof.
  intros Hwf Hfresh. unfold accept_connection.
  assert (wf (set_closed (closed s ++ [sock]) s)) as Hrej
    by (apply (wf_kept s); [done|split; [apply same_ids_list_refl|done]]).
  repeat case_match; auto using wf_add_player.
Qed.

Lemma wf_check s s' : wf s -> check s = Some s' -> wf s'.
Proof.
  intros Hwf Hc. destruct (first_dead 0 (players s)) as [[i|]|] eqn:Hd.
  2:{ unfold check in Hc. rewrite Hd in Hc. by injection Hc as <-. }
  2:{ unfold check in Hc. by rewrite Hd in Hc. }
  destruct (check_removes _ _ _ Hd Hc)
    as (p & ps1 & Hp & _ & <- & _ & _ & Esock & _ & H2 & Em & Eseq & _).
  destruct Hwf as [Hn Hs Hall Hm].
  assert (NoDup (map player_socket (delete i (players s)))) as Hs'.
  { rewrite list_fmap_delete. eapply sublist_NoDup; [exact Hs|apply sublist_delete]. }
  apply wf_transfer.
  - rewrite (same_ids_map_number _ _ H2), list_fmap_delete.
    eapply sublist_NoDup; [exact Hn|apply sublist_delete].
  - by rewrite (same_ids_map_socket _ _ H2).
  - exists (delete i (players s)). split; [done|].
    rewrite Esock, Eseq. apply Forall_forall. intros q Hq.
    rewrite Forall_forall in Hall.
    destruct (Hall q (list_elem_of_delete_inv _ _ _ Hq)) as (Hlt & Hc' & Hsock & Hst).
    split; [done|]. split; [done|]. split; [|done].
    rewrite lookup_delete_ne; [done|]. intros E.
    rewrite <- (take_drop_middle _ _ _ Hp), fmap_app in Hs. simpl in Hs.
    apply NoDup_app in Hs as (_ & Hl & Hr). apply NoDup_cons in Hr as [Hr _].
    rewrite delete_take_drop in Hq. apply elem_of_app in Hq as [Hq|Hq].
    + apply (Hl (player_socket p)); [|by left].
      rewrite E. by apply list_elem_of_fmap_2.
    + apply Hr. rewrite E. by apply list_elem_of_fmap_2.
  - by rewrite Em, Eseq.
Qed.

Lemma step_wf s s' : wf s -> step s s' -> wf s'.
Proof.
  intros Hwf Hstep. destruct Hstep;
    eauto using wf_kept, flush_keeps, handle_input_keeps, handle_states_keeps,
      global_operations_keeps, wf_accept, wf_check.
  - eapply wf_kept; [done|]. apply comm_keeps.
  - eapply wf_kept; [done|]. apply (comm_keeps []).
  - eapply wf_kept; [done|]. apply (comm_keeps []).
Qed.

Lemma reachable_wf s : reachable s -> wf s.
Proof. induction 1; eauto using wf_prepare, step_wf. Qed.

(** [seq_number] counts the players added in the session: those of the
    roster and those that the sweep removed. *)
Lemma reachable_counted s :
  reachable s -> seq_number s = length (players s) + length (gone s).
Proof.
  assert (forall a b, roster_kept a b ->
            seq_number a = length (players a) + length (gone a) ->
            seq_number b = length (players b) + length (gone b)) as Hkept.
  { intros a b (H2 & _ & _ & Eseq & Eg) Ha.
    rewrite Eseq, Eg, <- (Forall2_length _ _ _ H2). exact Ha. }
  induction 1 as [|s s' _ IH Hstep]; [done|].
  destruct Hstep as [flow s s' Hf|flow s s' Hi|sock s Hfresh|s s' Hs|sh rnd s s' Hg
                    |s s' Hc|cmdline s|s|s].
  - eapply Hkept; [|done]. by eapply flush_keeps.
  - eapply Hkept; [|done]. by eapply handle_input_keeps.
  - unfold accept_connection. repeat case_match; try done.
    simpl. rewrite length_app. simpl. lia.
  - eapply Hkept; [|done]. by eapply handle_states_keeps.
  - eapply Hkept; [|done]. by eapply global_operations_keeps.
  - destruct (first_dead 0 (players s)) as [[i|]|] eqn:Hd.
    + destruct (check_removes _ _ _ Hd Hc)
        as (p & ps1 & Hp & _ & <- & _ & Hn & _ & _ & _ & _ & Eseq & flushed & _ & Eg).
      rewrite Eseq, Eg, length_app, <- (length_map number (players s')), Hn.
      rewrite length_map, length_delete by eauto.
      apply lookup_lt_Some in Hp. simpl. lia.
    + unfold check in Hc. rewrite Hd in Hc. by injection Hc as <-.
    + unfold check in Hc. by rewrite Hd in Hc.
  - eapply Hkept; [|done]. apply comm_keeps.
  - eapply Hkept; [|done]. apply (comm_keeps []).
  - eapply Hkept; [|done]. apply (comm_keeps []).
Qed.

Lemma no_master ps :
  Forall (fun p => status p = MASTER <-> number p = 0) ps ->
  0 ∉ map number ps ->
  List.filter (fun p => bool_decide (status p = MASTER)) ps = [].
Proof.
  induction ps as [|p ps IH]; simpl; [done|].
  intros [Hst Hall]%Forall_cons [Hp Hps]%not_elem_of_cons.
  rewrite bool_decide_eq_false_2; [auto|].
  intros Hm. apply Hst in Hm. congruence.
Qed.

Lemma one_master ps :
  NoDup (map number ps) ->
  Forall (fun p => status p = MASTER <-> number p = 0) ps ->
  length (List.filter (fun p => bool_decide (status p = MASTER)) ps) <= 1.
Proof.
  induction ps as [|p ps IH]; simpl; [lia|].
  intros [Hp Hn]%NoDup_cons [Hst Hall]%Forall_cons.
  case_bool_decide as Hm; simpl; [|auto].
  apply Hst in Hm. rewrite Hm in Hp. rewrite no_master; [simpl; lia|done|done].
Qed.

(** C7.  In every reachable state of a session at most one player of the
    roster is [MASTER]; a player of the roster is [MASTER] exactly when its
    number is 0, the number of the first player added ([seq_number] counts
    the players added so far, in the roster or removed by the sweep); and
    the player that [add_player] adds is [MASTER] exactly when no player
    has been added before, whatever happened to the master since. *)
Theorem master_is_first_joiner (s : Server) :
  reachable s ->
  length (List.filter (fun p => bool_decide (status p = MASTER)) (players s)) <= 1 /\
  (forall p, p ∈ players s ->
     (status p = MASTER <-> number p = 0) /\ number p < seq_number s) /\
  seq_number s = length (players s) + length (gone s) /\
  (forall sock,
     exists new,
       players (add_player sock s) = players s ++ [new] /\
       number new = seq_number s /\
       (status new = MASTER <-> seq_number s = 0) /\
       (0 < seq_number s -> status new = PLAYER)).
Proof.
  intros Hr. pose proof (reachable_counted s Hr) as Hcount.
  apply reachable_wf in Hr as [Hn Hs Hall Hm]. split; [|split; [|split]].
  - apply one_master; [done|]. eapply Forall_impl; [exact Hall|]. by intros p (_&_&_&?).
  - intros p Hp. rewrite Forall_forall in Hall.
    destruct (Hall p Hp) as (? & _ & _ & ?). done.
  - exact Hcount.
  - intros sock. eexists. split; [reflexivity|]. simpl. split; [done|].
    destruct (have_master s) eqn:E.
    + assert (0 < seq_number s) by (by apply Hm). split; [|done]. split; [done|lia].
    + assert (seq_number s = 0) as ->; [|split; [done|lia]].
      destruct (seq_number s); [done|].
      assert (false = true) by (apply Hm; lia). done.
Qed.

End Properties.

(** ** The protocol, the barriers and the main loop *)

Section Protocol.
Context `{ConnAPI}.

(** *** [PlayerList.next_player] *)

Lemma index_of_bound r (ps : list Player) : ps <> [] -> index_of r ps < length ps.
Proof.
  intros Hne. unfold index_of. destruct r as [n|].
  - destruct (list_find _ ps) as [[i p]|] eqn:E.
    + apply list_find_Some in E as (E & _). by eapply lookup_lt_Some.
    + destruct ps; [done|simpl; lia].
  - destruct ps; [done|simpl; lia].
Qed.

Lemma next_idx (ps : list Player) i :
  i < length ps ->
  (if length ps <=? i + 1 then 0 else i + 1) = (i + 1) mod length ps.
Proof.
  intros Hi. destruct (Nat.leb_spec (length ps) (i + 1)).
  - replace (i + 1) with (length ps) by lia. by rewrite Nat.Div0.mod_same.
  - by rewrite Nat.mod_small.
Qed.

Lemma next_player_loop_probe fuel i (ps : list Player) :
  i < length ps ->
  (exists k p,
     k < fuel /\ ps !! ((i + 1 + k) mod length ps) = Some p /\ valid p = true /\
     (forall j, j < k ->
        exists q, ps !! ((i + 1 + j) mod length ps) = Some q /\ valid q = false) /\
     next_player_loop fuel i ps = Some (Some (number p))) \/
  ((forall j, j < fuel ->
      exists q, ps !! ((i + 1 + j) mod length ps) = Some q /\ valid q = false) /\
   next_player_loop fuel i ps = Some None).
Proof.
  revert i. induction fuel as [|fuel IH]; intros i Hi.
  - right. split; [intros; lia|done].
  - simpl. rewrite (next_idx ps i Hi).
    assert ((i + 1) mod length ps < length ps) as Hlt by (apply Nat.mod_upper_bound; lia).
    destruct (lookup_lt_is_Some_2 ps _ Hlt) as [p Hp]. rewrite Hp. simpl.
    assert (forall j, ((i + 1) mod length ps + 1 + j) mod length ps
                      = (i + 1 + S j) mod length ps) as Hshift.
    { intros j. rewrite <- !Nat.add_assoc, Nat.Div0.add_mod_idemp_l. f_equal. lia. }
    destruct (valid p) eqn:Hv.
    + left. exists 0, p. rewrite Nat.add_0_r. repeat split; [lia|done|done|intros; lia].
    + destruct (IH _ Hlt) as [(k & q & Hk & Hq & Hvq & Hbefore & ->)|[Hall ->]].
      * left. exists (S k), q. rewrite <- Hshift. repeat split; [lia|done|done|].
        intros [|j] Hj.
        -- exists p. by rewrite Nat.add_0_r.
        -- rewrite <- Hshift. apply Hbefore. lia.
      * right. split; [|done]. intros [|j] Hj.
        -- exists p. by rewrite Nat.add_0_r.
        -- rewrite <- Hshift. apply Hall. lia.
Qed.

Lemma probes_cover (ps : list Player) i j :
  i < length ps -> j < length ps ->
  exists k, k < length ps /\ (i + 1 + k) mod length ps = j /\
            (k = length ps - 1 -> j = i).
Proof.
  intros Hi Hj.
  destruct (decide (i < j)) as [Hlt|Hge].
  - exists (j - (i + 1)). split; [lia|]. split; [|lia].
    replace (i + 1 + (j - (i + 1))) with j by lia. by apply Nat.mod_small.
  - exists (j + length ps - (i + 1)). split; [lia|]. split; [|lia].
    replace (i + 1 + (j + length ps - (i + 1))) with (j + 1 * length ps) by lia.
    rewrite Nat.Div0.mod_add. by apply Nat.mod_small.
Qed.

Lemma valid_players_nil (ps : list Player) :
  valid_players ps = [] <-> Forall (fun p => valid p = false) ps.
Proof.
  unfold valid_players. induction ps as [|p ps IH]; simpl; [done|].
  destruct (valid p) eqn:Hv.
  - split; [done|]. intros Hall. apply Forall_cons in Hall as [? _]. congruence.
  - rewrite IH. split; [by constructor|]. by intros [_ ?]%Forall_cons.
Qed.

Lemma next_player_scan (r : option nat) (ps : list Player) :
  (valid_players ps = [] /\ next_player r ps = Some None) \/
  (exists k p,
     k < length ps /\
     ps !! ((index_of r ps + 1 + k) mod length ps) = Some p /\ valid p = true /\
     (forall j, j < k ->
        exists q, ps !! ((index_of r ps + 1 + j) mod length ps) = Some q /\
                  valid q = false) /\
     next_player r ps = Some (Some (number p))).
Proof.
  unfold next_player. destruct ps as [|p0 ps0] eqn:Eps; [by left|].
  rewrite <- Eps.
  assert (ps <> []) as Hne by (by rewrite Eps).
  pose proof (index_of_bound r ps Hne) as Hi.
  destruct (next_player_loop_probe (length ps * 2) _ ps Hi)
    as [(k & p & Hk & Hp & Hv & Hbefore & Hres)|[Hall Hres]].
  - right. exists k, p. repeat split; try done.
    destruct (decide (k < length ps)) as [|Hge]; [done|].
    destruct (probes_cover ps (index_of r ps)
                ((index_of r ps + 1 + k) mod length ps) Hi) as (k' & Hk' & Heq & _).
    { apply Nat.mod_upper_bound. lia. }
    exfalso.
    assert ((index_of r ps + 1 + (k - length ps)) mod length ps
            = (index_of r ps + 1 + k) mod length ps) as Hsame.
    { replace (index_of r ps + 1 + k)
        with (index_of r ps + 1 + (k - length ps) + 1 * length ps) by lia.
      by rewrite Nat.Div0.mod_add. }
    destruct (Hbefore (k - length ps)) as (q & Hq & Hvq); [lia|].
    rewrite Hsame, Hp in Hq. congruence.
  - left. split; [|done].
    apply valid_players_nil, Forall_lookup. intros j q Hq.
    destruct (probes_cover ps (index_of r ps) j Hi) as (k & Hk & Heq & _);
      [by eapply lookup_lt_Some|].
    destruct (Hall k) as (q' & Hq' & Hv); [lia|]. rewrite Heq in Hq'. congruence.
Qed.

(** X1.  [PlayerList.next_player] never raises.  It returns [None] exactly
    when the roster has no valid player.  Otherwise it returns the first
    valid player met when going round the roster from the position after
    [player] (after position 0 when [player] is [None] or is not in the
    roster); after a full round that is [player] itself. *)
Theorem next_player_first_valid (r : option nat) (ps : list Player) :
  (valid_players ps = [] /\ next_player r ps = Some None) \/
  (exists k p,
     k < length ps /\
     ps !! ((index_of r ps + 1 + k) mod length ps) = Some p /\ valid p = true /\
     (forall j, j < k ->
        exists q, ps !! ((index_of r ps + 1 + j) mod length ps) = Some q /\
                  valid q = false) /\
     next_player r ps = Some (Some (number p))).
Proof. apply next_player_scan. Qed.

Lemma index_of_number n (ps : list Player) i p :
  NoDup (map number ps) -> ps !! i = Some p -> number p = n ->
  index_of (Some n) ps = i.
Proof.
  intros Hnd Hp Hn. unfold index_of.
  destruct (list_find _ ps) as [[i' p']|] eqn:E.
  - apply list_find_Some in E as (Hp' & Hn' & _).
    eapply NoDup_lookup; [exact Hnd| |]; rewrite list_lookup_fmap.
    + by rewrite Hp'.
    + rewrite Hp. simpl. congruence.
  - apply list_find_None in E. rewrite Forall_forall in E.
    destruct (E p); [by eapply list_elem_of_lookup_2|done].
Qed.

(** X2.  In a roster of distinct player objects, when a valid player other
    than the player numbered [n] exists, [next_player] does not return [n]
    again: the turn passes on. *)
Theorem next_player_rotates (n : nat) (ps : list Player) (p q : Player) :
  NoDup (map number ps) ->
  p ∈ ps -> number p = n ->
  q ∈ ps -> valid q = true -> number q <> n ->
  exists m, next_player (Some n) ps = Some (Some m) /\ m <> n.
Proof.
  intros Hnd Hp Hn Hq Hvq Hqn.
  apply list_elem_of_lookup in Hp as [i Hi]. apply list_elem_of_lookup in Hq as [j Hj].
  pose proof (index_of_number n ps i p Hnd Hi Hn) as Hidx.
  destruct (next_player_scan (Some n) ps)
    as [[Hnil _]|(k & t & Hk & Ht & Hvt & Hbefore & Hres)].
  - apply valid_players_nil in Hnil. rewrite Forall_lookup in Hnil.
    specialize (Hnil j q Hj). congruence.
  - exists (number t). split; [done|]. intros Heq.
    rewrite Hidx in *.
    assert ((i + 1 + k) mod length ps = i) as Hback.
    { eapply NoDup_lookup; [exact Hnd| |]; rewrite list_lookup_fmap.
      - by rewrite Ht.
      - rewrite Hi. simpl. congruence. }
    destruct (probes_cover ps i j) as (k' & Hk' & Hj' & Hlast);
      [by eapply lookup_lt_Some|by eapply lookup_lt_Some|].
    destruct (decide (k' < k)) as [Hlt|Hge].
    + destruct (Hbefore k' Hlt) as (q' & Hq' & Hvq'). rewrite Hj' in Hq'. congruence.
    + assert (k = length ps - 1) as Hklast.
      { assert (i < length ps) by (by eapply lookup_lt_Some).
        destruct (decide (k = length ps - 1)) as [|Hne]; [done|]. exfalso.
        destruct (decide (i + 1 + k < length ps)).
        - rewrite Nat.mod_small in Hback by done. lia.
        - replace (i + 1 + k) with (i + 1 + k - length ps + 1 * length ps) in Hback by lia.
          rewrite Nat.Div0.mod_add, Nat.mod_small in Hback by lia. lia. }
      assert (k' = length ps - 1) as Hk'last by lia.
      specialize (Hlast Hk'last). rewrite Hlast in Hj. congruence.
Qed.

(** *** [GameServer.get_sync_state] *)

Lemma get_sync_state_from_Some x ps st :
  get_sync_state_from (Some x) ps = Some st ->
  x = st /\ Forall (fun p => state p = st) (valid_players ps).
Proof.
  unfold valid_players. induction ps as [|p ps IH]; simpl.
  - intros [= ->]. by split.
  - destruct (valid p) eqn:Hv; simpl; [|done].
    case_bool_decide as Hst; [|done].
    intros [-> Hall]%IH. split; [done|]. by constructor.
Qed.

Lemma get_sync_state_from_None ps st :
  get_sync_state_from None ps = Some st ->
  valid_players ps <> [] /\ Forall (fun p => state p = st) (valid_players ps).
Proof.
  unfold valid_players. induction ps as [|p ps IH]; simpl; [done|].
  destruct (valid p) eqn:Hv; simpl; [|done].
  intros [Hst Hall]%get_sync_state_from_Some. split; [done|]. by constructor.
Qed.

(** X3.  [get_sync_state] returns the state [st] exactly when there is a
    valid player and every valid player is in [st]; it returns [None] for a
    roster without valid player and when two valid players differ. *)
Theorem get_sync_state_barrier (s : Server) (st : PState) :
  get_sync_state s = Some st <-> synchronized_on st s.
Proof.
  split; [|apply get_sync_state_synchronized].
  intros Hst. by apply get_sync_state_from_None.
Qed.

(** *** Relations between the two states of a player object

    [R p p'] relates an object before and after an operation.  The lemmas
    of this part lift the assignments that the operations make to the
    whole roster, for any reflexive and transitive [R]. *)

Section Pointwise.
Variable R : Player -> Player -> Prop.
Hypothesis R_refl : forall p, R p p.
Hypothesis R_trans : forall p q r, R p q -> R q r -> R p r.

Lemma pw_refl ps : Forall2 R ps ps.
Proof using R_refl. apply Forall_Forall2_diag, Forall_forall. auto. Qed.

Lemma pw_trans ps qs rs : Forall2 R ps qs -> Forall2 R qs rs -> Forall2 R ps rs.
Proof using R_trans.
  intros Hpq. revert rs. induction Hpq; inversion 1; subst; constructor; eauto.
Qed.

Lemma pw_map f ps : (forall p, R p (f p)) -> Forall2 R ps (map f ps).
Proof using Type. intros Hf. induction ps; constructor; auto. Qed.

Lemma pw_for_players f ps :
  (forall p, valid p = true -> R p (f p)) -> Forall2 R ps (for_players f ps).
Proof using R_refl.
  intros Hf. apply pw_map. intros p. destruct (valid p) eqn:E; auto.
Qed.

Lemma pw_update_player n f ps :
  (forall p, number p = n -> R p (f p)) -> Forall2 R ps (update_player n f ps).
Proof using R_refl.
  intros Hf. apply pw_map. intros p. destruct (Nat.eqb_spec (number p) n); auto.
Qed.

Lemma pw_broadcast data info ps ps' :
  (forall m p, valid p = true -> get_broadcast p = true -> R p (send_message m p)) ->
  broadcast data info ps = Some ps' -> Forall2 R ps ps'.
Proof using R_refl.
  intros Hs. unfold broadcast. intros (d & _ & [= <-])%bind_Some.
  apply pw_for_players. intros p Hv. destruct (get_broadcast p) eqn:E; auto.
Qed.

Lemma pw_for_players_opt body ps ps' :
  (forall p p', valid p = true -> body p = Some p' -> R p p') ->
  for_players_opt body ps = Some ps' -> Forall2 R ps ps'.
Proof using R_refl.
  intros Hb. revert ps'. induction ps as [|p ps IH]; intros ps'; simpl.
  - intros [= <-]. constructor.
  - intros (p' & Hp & (ps'' & Hps & [= <-])%bind_Some)%bind_Some.
    constructor; [|by apply IH]. destruct (valid p) eqn:E; [by apply Hb|].
    injection Hp as <-. apply R_refl.
Qed.

Lemma pw_for_players_st {A} (body : A -> Player -> option (A * Player)) a ps a' ps' :
  (forall a p a' p', valid p = true -> body a p = Some (a', p') -> R p p') ->
  for_players_st body a ps = Some (a', ps') -> Forall2 R ps ps'.
Proof using R_refl.
  intros Hb. revert a ps'. induction ps as [|p ps IH]; intros a ps'; simpl.
  - intros [= <- <-]. constructor.
  - intros ([a1 p1] & Hp & ([a2 ps2] & Hps & [= <- <-])%bind_Some)%bind_Some.
    constructor; [|by eapply IH]. destruct (valid p) eqn:E; [by eapply Hb|].
    injection Hp as <- <-. apply R_refl.
Qed.

Lemma pw_foldM {B} (step : Server -> B -> option Server) l s s' :
  (forall a x a', step a x = Some a' -> Forall2 R (players a) (players a')) ->
  foldM step s l = Some s' -> Forall2 R (players s) (players s').
Proof using R_refl R_trans.
  intros Hstep. revert s. induction l as [|x l IH]; intros s; simpl.
  - intros [= <-]. apply pw_refl.
  - intros (a & Ha & Hl)%bind_Some. eapply pw_trans; eauto.
Qed.

End Pointwise.

(** The operations on one player object, [n]: [R] has to hold for the
    assignments to the attributes of [n] and, for the other players, a new
    state and one more queued message. *)

Section Sender.
Variable R : Player -> Player -> Prop.
Variable n : nat.
Hypothesis R_refl : forall p, R p p.
Hypothesis R_trans : forall p q r, R p q -> R q r -> R p r.
Hypothesis S_conn : forall c p, number p = n -> R p (set_conn (Some c) p).
Hypothesis S_invalid : forall p, number p = n -> R p (set_valid false p).
Hypothesis S_name : forall x p, number p = n -> R p (set_name x p).
Hypothesis S_eligible : forall p, number p = n -> R p (set_get_broadcast true p).
Hypothesis S_state : forall x p, number p = n -> R p (set_state x p).
Hypothesis S_current : forall x p, number p = n -> R p (set_current_card x p).
Hypothesis S_selected : forall x p, number p = n -> R p (set_selected_card x p).
Hypothesis S_send : forall m p, number p = n -> R p (send_message m p).
Hypothesis S_pop : forall m rest c p,
  number p = n ->
  R p (set_has_buffer (0 <? length rest)
         (set_buffer rest (set_conn (Some (conn_send m c)) p))).
Hypothesis A_state : forall x p, valid p = true -> R p (set_state x p).
Hypothesis A_send : forall m p,
  valid p = true -> get_broadcast p = true -> R p (send_message m p).

Lemma rs_upd (s s' : Server) f :
  (forall p, number p = n -> R p (f p)) ->
  Forall2 R (players s) (players s') -> Forall2 R (players s) (players (upd n f s')).
Proof.
  intros Hf Hs. eapply pw_trans; [exact R_trans|exact Hs|].
  by apply pw_update_player.
Qed.

Lemma rs_all_states (s s' : Server) st :
  Forall2 R (players s) (players s') ->
  Forall2 R (players s) (players (set_all_states st s')).
Proof.
  intros Hs. eapply pw_trans; [exact R_trans|exact Hs|].
  apply pw_for_players; auto.
Qed.

Lemma rs_broadcast (s s' : Server) data info ps :
  broadcast data info (players s') = Some ps ->
  Forall2 R (players s) (players s') -> Forall2 R (players s) ps.
Proof.
  intros Hb Hs. eapply pw_trans; [exact R_trans|exact Hs|].
  eapply pw_broadcast; [exact R_refl|exact A_send|exact Hb].
Qed.

Lemma handle_message_rel s s' :
  handle_message n s = Some s' -> Forall2 R (players s) (players s').
Proof.
  unfold handle_message. intros Hm.
  apply bind_Some in Hm as (self & _ & Hm).
  apply bind_Some in Hm as (c & _ & Hm).
  destruct (conn_get c) as [line c'].
  assert (Forall2 R (players s) (players (upd n (set_conn (Some c')) s))) as H0.
  { apply rs_upd; [auto|by apply pw_refl]. }
  assert (Forall2 R (players s)
            (players (upd n (set_valid false) (upd n (set_conn (Some c')) s)))) as H1.
  { apply rs_upd; auto. }
  destruct (state self); try (by injection Hm as <-);
    repeat (match type of Hm with
            | (if ?b then _ else _) = _ => destruct b
            | _ ≫= _ = Some _ => apply bind_Some in Hm as (? & ? & Hm)
            end);
    try (by injection Hm as <-); injection Hm as <-.
  - apply rs_upd; [auto|]. eapply rs_broadcast; [eassumption|].
    apply rs_upd; [|done].
    intros p Hp. eapply R_trans; [|apply S_eligible; exact Hp]. by apply S_name.
  - apply rs_upd; [auto|]. exact H0.
  - apply rs_upd; [auto|]. exact H0.
  - apply rs_all_states. exact H1.
  - eapply rs_broadcast; [eassumption|]. apply rs_all_states.
    apply rs_upd; [|done].
    intros p Hp. eapply R_trans; [|apply S_selected; exact Hp]. by apply S_current.
  - apply rs_upd; [auto|]. eapply rs_broadcast; [eassumption|].
    apply rs_upd; [auto|done].
  - apply rs_upd; [|done].
    intros p Hp. eapply R_trans; [|apply S_state; exact Hp]. by apply S_selected.
  - apply rs_upd; [auto|]. exact H0.
Qed.

Lemma handle_state_rel s s' :
  handle_state n s = Some s' -> Forall2 R (players s) (players s').
Proof.
  unfold handle_state. intros (s1 & Hb & [= <-])%bind_Some.
  assert (Forall2 R (players s) (players (on_ver_check n s))) as H1.
  { unfold on_ver_check. case_match; [|by apply pw_refl].
    apply rs_upd; [|by apply pw_refl].
    intros p Hp. eapply R_trans; [|apply S_state; exact Hp]. by apply S_send. }
  assert (forall a, Forall2 R (players s) (players a) ->
                    Forall2 R (players s) (players (on_start_wait n a))) as H2.
  { intros a Ha. unfold on_start_wait. case_match; [|done]. apply rs_upd; auto. }
  assert (forall a, Forall2 R (players s) (players a) ->
                    Forall2 R (players s) (players (on_ver_wait n a))) as H3.
  { intros a Ha. unfold on_ver_wait. case_match; [|done]. apply rs_upd; auto. }
  assert (Forall2 R (players s) (players s1)) as H4.
  { unfold on_wait_self_card in Hb. case_match.
    - apply bind_Some in Hb as (ps & Hb & [= <-]).
      eapply rs_broadcast; [eassumption|]. apply rs_upd; auto.
    - injection Hb as <-. auto. }
  unfold on_wait_vote. case_match; [|done]. apply rs_upd; auto.
Qed.

Lemma flush_rel flow s s' :
  sockets s !! flow = Some n ->
  flush flow s = Some s' -> Forall2 R (players s) (players s').
Proof.
  unfold flush. intros -> Hf. simpl in Hf.
  apply bind_Some in Hf as (player & _ & Hf).
  apply bind_Some in Hf as (c & _ & Hf).
  destruct (buffer player); [done|]. injection Hf as <-.
  apply rs_upd; [|by apply pw_refl]. intros p Hp. by apply S_pop.
Qed.

End Sender.

(** The operations of a session that keep the roster: [R] has to hold for
    every assignment that the server makes to a player object. *)

Lemma dict_incr_nonneg k (r r' : gmap nat Z) :
  map_Forall (fun _ v => (0 <= v)%Z) r -> dict_incr k r = Some r' ->
  map_Forall (fun _ v => (0 <= v)%Z) r'.
Proof.
  unfold dict_incr. intros Hr (v & Hv & [= <-])%bind_Some k' v'.
  destruct (decide (k' = k)) as [->|Hne].
  - rewrite lookup_insert_eq. intros [= <-]. specialize (Hr _ _ Hv). simpl in Hr. lia.
  - rewrite lookup_insert_ne by done. apply Hr.
Qed.

Lemma foldM_invariant {A B} (P : A -> Prop) (step : A -> B -> option A) l a a' :
  (forall a x a', P a -> step a x = Some a' -> P a') ->
  P a -> foldM step a l = Some a' -> P a'.
Proof.
  intros Hstep. revert a. induction l as [|x l IH]; intros a Ha; simpl.
  - by intros [= <-].
  - intros (a1 & H1 & Hl)%bind_Some. eauto.
Qed.

Lemma count_votes_nonneg cp vs (r r' : gmap nat Z) :
  map_Forall (fun _ v => (0 <= v)%Z) r -> count_votes cp vs r = Some r' ->
  map_Forall (fun _ v => (0 <= v)%Z) r'.
Proof.
  unfold count_votes. apply foldM_invariant. intros a i a' Ha.
  apply foldM_invariant; [|done]. intros b p b' Hb.
  repeat case_match; try (by intros [= <-]). by apply dict_incr_nonneg.
Qed.

Lemma result_init_nonneg (vs : list Player) :
  map_Forall (fun _ v => (0 <= v)%Z)
    (list_to_map (map (fun p => (number p, 0%Z)) vs) : gmap nat Z).
Proof.
  intros k v Hk. apply elem_of_list_to_map_2 in Hk.
  apply list_elem_of_fmap in Hk as (p & [= _ ->] & _). done.
Qed.

Section Session.
Variable R : Player -> Player -> Prop.
Hypothesis R_refl : forall p, R p p.
Hypothesis R_trans : forall p q r, R p q -> R q r -> R p r.
Hypothesis U_state : forall x p, R p (set_state x p).
Hypothesis U_conn : forall c p, R p (set_conn (Some c) p).
Hypothesis U_invalid : forall p, R p (set_valid false p).
Hypothesis U_name : forall x p, R p (set_name x p).
Hypothesis U_eligible : forall p, R p (set_get_broadcast true p).
Hypothesis U_current : forall x p, R p (set_current_card x p).
Hypothesis U_selected : forall x p, R p (set_selected_card x p).
Hypothesis U_send : forall m p, R p (send_message m p).
Hypothesis U_pop : forall m rest c p,
  R p (set_has_buffer (0 <? length rest)
         (set_buffer rest (set_conn (Some (conn_send m c)) p))).
Hypothesis U_cards : forall x p, R p (set_cards x p).
Hypothesis U_turn : forall b p, R p (set_has_turn b p).
Hypothesis U_score : forall d p, (0 <= d)%Z -> R p (set_score (score p + d)%Z p).

Lemma handle_input_rel flow s s' :
  handle_input flow s = Some s' -> Forall2 R (players s) (players s').
Proof.
  unfold handle_input. intros (n & _ & Hm)%bind_Some.
  eapply (handle_message_rel R n); eauto.
Qed.

Lemma flush_any_rel flow s s' :
  flush flow s = Some s' -> Forall2 R (players s) (players s').
Proof.
  intros Hf. destruct (sockets s !! flow) as [n|] eqn:E.
  - eapply (flush_rel R n); eauto.
  - unfold flush in Hf. by rewrite E in Hf.
Qed.

Lemma handle_states_rel s s' :
  handle_states s = Some s' -> Forall2 R (players s) (players s').
Proof.
  unfold handle_states. intros Hf. eapply pw_foldM; [done|done| |exact Hf].
  intros a n a' Ha. cbv beta in Ha.
  destruct (self_is n valid id a).
  - eapply (handle_state_rel R n); eauto.
  - injection Ha as <-. by apply pw_refl.
Qed.

Lemma comm_rel cmdline s :
  Forall2 R (players s) (players (comm_start cmdline s)) /\
  Forall2 R (players s) (players (comm_end s)) /\
  Forall2 R (players s) (players (comm_stop s)).
Proof.
  unfold comm_start, comm_end, comm_stop. split; [|split].
  - repeat case_match; by apply pw_refl.
  - case_match; [|by apply pw_refl]. simpl. apply pw_for_players; auto.
  - by apply pw_refl.
Qed.

Lemma begin_game_rel shuffle s s' :
  begin_game shuffle s = Some s' -> Forall2 R (players s) (players s').
Proof.
  unfold begin_game. intros ([deck ps] & Hd & [= <-])%bind_Some. simpl.
  eapply pw_for_players_st; [done| |exact Hd].
  intros a p a' p' _ [= <- <-]. auto.
Qed.

Lemma calculate_result_rel s s' :
  calculate_result s = Some s' -> Forall2 R (players s) (players s').
Proof.
  unfold calculate_result. intros Hc.
  apply bind_Some in Hc as (cp & _ & Hc).
  apply bind_Some in Hc as (cur & _ & Hc).
  apply bind_Some in Hc as (result & Hres & Hc).
  apply bind_Some in Hc as (correct & _ & Hc).
  assert (forall p, R p (set_score (score p + 3)%Z p)) as K3 by (intros; by apply U_score).
  apply count_votes_nonneg in Hres; [|apply result_init_nonneg].
  destruct (bool_decide (correct = _)).
  - injection Hc as <-. simpl. apply pw_for_players; [done|].
    intros p _. destruct (is_not p cp); auto.
  - apply bind_Some in Hc as (ps & Hps & [= <-]). simpl.
    match type of Hps with
    | for_players_opt _ (players ?s1) = _ =>
        assert (Forall2 R (players s) (players s1)) as H1
    end.
    { destruct (negb _); [|by apply pw_refl]. simpl.
      eapply pw_trans; [done| |apply pw_update_player; auto].
      apply pw_for_players; [done|].
      intros p _. destruct (is_not p cp); [|done]. destruct (bool_decide _); auto. }
    eapply pw_trans; [done|exact H1|].
    eapply pw_for_players_opt; [done| |exact Hps].
    intros p p' _ (r & Hr & [= <-])%bind_Some. apply U_score. by eapply Hres.
Qed.

Lemma on_sync_next_turn_rel s s' :
  on_sync_next_turn s = Some s' -> Forall2 R (players s) (players s').
Proof.
  unfold on_sync_next_turn. intros (s1 & H1 & Hf)%bind_Some.
  assert (Forall2 R (players s) (players s1)) as Hs1.
  { match type of H1 with
    | (if _ then _ else Some ?s0) = _ =>
        assert (Forall2 R (players s) (players s0)) as H0
    end.
    { simpl. apply pw_for_players; auto. }
    destruct (_ <=? _).
    - apply bind_Some in H1 as ([deck ps] & Hd & [= <-]). simpl.
      eapply pw_trans; [done|exact H0|].
      eapply pw_for_players_st; [done| |exact Hd].
      intros a p a' p' _. unfold deal_one. destruct a; [done|]. intros [= <- <-]. auto.
    - by injection H1 as <-. }
  unfold finish_turn in Hf. apply bind_Some in Hf as (first & _ & Hf).
  destruct (0 <? _).
  - injection Hf as <-. simpl. eapply pw_trans; [done|exact Hs1|].
    apply pw_for_players; [done|]. intros p _. eapply R_trans; [|apply U_state]. auto.
  - apply bind_Some in Hf as (ps & Hb & [= <-]). simpl.
    eapply pw_trans; [done|exact Hs1|].
    eapply pw_trans; [done|eapply pw_broadcast; [done| |exact Hb]; auto|].
    apply pw_for_players; auto.
Qed.

Lemma global_operations_rel shuffle rnd s s' :
  global_operations shuffle rnd s = Some s' -> Forall2 R (players s) (players s').
Proof.
  unfold global_operations. intros (s1 & Hr & Hg)%bind_Some.
  assert (Forall2 R (players s) (players s1)) as H1.
  { unfold recover in Hr.
    destruct (current_player s); [|injection Hr as <-; by apply pw_refl].
    apply bind_Some in Hr as (ok & _ & [= <-]). destruct ok; [by apply pw_refl|].
    simpl. apply pw_for_players; auto. }
  eapply pw_trans; [done|exact H1|]. clear Hr H1 s. rename s1 into s.
  destruct (get_sync_state s) as [[]|]; try (injection Hg as <-; by apply pw_refl).
  - unfold on_begin_sync in Hg.
    destruct (0 <? _); [|injection Hg as <-; by apply pw_refl].
    apply bind_Some in Hg as (s1 & Hb & Hg).
    apply bind_Some in Hg as (r & _ & Hg).
    apply bind_Some in Hg as (start & _ & Hg).
    apply bind_Some in Hg as (cp & _ & [= <-]). simpl.
    eapply pw_trans; [done|by eapply begin_game_rel|].
    apply pw_for_players; [done|]. intros p _. eapply R_trans; [apply U_state|]. auto.
  - unfold on_turn_sync in Hg.
    apply bind_Some in Hg as (cp & _ & Hg).
    apply bind_Some in Hg as (n & _ & Hg).
    apply bind_Some in Hg as (ps & Hb & [= <-]). simpl in *.
    eapply pw_trans; [done| |eapply pw_broadcast; [done| |exact Hb]; auto].
    apply pw_for_players; [done|]. intros p _. eapply R_trans; [|apply U_state]. auto.
  - unfold on_self_sync in Hg. apply bind_Some in Hg as (ps & Hb & [= <-]). simpl.
    eapply pw_trans; [done|eapply pw_broadcast; [done| |exact Hb]; auto|].
    apply pw_for_players; auto.
  - unfold on_vote_sync in Hg.
    apply bind_Some in Hg as (s1 & Hc & Hg).
    apply bind_Some in Hg as (cp & _ & Hg).
    apply bind_Some in Hg as (cur & _ & Hg).
    apply bind_Some in Hg as (ps & Hb & [= <-]). simpl.
    eapply pw_trans; [done|by apply calculate_result_rel|].
    eapply pw_trans; [done|eapply pw_broadcast; [done| |exact Hb]; auto|].
    apply pw_for_players; auto.
  - by apply on_sync_next_turn_rel.
Qed.

End Session.

Lemma check_rel_any (R : Player -> Player -> Prop) s s' :
  (forall p, R p p) -> (forall m p, R p (send_message m p)) ->
  check s = Some s' ->
  players s' = players s \/
  exists i p, players s !! i = Some p /\ Forall2 R (delete i (players s)) (players s').
Proof.
  intros R_refl U_send Hc. unfold check in Hc.
  apply bind_Some in Hc as (d & Hd & Hc). destruct d as [i|].
  2:{ injection Hc as <-. by left. }
  right. exists i.
  apply bind_Some in Hc as (p & Hp & Hc). exists p. split; [done|].
  apply bind_Some in Hc as (flushed & _ & Hc).
  apply bind_Some in Hc as (? & _ & Hc). simpl in Hc.
  destruct (bool_decide (status p = MASTER) && bool_decide (game_state s = PLAYER_CONN));
    simpl in Hc.
  - injection Hc as <-. simpl. by apply pw_refl.
  - case_bool_decide.
    + injection Hc as <-. simpl. apply pw_for_players; [done|].
      intros q _. destruct (get_broadcast q); auto.
    + injection Hc as <-. simpl. by apply pw_refl.
Qed.

Lemma Forall2_origin {A} (R : A -> A -> Prop) (l l' : list A) x' :
  Forall2 R l l' -> x' ∈ l' -> exists x, x ∈ l /\ R x x'.
Proof.
  intros H2 (i & Hi)%list_elem_of_lookup.
  destruct (Forall2_lookup_r _ _ _ _ _ H2 Hi) as (x & Hx & HR).
  exists x. split; [by eapply list_elem_of_lookup_2|done].
Qed.

(** Where the players of the roster come from, after one operation of the
    session. *)
Lemma step_origin (R : Player -> Player -> Prop) s s' p' :
  (forall p, R p p) -> (forall p q r, R p q -> R q r -> R p r) ->
  (forall x p, R p (set_state x p)) ->
  (forall c p, R p (set_conn (Some c) p)) ->
  (forall p, R p (set_valid false p)) ->
  (forall x p, R p (set_name x p)) ->
  (forall p, R p (set_get_broadcast true p)) ->
  (forall x p, R p (set_current_card x p)) ->
  (forall x p, R p (set_selected_card x p)) ->
  (forall m p, R p (send_message m p)) ->
  (forall m rest c p,
     R p (set_has_buffer (0 <? length rest)
            (set_buffer rest (set_conn (Some (conn_send m c)) p)))) ->
  (forall x p, R p (set_cards x p)) ->
  (forall b p, R p (set_has_turn b p)) ->
  (forall d p, (0 <= d)%Z -> R p (set_score (score p + d)%Z p)) ->
  step s s' -> p' ∈ players s' ->
  (exists p, p ∈ players s /\ R p p') \/
  (exists sock,
     p' = new_player sock (if have_master s then PLAYER else MASTER) (seq_number s) /\
     seq_number s' = seq_number s + 1).
Proof.
  intros R_refl R_trans U1 U2 U3 U4 U5 U6 U7 U8 U9 U10 U11 U12 Hstep Hin.
  assert (forall a b, Forall2 R (players a) (players b) -> p' ∈ players b ->
            exists p, p ∈ players a /\ R p p') as Hkept.
  { intros a b Hab Hb. by eapply Forall2_origin. }
  destruct Hstep as [flow s s' Hf|flow s s' Hi|sock s Hfresh|s s' Hs|sh rnd s s' Hg
                    |s s' Hc|cmdline s|s|s].
  - left. eapply Hkept; [|done]. eapply (flush_any_rel R); eauto.
  - left. eapply Hkept; [|done]. eapply (handle_input_rel R); eauto.
  - unfold accept_connection in *.
    destruct (bool_decide (game_state s = PLAYER_CONN));
      [destruct (len_players (players s) <? 7)|];
      try (left; exists p'; by split).
    simpl in Hin. apply elem_of_app in Hin as [Hin|Hin%list_elem_of_singleton].
    + left. exists p'. by split.
    + right. exists sock. split; [done|]. simpl. lia.
  - left. eapply Hkept; [|done]. eapply (handle_states_rel R); eauto.
  - left. eapply Hkept; [|done]. eapply (global_operations_rel R); eauto.
  - left. destruct (check_rel_any R s s') as [E|(i & p & Hp & Hdel)]; auto.
    + exists p'. split; [by rewrite <- E|done].
    + destruct (Forall2_origin _ _ _ _ Hdel Hin) as (q & Hq & HR).
      exists q. split; [by eapply list_elem_of_delete_inv|done].
  - left. eapply Hkept; [|done]. apply (comm_rel R R_refl U10 cmdline s).
  - left. eapply Hkept; [|done]. apply (comm_rel R R_refl U10 [] s).
  - left. eapply Hkept; [|done]. apply (comm_rel R R_refl U10 [] s).
Qed.

(** *** What a session never takes back *)

Lemma later_refl p : later p p.
Proof. split; [apply same_ids_refl|]. split; [done|]. split; [lia|]. by split. Qed.

Lemma later_trans p q r : later p q -> later q r -> later p r.
Proof.
  intros (?&?&?&?&?) (?&?&?&?&?). split; [by eapply same_ids_trans|].
  split; [auto|]. split; [lia|]. split; auto.
Qed.

Ltac later_setter :=
  intros; split; [unfold same_ids; simpl; repeat split; auto|];
  unfold queue_ok; simpl;
  split; [try done; auto|]; split; [try lia|]; split; [try done; auto|]; try tauto.

Lemma later_state x p : later p (set_state x p).
Proof. later_setter. Qed.
Lemma later_conn c p : later p (set_conn (Some c) p).
Proof. later_setter. Qed.
Lemma later_invalid p : later p (set_valid false p).
Proof. later_setter. Qed.
Lemma later_name x p : later p (set_name x p).
Proof. later_setter. Qed.
Lemma later_eligible p : later p (set_get_broadcast true p).
Proof. later_setter. Qed.
Lemma later_current x p : later p (set_current_card x p).
Proof. later_setter. Qed.
Lemma later_selected x p : later p (set_selected_card x p).
Proof. later_setter. Qed.
Lemma later_send m p : later p (send_message m p).
Proof. later_setter. intros _. split; [|done]. intros _ E. by destruct (buffer p). Qed.
Lemma later_pop m rest c p :
  later p (set_has_buffer (0 <? length rest)
             (set_buffer rest (set_conn (Some (conn_send m c)) p))).
Proof.
  later_setter. intros _. by destruct rest.
Qed.
Lemma later_cards x p : later p (set_cards x p).
Proof. later_setter. Qed.
Lemma later_turn b p : later p (set_has_turn b p).
Proof. later_setter. Qed.
Lemma later_score d p : (0 <= d)%Z -> later p (set_score (score p + d)%Z p).
Proof. later_setter. Qed.

Lemma step_later s s' p' :
  step s s' -> p' ∈ players s' ->
  (exists p, p ∈ players s /\ later p p') \/
  (exists sock,
     p' = new_player sock (if have_master s then PLAYER else MASTER) (seq_number s) /\
     seq_number s' = seq_number s + 1).
Proof.
  apply (step_origin later);
    auto using later_refl, later_state, later_conn, later_invalid, later_name,
      later_eligible, later_current, later_selected, later_send, later_pop,
      later_cards, later_turn, later_score.
  apply later_trans.
Qed.





Lemma reachable_fresh s p :
  reachable s -> p ∈ players s ->
  exists sock st n, later (new_player sock st n) p.
Proof.
  intros Hr. revert p. induction Hr as [|s s' _ IH Hstep]; intros p Hp.
  - simpl in Hp. by apply elem_of_nil in Hp.
  - destruct (step_later s s' p Hstep Hp) as [(p0 & Hp0 & Hl)|(sock & -> & _)].
    + destruct (IH p0 Hp0) as (sock & st & n & H0).
      exists sock, st, n. by eapply later_trans.
    + eexists _, _, _. apply later_refl.
Qed.

(** X5.  In a session, for every player of the roster, [has_buffer] is set
    exactly when the output queue is not empty, and the score is not
    negative. *)
Theorem reachable_queue_flag (s : Server) (p : Player) :
  reachable s -> p ∈ players s ->
  (has_buffer p = true <-> buffer p <> []) /\ (0 <= score p)%Z.
Proof.
  intros Hr Hp. destruct (reachable_fresh s p Hr Hp) as (sock & st & n & Hl).
  destruct Hl as (_ & _ & Hs & _ & Hq). split; [|exact Hs].
  apply Hq. unfold queue_ok. simpl. split; done.
Qed.

(** *** The lookup and the queues in a session *)

Lemma find_player_elem (ps : list Player) p :
  NoDup (map number ps) -> p ∈ ps -> find_player (number p) ps = Some p.
Proof.
  unfold find_player. induction ps as [|q ps IH]; simpl.
  - by intros _ ?%elem_of_nil.
  - intros [Hq Hnd]%NoDup_cons [->|Hin]%elem_of_cons.
    + by rewrite Nat.eqb_refl.
    + destruct (Nat.eqb_spec (number q) (number p)) as [E|_]; [|auto].
      destruct Hq. rewrite E. by apply list_elem_of_fmap_2.
Qed.

Lemma elem_of_delete_other {A} (l : list A) i x y :
  l !! i = Some x -> y ∈ l -> y <> x -> y ∈ delete i l.
Proof.
  intros Hi Hy Hne. rewrite delete_take_drop.
  rewrite <- (take_drop_middle _ _ _ Hi) in Hy.
  apply elem_of_app in Hy as [Hy|[->|Hy]%elem_of_cons]; [| done |];
    apply elem_of_app; auto.
Qed.

Lemma reachable_lookup s k n :
  reachable s -> sockets s !! k = Some n ->
  exists p, p ∈ players s /\ player_socket p = k /\ number p = n.
Proof.
  intros Hr. revert k n. induction Hr as [|s s' Hr IH Hstep]; intros k n Hk.
  - simpl in Hk. by rewrite lookup_empty in Hk.
  - assert (forall a b, roster_kept a b ->
              (forall k n, sockets a !! k = Some n ->
                 exists p, p ∈ players a /\ player_socket p = k /\ number p = n) ->
              sockets b !! k = Some n ->
              exists p, p ∈ players b /\ player_socket p = k /\ number p = n) as Hkept.
    { intros a b (Hab & Es & _) Ha Hb. rewrite Es in Hb.
      destruct (Ha _ _ Hb) as (p & (i & Hi)%list_elem_of_lookup & <- & <-).
      destruct (Forall2_lookup_l _ _ _ _ _ Hab Hi) as (p' & Hp' & (? & _ & ? & _)).
      exists p'. split; [by eapply list_elem_of_lookup_2|done]. }
    destruct Hstep as [flow s s' Hf|flow s s' Hi|sock s Hfresh|s s' Hs|sh rnd s s' Hg
                      |s s' Hc|cmdline s|s|s].
    + eapply Hkept; [by eapply flush_keeps|done|done].
    + eapply Hkept; [by eapply handle_input_keeps|done|done].
    + unfold accept_connection in *.
      destruct (bool_decide (game_state s = PLAYER_CONN));
        [destruct (len_players (players s) <? 7)|]; try (by apply IH).
      simpl in *. destruct (decide (k = sock)) as [->|Hne].
      * rewrite lookup_insert_eq in Hk. injection Hk as <-.
        eexists. split; [apply elem_of_app; right; by apply list_elem_of_singleton|done].
      * rewrite lookup_insert_ne in Hk by done.
        destruct (IH _ _ Hk) as (p & Hp & ?). exists p. split; [|done].
        apply elem_of_app. by left.
    + eapply Hkept; [by eapply handle_states_keeps|done|done].
    + eapply Hkept; [by eapply global_operations_keeps|done|done].
    + destruct (first_dead 0 (players s)) as [[i|]|] eqn:Hd.
      * destruct (check_removes _ _ _ Hd Hc)
          as (p & ps1 & Hp & _ & <- & _ & _ & Esock & _ & Hdel & _).
        rewrite Esock in Hk. apply lookup_delete_Some in Hk as [Hne Hk].
        destruct (IH _ _ Hk) as (q & Hq & <- & <-).
        assert (q ∈ delete i (players s)) as (j & Hj)%list_elem_of_lookup.
        { eapply elem_of_delete_other; [exact Hp|done|]. intros ->. done. }
        destruct (Forall2_lookup_l _ _ _ _ _ Hdel Hj) as (q' & Hq' & (? & _ & ? & _)).
        exists q'. split; [by eapply list_elem_of_lookup_2|done].
      * unfold check in Hc. rewrite Hd in Hc. injection Hc as <-. by apply IH.
      * unfold check in Hc. by rewrite Hd in Hc.
    + apply (Hkept s (comm_start cmdline s)); [apply comm_keeps|done|done].
    + apply (Hkept s (comm_end s)); [apply (comm_keeps [])|done|done].
    + apply (Hkept s (comm_stop s)); [apply (comm_keeps [])|done|done].
Qed.

(** X6.  In a session the dictionary [PlayerList.sockets] holds exactly the
    sockets of the players of the roster, each with its own player.  So the
    lookups [self.players.sockets[flow]] of the main loop find a player of
    the roster, and that player has a connection. *)
Theorem lookup_is_roster (s : Server) (k : Sock) (n : nat) :
  reachable s ->
  (sockets s !! k = Some n <->
   exists p, p ∈ players s /\ player_socket p = k /\ number p = n) /\
  (sockets s !! k = Some n ->
   exists p, find_player n (players s) = Some p /\ player_socket p = k /\
             is_Some (conn p)).
Proof.
  intros Hr. pose proof (reachable_wf s Hr) as [Hn _ Hall _].
  rewrite Forall_forall in Hall. split; [split|].
  - by apply reachable_lookup.
  - intros (p & Hp & <- & <-). by destruct (Hall p Hp) as (_ & _ & ? & _).
  - intros Hk. destruct (reachable_lookup s k n Hr Hk) as (p & Hp & Hs & <-).
    exists p. split; [by apply find_player_elem|]. split; [done|].
    by destruct (Hall p Hp) as (_ & ? & _).
Qed.

Lemma flush_ready_at (s : Server) (p : Player) :
  reachable s -> p ∈ players s -> has_buffer p = true ->
  exists m rest c,
    buffer p = m :: rest /\ conn p = Some c /\
    flush (player_socket p) s
    = Some (upd (number p)
              (fun q => set_has_buffer (0 <? length rest)
                          (set_buffer rest (set_conn (Some (conn_send m c)) q))) s).
Proof.
  intros Hr Hp Hb. pose proof (reachable_wf s Hr) as [Hn _ Hall _].
  rewrite Forall_forall in Hall. destruct (Hall p Hp) as (_ & [c Hc] & Hs & _).
  destruct (reachable_fresh s p Hr Hp) as (sock & st & n & (_ & _ & _ & _ & Hq)).
  assert (queue_ok p) as Hok by (apply Hq; unfold queue_ok; simpl; by split).
  apply Hok in Hb. destruct (buffer p) as [|m rest] eqn:E; [done|].
  exists m, rest, c. split; [done|]. split; [done|].
  unfold flush. rewrite Hs. simpl. rewrite (find_player_elem _ _ Hn Hp). simpl.
  rewrite Hc. simpl. by rewrite E.
Qed.

(** X7.  "Push buffers" does not raise in a session: a player of the roster
    whose [has_buffer] is set has a message queued, and the step sends the
    first message of the queue on the connection, keeps the others queued
    and sets [has_buffer] according to what is left. *)
Theorem flush_ready (s : Server) (p : Player) :
  reachable s -> p ∈ players s -> has_buffer p = true ->
  exists m rest c,
    buffer p = m :: rest /\ conn p = Some c /\
    flush (player_socket p) s
    = Some (upd (number p)
              (fun q => set_has_buffer (0 <? length rest)
                          (set_buffer rest (set_conn (Some (conn_send m c)) q))) s).
Proof. apply flush_ready_at. Qed.

(** *** [Player.handle_message] *)

Lemma handle_message_None (n : nat) (s : Server) (self : Player)
    (c c' : connection) (line : string) :
  find_player n (players s) = Some self ->
  conn self = Some c ->
  conn_get c = (line, c') ->
  (handle_message n s = None <->
   py_isnumeric (tok 1 (py_split line)) = true /\
   py_int (tok 1 (py_split line)) = None /\
   ((state self = WAIT_ASSOC /\ has_turn self = true /\
     3 <= length (py_split line) /\ tok 0 (py_split line) = "TURN") \/
    ((state self = WAIT_SELF_CARD \/ state self = WAIT_VOTE) /\
     has_turn self = false /\
     2 <= length (py_split line) /\ tok 0 (py_split line) = "CARD"))).
Proof.
  intros Hf Hc Hg. unfold handle_message. rewrite Hf. simpl. rewrite Hc. simpl.
  rewrite Hg. set (res := py_split line).
  destruct (state self) eqn:Est; simpl;
    try (split;
         [intros Hn; repeat case_match; discriminate
         |intros (_ & _ & [(? & _)|([?|?] & _)]); discriminate]).
  - (* WAIT_ASSOC *)
    destruct (has_turn self) eqn:Et; simpl.
    2:{ split; [discriminate|]. intros (_ & _ & [(_ & ? & _)|([?|?] & _)]); discriminate. }
    destruct (length res <? 3) eqn:El; simpl.
    { apply Nat.ltb_lt in El. split; [discriminate|].
      intros (_ & _ & [(_ & _ & ? & _)|([?|?] & _)]); [lia|discriminate..]. }
    destruct (String.eqb (tok 0 res) "TURN") eqn:E0; simpl.
    2:{ apply String.eqb_neq in E0. split; [discriminate|].
        intros (_ & _ & [(_ & _ & _ & ?)|([?|?] & _)]); [done|discriminate..]. }
    destruct (py_isnumeric (tok 1 res)) eqn:E1; simpl.
    2:{ split; [discriminate|]. by intros (? & _). }
    apply Nat.ltb_ge in El. apply String.eqb_eq in E0.
    destruct (py_int (tok 1 res)) eqn:Ei; simpl.
    + split; [discriminate|]. by intros (_ & ? & _).
    + split; [|done]. intros _. split; [done|]. split; [done|]. left. by repeat split.
  - (* WAIT_SELF_CARD *)
    destruct (has_turn self) eqn:Et; simpl.
    { split; [discriminate|]. intros (_ & _ & [(? & _)|(_ & ? & _)]); discriminate. }
    destruct (length res <? 2) eqn:El; simpl.
    { apply Nat.ltb_lt in El. split; [discriminate|].
      intros (_ & _ & [(? & _)|(_ & _ & ? & _)]); [discriminate|lia]. }
    destruct (String.eqb (tok 0 res) "CARD") eqn:E0; simpl.
    2:{ apply String.eqb_neq in E0. split; [discriminate|].
        intros (_ & _ & [(? & _)|(_ & _ & _ & ?)]); [discriminate|done]. }
    destruct (py_isnumeric (tok 1 res)) eqn:E1; simpl.
    2:{ split; [discriminate|]. by intros (? & _). }
    apply Nat.ltb_ge in El. apply String.eqb_eq in E0.
    destruct (py_int (tok 1 res)) eqn:Ei; simpl.
    + split; [discriminate|]. by intros (_ & ? & _).
    + split; [|done]. intros _. split; [done|]. split; [done|]. right.
      split; [by left|]. by repeat split.
  - (* WAIT_VOTE *)
    destruct (has_turn self) eqn:Et; simpl.
    { split; [discriminate|]. intros (_ & _ & [(? & _)|(_ & ? & _)]); discriminate. }
    destruct (length res <? 2) eqn:El; simpl.
    { apply Nat.ltb_lt in El. split; [discriminate|].
      intros (_ & _ & [(? & _)|(_ & _ & ? & _)]); [discriminate|lia]. }
    destruct (String.eqb (tok 0 res) "CARD") eqn:E0; simpl.
    2:{ apply String.eqb_neq in E0. split; [discriminate|].
        intros (_ & _ & [(? & _)|(_ & _ & _ & ?)]); [discriminate|done]. }
    destruct (py_isnumeric (tok 1 res)) eqn:E1; simpl.
    2:{ split; [discriminate|]. by intros (? & _). }
    apply Nat.ltb_ge in El. apply String.eqb_eq in E0.
    destruct (py_int (tok 1 res)) eqn:Ei; simpl.
    + split; [discriminate|]. by intros (_ & ? & _).
    + split; [|done]. intros _. split; [done|]. split; [done|]. right.
      split; [by right|]. by repeat split.
Qed.

(** X8.  When [handle_message] raises.  For a player that has a connection,
    [handle_message] raises exactly when the second token of the line passes
    [str.isnumeric] and [int()] rejects it, because one of its characters
    is numeric without being a decimal digit (a superscript, a fraction) or
    because it has more than 4300 digits, in one of two situations: the line
    is a clue, [TURN] with at least three tokens, of the storyteller in
    [WAIT_ASSOC]; or it is [CARD] with at least two tokens, of another
    player in [WAIT_SELF_CARD] or [WAIT_VOTE].  Every other line is
    handled.  (The calls of the connection object are taken to return.) *)
Theorem handle_message_raises (n : nat) (s : Server) (self : Player)
    (c c' : connection) (line : string) :
  find_player n (players s) = Some self ->
  conn self = Some c ->
  conn_get c = (line, c') ->
  (handle_message n s = None <->
   py_isnumeric (tok 1 (py_split line)) = true /\
   py_int (tok 1 (py_split line)) = None /\
   ((state self = WAIT_ASSOC /\ has_turn self = true /\
     3 <= length (py_split line) /\ tok 0 (py_split line) = "TURN") \/
    ((state self = WAIT_SELF_CARD \/ state self = WAIT_VOTE) /\
     has_turn self = false /\
     2 <= length (py_split line) /\ tok 0 (py_split line) = "CARD"))).
Proof. apply handle_message_None. Qed.

Lemma two_tokens (res : list string) :
  length res = 2 -> res = [tok 0 res; tok 1 res].
Proof. by destruct res as [|a [|b [|]]]. Qed.

(** X9.  Only the master starts the game.  A message that is handled changes
    the phase or the card set only when it is [START_GAME <set>], of exactly
    two tokens, sent by a [MASTER] in [START_WAIT]: the phase then becomes
    [GAME] whatever it was, the card set becomes [<set>] and the sender goes
    to [BEGIN_SYNC].  Any other message leaves the phase and the card set
    as they are. *)
Theorem only_master_starts (n : nat) (s s' : Server) (self : Player)
    (c c' : connection) (line : string) :
  find_player n (players s) = Some self ->
  conn self = Some c ->
  conn_get c = (line, c') ->
  handle_message n s = Some s' ->
  (status self = MASTER /\ state self = START_WAIT /\
   (exists x, py_split line = ["START_GAME"; x] /\ card_set s' = x) /\
   game_state s' = GAME /\
   players s' = update_player n (set_state BEGIN_SYNC)
                  (update_player n (set_conn (Some c')) (players s))) \/
  (~ (status self = MASTER /\ state self = START_WAIT /\
      exists x, py_split line = ["START_GAME"; x]) /\
   game_state s' = game_state s /\ card_set s' = card_set s).
Proof.
  intros Hf Hc Hg. unfold handle_message. rewrite Hf. simpl. rewrite Hc. simpl.
  rewrite Hg. set (res := py_split line).
  destruct (state self) eqn:Est; simpl;
    try (intros Hm; right; split; [by intros (_ & ? & _)|];
         repeat case_match; simplify_eq; try done;
         apply bind_Some in Hm as (? & _ & [= <-]); done).
  (* START_WAIT *)
  case_bool_decide as Hst; simpl.
  2:{ intros [= <-]. right. split; [by intros (? & _)|done]. }
  destruct (length res =? 2) eqn:El; simpl.
  2:{ intros [= <-]. right. split; [|done]. intros (_ & _ & x & Hx).
      apply Nat.eqb_neq in El. subst res. by rewrite Hx in El. }
  destruct (String.eqb (tok 0 res) "START_GAME") eqn:E0; simpl.
  2:{ intros [= <-]. right. split; [|done]. intros (_ & _ & x & Hx).
      apply String.eqb_neq in E0. subst res. by rewrite Hx in E0. }
  intros [= <-]. left. apply Nat.eqb_eq in El. apply String.eqb_eq in E0.
  split; [done|]. split; [done|]. split; [|done].
  exists (tok 1 res). split; [|done].
  rewrite <- E0. by apply two_tokens.
Qed.

Lemma handle_message_frame n s s' :
  handle_message n s = Some s' ->
  set_card_set "" (set_game_state PLAYER_CONN (set_players [] s'))
  = set_card_set "" (set_game_state PLAYER_CONN (set_players [] s)).
Proof.
  unfold handle_message. intros Hm.
  apply bind_Some in Hm as (self & _ & Hm).
  apply bind_Some in Hm as (c & _ & Hm).
  destruct (conn_get c) as [line c'].
  destruct (state self); try (by injection Hm as <-);
    repeat (match type of Hm with
            | (if ?b then _ else _) = _ => destruct b
            | _ ≫= _ = Some _ => apply bind_Some in Hm as (? & ? & Hm)
            end);
    try (by injection Hm as <-); by injection Hm as <-.
Qed.

(** X10.  What a message can change.  [handle_message] of the player [n]
    changes no number, status, socket, score, hand or turn flag, and makes
    no player valid; of the players other than [n] it changes nothing but
    the state and the output queue, so only the sender can be invalidated;
    and of the server it changes nothing but the phase, the card set and the
    roster. *)
Theorem handle_message_footprint (n : nat) (s s' : Server) :
  handle_message n s = Some s' ->
  Forall2
    (fun p p' =>
       number p' = number p /\ status p' = status p /\
       player_socket p' = player_socket p /\ score p' = score p /\
       cards p' = cards p /\ has_turn p' = has_turn p /\
       (valid p' = true -> valid p = true) /\
       (number p <> n ->
        valid p' = valid p /\ name p' = name p /\
        get_broadcast p' = get_broadcast p /\ conn p' = conn p /\
        current_card p' = current_card p /\ selected_card p' = selected_card p))
    (players s) (players s') /\
  set_card_set "" (set_game_state PLAYER_CONN (set_players [] s'))
  = set_card_set "" (set_game_state PLAYER_CONN (set_players [] s)).
Proof.
  intros Hm. split; [|by eapply handle_message_frame].
  eapply (handle_message_rel _ n); [..|exact Hm]; simpl.
  all: try (intros; simpl; repeat split; auto; done).
  intros p q r (?&?&?&?&?&?&?&Hpq) (?&?&?&?&?&?&?&Hqr).
  repeat split; try congruence; auto;
    match goal with
    | Hne : number _ <> _ |- _ =>
        destruct (Hpq Hne) as (?&?&?&?&?&?); destruct Hqr as (?&?&?&?&?&?); congruence
    end.
Qed.

(** *** [GameServer.global_operations] *)

Lemma for_players_compose f g (ps : list Player) :
  (forall p, valid (g p) = valid p) ->
  for_players f (for_players g ps) = for_players (fun p => f (g p)) ps.
Proof.
  intros Hg. unfold for_players. rewrite <- list_fmap_compose.
  apply list_fmap_ext. intros _ p _. simpl.
  destruct (valid p) eqn:E; [by rewrite Hg, E|by rewrite E].
Qed.

Lemma valid_for_players f (ps : list Player) :
  (forall p, valid (f p) = valid p) ->
  valid_players (for_players f ps) = map f (valid_players ps).
Proof.
  intros Hf. unfold valid_players, for_players.
  induction ps as [|p ps IH]; simpl; [done|].
  destruct (valid p) eqn:E; simpl.
  - by rewrite Hf, E, IH.
  - by rewrite E, IH.
Qed.

Lemma barrier_nonempty s st : get_sync_state s = Some st -> 0 < len_players (players s).
Proof.
  intros [Hne _]%get_sync_state_from_None. unfold len_players.
  destruct (valid_players (players s)); [done|simpl; lia].
Qed.

Lemma recover_frame s s1 :
  recover s = Some s1 ->
  set_players [] s1 = set_players [] s /\
  (s1 = s \/ players s1 = for_players (set_state TURN_SYNC) (players s)).
Proof.
  unfold recover. destruct (current_player s); [|intros [= <-]; auto].
  intros (ok & _ & [= <-])%bind_Some. destruct ok; auto.
Qed.

Lemma calculate_result_frame s s' :
  calculate_result s = Some s' -> set_players [] s' = set_players [] s.
Proof.
  unfold calculate_result. intros Hc.
  apply bind_Some in Hc as (cp & _ & Hc).
  apply bind_Some in Hc as (cur & _ & Hc).
  apply bind_Some in Hc as (result & _ & Hc).
  apply bind_Some in Hc as (correct & _ & Hc).
  destruct (bool_decide (correct = _)); [by injection Hc as <-|].
  apply bind_Some in Hc as (ps & _ & [= <-]). by destruct (negb _).
Qed.

Lemma on_sync_next_turn_frame s s' :
  on_sync_next_turn s = Some s' ->
  set_srv_cards [] (set_players [] s') = set_srv_cards [] (set_players [] s).
Proof.
  unfold on_sync_next_turn. intros (s1 & H1 & Hf)%bind_Some.
  assert (set_srv_cards [] (set_players [] s1) = set_srv_cards [] (set_players [] s))
    as <-.
  { destruct (_ <=? _).
    - by apply bind_Some in H1 as ([deck ps] & _ & [= <-]).
    - by injection H1 as <-. }
  unfold finish_turn in Hf. apply bind_Some in Hf as (first & _ & Hf).
  destruct (0 <? _); [by injection Hf as <-|].
  by apply bind_Some in Hf as (ps & _ & [= <-]).
Qed.

Lemma global_operations_footprint (shuffle : forall A : Type, list A -> list A)
    (rnd : nat) (s s' : Server) :
  global_operations shuffle rnd s = Some s' ->
  game_state s' = game_state s /\
  set_current_player None (set_srv_cards [] (set_players [] s'))
  = set_current_player None (set_srv_cards [] (set_players [] s)) /\
  map number (players s') = map number (players s).
Proof.
  intros Hg.
  assert (set_current_player None (set_srv_cards [] (set_players [] s'))
          = set_current_player None (set_srv_cards [] (set_players [] s))) as Hfr.
  { unfold global_operations in Hg. apply bind_Some in Hg as (s1 & Hr & Hg).
    apply recover_frame in Hr as [Hr _].
    transitivity (set_current_player None (set_srv_cards [] (set_players [] s1)));
      [|exact (f_equal (fun x => set_current_player None (set_srv_cards [] x)) Hr)].
    clear Hr. destruct (get_sync_state s1) as [st|] eqn:Hst; [|by injection Hg as <-].
    pose proof (barrier_nonempty _ _ Hst) as Hlen.
    destruct st; try (by injection Hg as <-).
    - unfold on_begin_sync in Hg. apply Nat.ltb_lt in Hlen. rewrite Hlen in Hg.
      apply bind_Some in Hg as (s2 & Hb & Hg).
      apply bind_Some in Hg as (r & _ & Hg).
      apply bind_Some in Hg as (start & _ & Hg).
      apply bind_Some in Hg as (cp & _ & [= <-]).
      unfold begin_game in Hb. by apply bind_Some in Hb as ([deck ps] & _ & [= <-]).
    - unfold on_turn_sync in Hg.
      apply bind_Some in Hg as (cp & _ & Hg).
      apply bind_Some in Hg as (n & _ & Hg).
      by apply bind_Some in Hg as (ps & _ & [= <-]).
    - unfold on_vote_sync in Hg.
      apply bind_Some in Hg as (s2 & Hc & Hg).
      apply bind_Some in Hg as (cp & _ & Hg).
      apply bind_Some in Hg as (cur & _ & Hg).
      apply bind_Some in Hg as (ps & _ & [= <-]).
      apply calculate_result_frame in Hc.
      exact (f_equal (fun x => set_current_player None (set_srv_cards [] x)) Hc).
    - apply on_sync_next_turn_frame in Hg.
      exact (f_equal (set_current_player None) Hg). }
  split; [exact (f_equal game_state Hfr)|]. split; [exact Hfr|].
  apply global_operations_keeps in Hg as (H2 & _). by apply same_ids_map_number.
Qed.

(** X11.  [global_operations] never changes the phase: the branch that sets
    [ERROR] is dead, since a barrier needs a valid player.  It changes
    nothing but attributes of the players, the deck and the storyteller;
    the roster keeps its players, in the same order. *)
Theorem global_operations_frame (shuffle : forall A : Type, list A -> list A)
    (rnd : nat) (s s' : Server) :
  global_operations shuffle rnd s = Some s' ->
  game_state s' = game_state s /\
  set_current_player None (set_srv_cards [] (set_players [] s'))
  = set_current_player None (set_srv_cards [] (set_players [] s)) /\
  map number (players s') = map number (players s).
Proof. apply global_operations_footprint. Qed.

(** X12.  With a storyteller that verifies, or none, [global_operations]
    does nothing unless the valid players are all in the same one of the
    five barrier states. *)
Theorem global_operations_idle (shuffle : forall A : Type, list A -> list A)
    (rnd : nat) (s : Server) :
  storyteller_ok s ->
  (forall st, synchronized_on st s ->
     st <> BEGIN_SYNC /\ st <> TURN_SYNC /\ st <> SELF_SYNC /\ st <> VOTE_SYNC /\
     st <> SYNC_NEXT_TURN) ->
  global_operations shuffle rnd s = Some s.
Proof.
  intros Hok Hno. unfold global_operations. rewrite (recover_storyteller_ok s Hok).
  simpl. destruct (get_sync_state s) as [st|] eqn:Hst; [|done].
  apply get_sync_state_from_None in Hst.
  destruct (Hno st Hst) as (?&?&?&?&?). by destruct st.
Qed.

Lemma next_player_ext r (ps ps' : list Player) :
  map number ps' = map number ps -> map valid ps' = map valid ps ->
  next_player r ps' = next_player r ps.
Proof.
  intros Hn Hv.
  assert (length ps' = length ps) as Hlen
    by (rewrite <- (length_map number ps'), Hn; apply length_map).
  assert (index_of r ps' = index_of r ps) as Hidx.
  { unfold index_of. destruct r as [n|]; [|done].
    assert (forall qs : list Player,
              fst <$> list_find (fun p => number p = n) qs
              = fst <$> list_find (fun k => k = n) (map number qs)) as Hfind.
    { intros qs. rewrite list_find_fmap, <- option_fmap_compose.
      apply option_fmap_ext. by intros [i p]. }
    pose proof (Hfind ps) as H1. pose proof (Hfind ps') as H2.
    rewrite Hn, <- H1 in H2.
    destruct (list_find _ ps') as [[i p]|], (list_find _ ps) as [[j q]|];
      simpl in H2; congruence. }
  unfold next_player. rewrite Hlen, Hidx.
  generalize (length ps * 2) (index_of r ps). intros fuel.
  induction fuel as [|fuel IH]; intros i; simpl; [done|].
  rewrite Hlen.
  set (i2 := if length ps <=? i + 1 then 0 else i + 1).
  pose proof (f_equal (fun l => l !! i2) Hn) as En.
  pose proof (f_equal (fun l => l !! i2) Hv) as Ev.
  cbv beta in En, Ev. rewrite !list_lookup_fmap in En. rewrite !list_lookup_fmap in Ev.
  destruct (ps' !! i2) as [p'|], (ps !! i2) as [p|]; simpl in *; try done.
  injection En as En. injection Ev as Ev. rewrite En, Ev, IH. done.
Qed.

Lemma on_turn_sync_spec s :
  valid_players (players s) <> [] ->
  exists t,
    t ∈ valid_players (players s) /\
    next_player (current_player s) (players s) = Some (Some (number t)) /\
    on_turn_sync s
    = Some (set_players
              (for_players
                 (fun p =>
                    (fun q => if get_broadcast q
                              then send_message ("TURN " +:+ str_nat (number t)) q
                              else q)
                      (set_state WAIT_ASSOC
                         (set_has_turn (number p =? number t) p)))
                 (players s))
              (set_current_player (Some (number t)) s)).
Proof.
  intros Hne.
  destruct (next_player_scan (current_player s) (players s))
    as [[Hnil _]|(k & t & _ & Ht & Hv & _ & Hres)]; [done|].
  exists t. split.
  { apply elem_of_valid_players. split; [by eapply list_elem_of_lookup_2|done]. }
  split; [done|].
  unfold on_turn_sync. rewrite Hres. simpl.
  rewrite for_players_compose by done. done.
Qed.

Lemma synchronized_for_players s st f :
  valid_players (players s) <> [] ->
  (forall p, valid (f p) = valid p) -> (forall p, state (f p) = st) ->
  synchronized_on st (set_players (for_players f (players s)) s).
Proof.
  intros Hne Hv Hst. unfold synchronized_on. simpl.
  rewrite valid_for_players by done. split.
  - by destruct (valid_players (players s)).
  - apply Forall_fmap, Forall_forall. intros p _. apply Hst.
Qed.

(** X13.  The [TURN_SYNC] barrier.  With a storyteller that verifies, or
    none, when every valid player is in [TURN_SYNC], the storyteller becomes
    the valid player [t] that [next_player] gives after the current one;
    every valid player goes to [WAIT_ASSOC], with [has_turn] set exactly for
    the number of [t]; and [TURN <number of t>] is queued for the valid
    players that are eligible for broadcasts. *)
Theorem turn_sync_designates (shuffle : forall A : Type, list A -> list A)
    (rnd : nat) (s : Server) :
  storyteller_ok s ->
  synchronized_on TURN_SYNC s ->
  exists t s',
    t ∈ valid_players (players s) /\
    next_player (current_player s) (players s) = Some (Some (number t)) /\
    global_operations shuffle rnd s = Some s' /\
    current_player s' = Some (number t) /\
    players s'
    = for_players
        (fun p =>
           (fun q => if get_broadcast q
                     then send_message ("TURN " +:+ str_nat (number t)) q else q)
             (set_state WAIT_ASSOC (set_has_turn (number p =? number t) p)))
        (players s) /\
    synchronized_on WAIT_ASSOC s' /\
    (forall p', p' ∈ valid_players (players s') ->
       (has_turn p' = true <-> number p' = number t)).
Proof.
  intros Hok Hsync. pose proof Hsync as [Hne _].
  destruct (on_turn_sync_spec s Hne) as (t & Ht & Hnext & Hturn).
  exists t. eexists. split; [done|]. split; [done|]. split.
  { unfold global_operations. rewrite (recover_storyteller_ok s Hok). simpl.
    rewrite (get_sync_state_synchronized _ _ Hsync). exact Hturn. }
  simpl. split; [done|]. split; [done|]. split.
  - apply (synchronized_for_players (set_current_player (Some (number t)) s));
      [done| |]; intros p; by destruct (get_broadcast p).
  - intros p'. rewrite valid_for_players by (intros p; by destruct (get_broadcast p)).
    intros (p & -> & _)%list_elem_of_fmap.
    destruct (get_broadcast p); simpl; apply Nat.eqb_eq.
Qed.

Lemma lost_storyteller_turn (shuffle : forall A : Type, list A -> list A)
    (rnd : nat) (s : Server) (cp : nat) :
  current_player s = Some cp ->
  verify_ref cp s = Some false ->
  valid_players (players s) <> [] ->
  exists t s',
    t ∈ valid_players (players s) /\
    next_player (Some cp) (players s) = Some (Some (number t)) /\
    global_operations shuffle rnd s = Some s' /\
    current_player s' = Some (number t) /\
    players s'
    = for_players
        (fun p =>
           (fun q => if get_broadcast q
                     then send_message ("TURN " +:+ str_nat (number t)) q else q)
             (set_state WAIT_ASSOC (set_has_turn (number p =? number t) p)))
        (players s) /\
    synchronized_on WAIT_ASSOC s'.
Proof.
  intros Hcp Hdead Hne.
  set (s1 := set_all_states TURN_SYNC s).
  assert (valid_players (players s1) = map (set_state TURN_SYNC) (valid_players (players s)))
    as Hvs by (by apply valid_for_players).
  assert (synchronized_on TURN_SYNC s1) as Hsync
    by (by apply synchronized_for_players).
  destruct (on_turn_sync_spec s1) as (t1 & Ht1 & Hnext & Hturn); [by apply Hsync|].
  rewrite Hvs in Ht1. apply list_elem_of_fmap in Ht1 as (t & -> & Ht).
  simpl in Hnext, Hturn. rewrite Hcp in Hnext.
  rewrite (next_player_ext _ (players s)) in Hnext.
  2:{ unfold for_players. rewrite <- list_fmap_compose. apply list_fmap_ext.
      intros _ p _. simpl. by destruct (valid p). }
  2:{ unfold for_players. rewrite <- list_fmap_compose. apply list_fmap_ext.
      intros _ p _. simpl. by destruct (valid p) eqn:E. }
  rewrite for_players_compose in Hturn by done. simpl in Hturn.
  exists t. eexists. split; [done|]. split; [done|]. split.
  { unfold global_operations, recover. rewrite Hcp, Hdead. simpl.
    fold s1. rewrite (get_sync_state_synchronized _ _ Hsync). exact Hturn. }
  simpl. split; [done|]. split; [done|].
  apply (synchronized_for_players (set_current_player (Some (number t)) s));
    [done| |]; intros p; by destruct (get_broadcast p).
Qed.

(** X14.  A lost storyteller restarts the turn.  When the storyteller does
    not verify any more (it left the roster, was invalidated, or its
    connection failed) and a valid player is left, [global_operations]
    designates the next valid player and sends every valid player to
    [WAIT_ASSOC], whatever their states were. *)
Theorem storyteller_lost_restarts (shuffle : forall A : Type, list A -> list A)
    (rnd : nat) (s : Server) (cp : nat) :
  current_player s = Some cp ->
  verify_ref cp s = Some false ->
  valid_players (players s) <> [] ->
  exists t s',
    t ∈ valid_players (players s) /\
    next_player (Some cp) (players s) = Some (Some (number t)) /\
    global_operations shuffle rnd s = Some s' /\
    current_player s' = Some (number t) /\
    players s'
    = for_players
        (fun p =>
           (fun q => if get_broadcast q
                     then send_message ("TURN " +:+ str_nat (number t)) q else q)
             (set_state WAIT_ASSOC (set_has_turn (number p =? number t) p)))
        (players s) /\
    synchronized_on WAIT_ASSOC s'.
Proof. apply lost_storyteller_turn. Qed.

(** X15.  The [SELF_SYNC] barrier.  With a shuffle that permutes, the ballot
    [VOTE c1,c2,...] that is queued for the eligible valid players lists a
    permutation of the cards that the valid players played; every valid
    player goes to [WAIT_VOTE]; nothing else changes. *)
Theorem self_sync_ballot (shuffle : forall A : Type, list A -> list A)
    (rnd : nat) (s : Server) :
  (forall A (l : list A), Permutation (shuffle A l) l) ->
  storyteller_ok s ->
  synchronized_on SELF_SYNC s ->
  exists ballot s',
    Permutation ballot (map current_card (valid_players (players s))) /\
    global_operations shuffle rnd s = Some s' /\
    s' = set_players
           (for_players
              (fun p =>
                 set_state WAIT_VOTE
                   (if get_broadcast p
                    then send_message ("VOTE " +:+ py_join "," (map str_card ballot)) p
                    else p))
              (players s)) s /\
    synchronized_on WAIT_VOTE s'.
Proof.
  intros Hperm Hok Hsync. pose proof Hsync as [Hne _].
  exists (shuffle _ (map current_card (valid_players (players s)))).
  eexists. split; [apply Hperm|]. split; [|split; [reflexivity|]].
  { unfold global_operations. rewrite (recover_storyteller_ok s Hok). simpl.
    rewrite (get_sync_state_synchronized _ _ Hsync).
    unfold on_self_sync, set_all_states. simpl.
    rewrite for_players_compose by (intros p; by destruct (get_broadcast p)).
    reflexivity. }
  apply synchronized_for_players; [done| |]; intros p; by destruct (get_broadcast p).
Qed.

(** *** The console and the end of a session *)

Lemma find_player_map n g (ps : list Player) :
  (forall p, number (g p) = number p) ->
  find_player n (map g ps) = g <$> find_player n ps.
Proof.
  intros Hg. unfold find_player. induction ps as [|p ps IH]; simpl; [done|].
  rewrite Hg. by destruct (number p =? n).
Qed.

Lemma verify_ref_for_players n f s s0 :
  (forall p, number (f p) = number p) -> (forall p, verify (f p) = verify p) ->
  players s0 = for_players f (players s) ->
  verify_ref n s0 = verify_ref n s.
Proof.
  intros Hn Hv Hps. unfold verify_ref. rewrite Hps. unfold for_players.
  rewrite find_player_map by (intros p; by destruct (valid p)).
  destruct (find_player n (players s)) as [p|]; simpl; [|done].
  by destruct (valid p) eqn:E.
Qed.

(** X16.  The console command [end] at the end of a turn.  When [end] is
    run in a game while the valid players are all in [SYNC_NEXT_TURN], with
    a storyteller that verifies or none, the [global_operations] that
    follows finds the hands empty: the hands of the valid players and the
    deck are empty, [END_GAME] is queued for the eligible valid players,
    every player is invalidated, and the exit test of the main loop holds. *)
Theorem end_command_ends_game (shuffle : forall A : Type, list A -> list A)
    (rnd : nat) (s : Server) :
  game_state s = GAME ->
  storyteller_ok s ->
  synchronized_on SYNC_NEXT_TURN s ->
  exists s',
    global_operations shuffle rnd (comm_end s) = Some s' /\
    players s'
    = for_players
        (fun p =>
           set_valid false
             ((fun q => if get_broadcast q then send_message "END_GAME" q else q)
                (set_cards [] p)))
        (players s) /\
    srv_cards s' = [] /\
    valid_players (players s') = [] /\
    session_over s' = true.
Proof.
  intros Hgame Hok [Hne Hall].
  unfold comm_end. rewrite bool_decide_eq_true_2 by done.
  set (s0 := set_srv_cards [] (set_players (for_players (set_cards []) (players s)) s)).
  assert (valid_players (players s0) = map (set_cards []) (valid_players (players s)))
    as Hvs by (by apply valid_for_players).
  assert (synchronized_on SYNC_NEXT_TURN s0) as Hsync.
  { split; rewrite Hvs.
    - by destruct (valid_players (players s)).
    - apply Forall_fmap. eapply Forall_impl; [exact Hall|]. done. }
  assert (storyteller_ok s0) as Hok0.
  { unfold storyteller_ok in *. simpl. destruct (current_player s) as [cp|]; [|done].
    rewrite <- Hok. by apply (verify_ref_for_players cp (set_cards [])). }
  assert (forall c, remove_played c [] = []) as Hrm by (by intros [c|]).
  assert (for_players
            (fun p => set_cards (remove_played (current_card p) (cards p)) p)
            (players s0)
          = for_players (set_cards []) (players s)) as Hps1.
  { simpl. rewrite for_players_compose by done. unfold for_players.
    apply list_fmap_ext. intros _ p _. simpl. by rewrite Hrm. }
  unfold global_operations. rewrite (recover_storyteller_ok s0 Hok0). simpl.
  rewrite (get_sync_state_synchronized _ _ Hsync).
  unfold on_sync_next_turn. rewrite Hps1. simpl.
  clear Hsync.
  assert ((len_players (for_players (set_cards []) (players s)) <=? 0) = false) as ->.
  { apply Nat.leb_gt. unfold len_players. rewrite valid_for_players by done.
    rewrite length_map. destruct (valid_players (players s)); [done|simpl; lia]. }
  simpl. unfold finish_turn. simpl. rewrite valid_for_players by done.
  destruct (valid_players (players s)) as [|p0 vs] eqn:Evs; [done|]. simpl.
  eexists. split; [reflexivity|]. simpl.
  rewrite !for_players_compose by (intros p; by destruct (get_broadcast p)).
  split; [done|]. split; [done|].
  assert (valid_players
            (for_players
               (fun p => set_valid false
                           (if get_broadcast (set_cards [] p)
                            then send_message "END_GAME" (set_cards [] p)
                            else set_cards [] p))
               (players s)) = []) as Hnone.
  { apply valid_players_nil, Forall_forall. intros q (p & -> & _)%list_elem_of_fmap.
    by destruct (valid p) eqn:E. }
  simpl in Hnone. split; [exact Hnone|].
  unfold session_over, len_players. simpl. rewrite Hnone, Hgame. done.
Qed.

(** *** [Player.handle_state] *)

Lemma self_is_find {A} n (attr : Player -> A) test s self :
  find_player n (players s) = Some self -> self_is n attr test s = test (attr self).
Proof. intros Hf. unfold self_is. by rewrite Hf. Qed.

Lemma find_player_upd n f s self :
  (forall p, number (f p) = number p) ->
  find_player n (players s) = Some self ->
  find_player n (players (upd n f s)) = Some (f self).
Proof.
  intros Hn Hf. simpl. unfold update_player.
  rewrite find_player_map by (intros p; by destruct (number p =? n)).
  rewrite Hf. simpl. apply find_player_Some in Hf as [_ <-].
  by rewrite Nat.eqb_refl.
Qed.

Lemma handle_state_table (n : nat) (s : Server) (self : Player) :
  find_player n (players s) = Some self ->
  handle_state n s
  = Some
      match state self with
      | VER_CHECK =>
          let s1 :=
            upd n (fun p =>
                     set_state VER_WAIT
                       (send_message
                          ("VERSION " +:+ str_nat (number p) +:+ " "
                           +:+ str_status (status p) +:+ " " +:+ res_name s
                           +:+ " " +:+ res_link s) p)) s in
          if bool_decide (game_state s = GAME) then upd n (set_valid false) s1 else s1
      | VER_WAIT =>
          if bool_decide (game_state s = GAME) then upd n (set_valid false) s else s
      | START_WAIT =>
          if bool_decide (game_state s = GAME) then upd n (set_state BEGIN_SYNC) s else s
      | WAIT_SELF_CARD =>
          if has_turn self then
            set_players
              (for_players
                 (fun i => if get_broadcast i
                           then send_message ("PLAYER " +:+ str_nat n) i else i)
                 (update_player n (set_state SELF_SYNC) (players s)))
              s
          else s
      | WAIT_VOTE => if has_turn self then upd n (set_state VOTE_SYNC) s else s
      | _ => s
      end.
Proof.
  intros Hf. unfold handle_state.
  assert (forall a self' b st,
            find_player n (players a) = Some self' -> state self' <> st ->
            self_is n state (fun x => bool_decide (x = st)) a && b = false) as Hno.
  { intros a self' b st Ha Hst. rewrite (self_is_find _ _ _ _ _ Ha).
    by rewrite bool_decide_eq_false_2. }
  destruct (state self) eqn:Est;
    try (unfold on_ver_check; rewrite (self_is_find _ _ _ _ _ Hf), Est; simpl;
         unfold on_start_wait; rewrite (Hno _ _ _ START_WAIT Hf) by congruence;
         unfold on_ver_wait; rewrite (Hno _ _ _ VER_WAIT Hf) by congruence;
         unfold on_wait_self_card; rewrite (Hno _ _ _ WAIT_SELF_CARD Hf) by congruence;
         simpl; unfold on_wait_vote; by rewrite (Hno _ _ _ WAIT_VOTE Hf) by congruence).
  - (* VER_CHECK *)
    unfold on_ver_check at 1. rewrite (self_is_find _ _ _ _ _ Hf), Est. simpl.
    set (ver := fun p : Player =>
                  set_state VER_WAIT
                    (send_message
                       ("VERSION " +:+ str_nat (number p) +:+ " "
                        +:+ str_status (status p) +:+ " " +:+ res_name s
                        +:+ " " +:+ res_link s) p)).
    assert (find_player n (players (upd n ver s)) = Some (ver self)) as Hf1
      by (by apply find_player_upd).
    unfold on_start_wait. rewrite (Hno _ _ _ START_WAIT Hf1) by done.
    unfold on_ver_wait. rewrite (self_is_find _ _ _ _ _ Hf1). simpl.
    destruct (bool_decide (game_state s = GAME)) eqn:Eg.
    + assert (find_player n (players (upd n (set_valid false) (upd n ver s)))
              = Some (set_valid false (ver self))) as Hf2
        by (by apply find_player_upd).
      unfold on_wait_self_card. rewrite (Hno _ _ _ WAIT_SELF_CARD Hf2) by done.
      simpl. unfold on_wait_vote. by rewrite (Hno _ _ _ WAIT_VOTE Hf2) by done.
    + unfold on_wait_self_card. rewrite (Hno _ _ _ WAIT_SELF_CARD Hf1) by done.
      simpl. unfold on_wait_vote. by rewrite (Hno _ _ _ WAIT_VOTE Hf1) by done.
  - (* VER_WAIT *)
    unfold on_ver_check. rewrite (self_is_find _ _ _ _ _ Hf), Est. simpl.
    unfold on_start_wait. rewrite (Hno s _ _ START_WAIT Hf) by congruence.
    unfold on_ver_wait. rewrite (self_is_find _ _ _ _ _ Hf), Est. simpl.
    destruct (bool_decide (game_state s = GAME)) eqn:Eg.
    + assert (find_player n (players (upd n (set_valid false) s))
              = Some (set_valid false self)) as Hf2
        by (by apply find_player_upd).
      unfold on_wait_self_card. rewrite (Hno _ _ _ WAIT_SELF_CARD Hf2)
        by (simpl; congruence).
      simpl. unfold on_wait_vote.
      by rewrite (Hno _ _ _ WAIT_VOTE Hf2) by (simpl; congruence).
    + unfold on_wait_self_card. rewrite (Hno s _ _ WAIT_SELF_CARD Hf) by congruence.
      simpl. unfold on_wait_vote. by rewrite (Hno s _ _ WAIT_VOTE Hf) by congruence.
  - (* START_WAIT *)
    unfold on_ver_check. rewrite (self_is_find _ _ _ _ _ Hf), Est. simpl.
    unfold on_start_wait. rewrite (self_is_find _ _ _ _ _ Hf), Est. simpl.
    destruct (bool_decide (game_state s = GAME)) eqn:Eg.
    + assert (find_player n (players (upd n (set_state BEGIN_SYNC) s))
              = Some (set_state BEGIN_SYNC self)) as Hf2
        by (by apply find_player_upd).
      unfold on_ver_wait. rewrite (Hno _ _ _ VER_WAIT Hf2) by done.
      unfold on_wait_self_card. rewrite (Hno _ _ _ WAIT_SELF_CARD Hf2) by done.
      simpl. unfold on_wait_vote. by rewrite (Hno _ _ _ WAIT_VOTE Hf2) by done.
    + unfold on_ver_wait. rewrite (Hno s _ _ VER_WAIT Hf) by congruence.
      unfold on_wait_self_card. rewrite (Hno s _ _ WAIT_SELF_CARD Hf) by congruence.
      simpl. unfold on_wait_vote. by rewrite (Hno s _ _ WAIT_VOTE Hf) by congruence.
  - (* WAIT_SELF_CARD *)
    unfold on_ver_check. rewrite (self_is_find _ _ _ _ _ Hf), Est. simpl.
    unfold on_start_wait. rewrite (Hno _ _ _ START_WAIT Hf) by congruence.
    unfold on_ver_wait. rewrite (Hno _ _ _ VER_WAIT Hf) by congruence.
    unfold on_wait_self_card. rewrite !(self_is_find _ _ _ _ _ Hf), Est. simpl.
    unfold id. destruct (has_turn self) eqn:Et; simpl.
    + unfold on_wait_vote.
      match goal with |- context [self_is n state _ ?a] =>
        assert (exists self2, find_player n (players a) = Some self2 /\
                              state self2 = SELF_SYNC) as (self2 & Hf2 & Est2)
      end.
      { simpl. unfold for_players, update_player. rewrite <- list_fmap_compose.
        rewrite find_player_map.
        2:{ intros p. simpl.
            destruct (number p =? n); simpl; by destruct (valid p), (get_broadcast p). }
        rewrite Hf. simpl. eexists. split; [reflexivity|].
        apply find_player_Some in Hf as [_ <-]. rewrite Nat.eqb_refl. simpl.
        by destruct (valid self), (get_broadcast self). }
      by rewrite (Hno _ _ _ WAIT_VOTE Hf2) by congruence.
    + unfold on_wait_vote. by rewrite (Hno _ _ _ WAIT_VOTE Hf) by congruence.
  - (* WAIT_VOTE *)
    unfold on_ver_check. rewrite (self_is_find _ _ _ _ _ Hf), Est. simpl.
    unfold on_start_wait. rewrite (Hno _ _ _ START_WAIT Hf) by congruence.
    unfold on_ver_wait. rewrite (Hno _ _ _ VER_WAIT Hf) by congruence.
    unfold on_wait_self_card. rewrite (Hno _ _ _ WAIT_SELF_CARD Hf) by congruence.
    simpl. unfold on_wait_vote. rewrite !(self_is_find _ _ _ _ _ Hf), Est. simpl.
    unfold id. by destruct (has_turn self).
Qed.

(** X17.  The five tests in a row of [handle_state] amount to one dispatch
    on the state in which the player is when it is called: [VER_CHECK] sends
    the version and goes to [VER_WAIT]; in the phase [GAME], a player in
    [VER_CHECK] or [VER_WAIT] is invalidated and one in [START_WAIT] goes to
    [BEGIN_SYNC]; the storyteller goes from [WAIT_SELF_CARD] to [SELF_SYNC],
    which is broadcast, and from [WAIT_VOTE] to [VOTE_SYNC]; in every other
    case nothing happens.  In particular [handle_state] does not raise. *)
Theorem handle_state_dispatch (n : nat) (s : Server) (self : Player) :
  find_player n (players s) = Some self ->
  handle_state n s
  = Some
      match state self with
      | VER_CHECK =>
          let s1 :=
            upd n (fun p =>
                     set_state VER_WAIT
                       (send_message
                          ("VERSION " +:+ str_nat (number p) +:+ " "
                           +:+ str_status (status p) +:+ " " +:+ res_name s
                           +:+ " " +:+ res_link s) p)) s in
          if bool_decide (game_state s = GAME) then upd n (set_valid false) s1 else s1
      | VER_WAIT =>
          if bool_decide (game_state s = GAME) then upd n (set_valid false) s else s
      | START_WAIT =>
          if bool_decide (game_state s = GAME) then upd n (set_state BEGIN_SYNC) s else s
      | WAIT_SELF_CARD =>
          if has_turn self then
            set_players
              (for_players
                 (fun i => if get_broadcast i
                           then send_message ("PLAYER " +:+ str_nat n) i else i)
                 (update_player n (set_state SELF_SYNC) (players s)))
              s
          else s
      | WAIT_VOTE => if has_turn self then upd n (set_state VOTE_SYNC) s else s
      | _ => s
      end.
Proof. apply handle_state_table. Qed.

(** *** The barriers never raise in a session *)

Lemma for_players_opt_is_Some (body : Player -> option Player) (ps : list Player) :
  (forall p, p ∈ ps -> valid p = true -> is_Some (body p)) ->
  is_Some (for_players_opt body ps).
Proof.
  induction ps as [|p ps IH]; intros Hb; simpl; [done|].
  destruct IH as [ps' ->]; [intros q Hq; apply Hb; by right|].
  destruct (valid p) eqn:Hv; simpl; [|done].
  destruct (Hb p) as [p' ->]; [by left|done|done].
Qed.

Lemma calculate_result_total s cp cur :
  NoDup (map number (players s)) ->
  current_player s = Some cp ->
  find_player cp (players s) = Some cur ->
  valid cur = true ->
  is_Some (calculate_result s).
Proof.
  intros Hnd Hcp Hf Hv.
  destruct (find_player_Some _ _ _ Hf) as [Hin Hn].
  unfold calculate_result. rewrite Hcp. simpl. rewrite Hf. simpl.
  destruct (count_votes_fooled cp (valid_players (players s)))
    as (result & -> & Hres); [by apply NoDup_valid_players|].
  simpl. rewrite <- Hn at 1. rewrite (Hres cur) by (by apply elem_of_valid_players).
  simpl. case_bool_decide; [done|].
  match goal with
  | |- is_Some (for_players_opt _ (players ?s1) ≫= _) =>
      assert (Forall2 (fun p p' => number p' = number p /\ valid p' = valid p)
                (players s) (players s1)) as H2
  end.
  { destruct (negb _); [|by apply pw_refl]. simpl.
    eapply pw_trans;
      [intros p q r [? ?] [? ?]; split; congruence
      |apply pw_for_players; [done|]|apply pw_update_player; [done|]; done].
    intros p _. cbv beta. destruct (is_not p cp); [|by split]. by destruct (bool_decide _). }
  match goal with
  | |- is_Some (?x ≫= _) => assert (is_Some x) as [ps ->]; [|done]
  end.
  apply for_players_opt_is_Some. intros p' Hp' Hv'.
  destruct (Forall2_origin _ _ _ _ H2 Hp') as (p & Hp & En & Ev).
  rewrite En, (Hres p); [done|]. apply elem_of_valid_players. split; [done|congruence].
Qed.

Lemma quiet_map (f : Player -> Player) (ps : list Player) :
  (forall p, in_turn (state p) = false -> in_turn (state (f p)) = false) ->
  Forall (fun p => in_turn (state p) = false) ps ->
  Forall (fun p => in_turn (state p) = false) (map f ps).
Proof.
  intros Hf Hall. apply Forall_fmap. eapply Forall_impl; [exact Hall|]. exact Hf.
Qed.

Lemma quiet_upd n f s :
  (forall p, in_turn (state p) = false -> in_turn (state (f p)) = false) ->
  Forall (fun p => in_turn (state p) = false) (players s) ->
  Forall (fun p => in_turn (state p) = false) (players (upd n f s)).
Proof.
  intros Hf. apply quiet_map. intros p Hp. by destruct (number p =? n); [apply Hf|].
Qed.

Lemma quiet_for f (ps : list Player) :
  (forall p, in_turn (state p) = false -> in_turn (state (f p)) = false) ->
  Forall (fun p => in_turn (state p) = false) ps ->
  Forall (fun p => in_turn (state p) = false) (for_players f ps).
Proof.
  intros Hf. apply quiet_map. intros p Hp. by destruct (valid p); [apply Hf|].
Qed.

Lemma quiet_broadcast data info (ps ps' : list Player) :
  broadcast data info ps = Some ps' ->
  Forall (fun p => in_turn (state p) = false) ps ->
  Forall (fun p => in_turn (state p) = false) ps'.
Proof.
  unfold broadcast. intros (d & _ & [= <-])%bind_Some.
  apply quiet_for. intros p Hp. by destruct (get_broadcast p).
Qed.

Lemma quiet_self n s self :
  Forall (fun p => in_turn (state p) = false) (players s) ->
  find_player n (players s) = Some self -> in_turn (state self) = false.
Proof.
  intros Hall [Hin _]%find_player_Some. rewrite Forall_forall in Hall. auto.
Qed.

Lemma handle_message_quiet n s s' :
  handle_message n s = Some s' ->
  Forall (fun p => in_turn (state p) = false) (players s) ->
  Forall (fun p => in_turn (state p) = false) (players s').
Proof.
  unfold handle_message. intros Hm Hall.
  apply bind_Some in Hm as (self & Hf & Hm).
  apply bind_Some in Hm as (c & _ & Hm).
  pose proof (quiet_self _ _ _ Hall Hf) as Hq.
  destruct (conn_get c) as [line c'].
  assert (Forall (fun p => in_turn (state p) = false)
            (players (upd n (set_conn (Some c')) s))) as H0 by (by apply quiet_upd).
  assert (Forall (fun p => in_turn (state p) = false)
            (players (upd n (set_valid false) (upd n (set_conn (Some c')) s)))) as H1
    by (by apply quiet_upd).
  destruct (state self); try discriminate Hq; try (by injection Hm as <-);
    repeat (match type of Hm with
            | (if ?b then _ else _) = _ => destruct b
            | _ ≫= _ = Some _ => apply bind_Some in Hm as (? & ? & Hm)
            end);
    try (by injection Hm as <-); injection Hm as <-.
  - apply quiet_upd; [done|]. eapply quiet_broadcast; [eassumption|].
    by apply quiet_upd.
  - by apply quiet_upd.
  - by apply quiet_upd.
  - by apply quiet_upd.
Qed.

Lemma self_is_quiet n s st b :
  Forall (fun p => in_turn (state p) = false) (players s) ->
  in_turn st = true ->
  self_is n state (fun x => bool_decide (x = st)) s && b = false.
Proof.
  intros Hall Hst. unfold self_is.
  destruct (find_player n (players s)) as [self|] eqn:Hf; [|done].
  pose proof (quiet_self _ _ _ Hall Hf) as Hq.
  rewrite bool_decide_eq_false_2; [done|]. congruence.
Qed.

Lemma handle_state_quiet n s s' :
  handle_state n s = Some s' ->
  Forall (fun p => in_turn (state p) = false) (players s) ->
  Forall (fun p => in_turn (state p) = false) (players s').
Proof.
  unfold handle_state. intros Hs Hall.
  assert (Forall (fun p => in_turn (state p) = false) (players (on_ver_check n s))) as H1.
  { unfold on_ver_check. case_match; [|done]. by apply quiet_upd. }
  assert (Forall (fun p => in_turn (state p) = false)
            (players (on_start_wait n (on_ver_check n s)))) as H2.
  { unfold on_start_wait. case_match; [|done]. by apply quiet_upd. }
  assert (Forall (fun p => in_turn (state p) = false)
            (players (on_ver_wait n (on_start_wait n (on_ver_check n s))))) as H3.
  { unfold on_ver_wait. case_match; [|done]. by apply quiet_upd. }
  unfold on_wait_self_card in Hs. rewrite self_is_quiet in Hs by done.
  simpl in Hs. unfold on_wait_vote in Hs. rewrite self_is_quiet in Hs by done.
  by injection Hs as <-.
Qed.

Lemma handle_state_frame n s s' :
  handle_state n s = Some s' -> set_players [] s' = set_players [] s.
Proof.
  unfold handle_state. intros (s1 & Hb & [= <-])%bind_Some.
  assert (forall a, set_players [] (on_ver_check n a) = set_players [] a) as H1
    by (intros a; unfold on_ver_check; by case_match).
  assert (forall a, set_players [] (on_start_wait n a) = set_players [] a) as H2
    by (intros a; unfold on_start_wait; by case_match).
  assert (forall a, set_players [] (on_ver_wait n a) = set_players [] a) as H3
    by (intros a; unfold on_ver_wait; by case_match).
  assert (forall a, set_players [] (on_wait_vote n a) = set_players [] a) as H5
    by (intros a; unfold on_wait_vote; by case_match).
  rewrite H5.
  transitivity (set_players [] (on_ver_wait n (on_start_wait n (on_ver_check n s))));
    [|by rewrite H3, H2, H1].
  unfold on_wait_self_card in Hb. case_match.
  - by apply bind_Some in Hb as (ps & _ & [= <-]).
  - by injection Hb as <-.
Qed.

Lemma flush_frame flow s s' :
  flush flow s = Some s' ->
  set_players [] s' = set_players [] s /\ map state (players s') = map state (players s).
Proof.
  unfold flush. intros Hf.
  apply bind_Some in Hf as (n & _ & Hf).
  apply bind_Some in Hf as (player & _ & Hf).
  apply bind_Some in Hf as (c & _ & Hf).
  destruct (buffer player); [done|]. injection Hf as <-. split; [done|].
  simpl. unfold update_player. rewrite <- list_fmap_compose. apply list_fmap_ext.
  intros _ p _. simpl. by destruct (number p =? n).
Qed.

Lemma quiet_states (ps ps' : list Player) :
  map state ps' = map state ps ->
  Forall (fun p => in_turn (state p) = false) ps ->
  Forall (fun p => in_turn (state p) = false) ps'.
Proof.
  intros E Hall.
  assert (Forall (fun st => in_turn st = false) (map state ps')) as H'
    by (rewrite E; by apply Forall_fmap).
  by apply Forall_fmap in H'.
Qed.

Lemma valid_count_kept (ps ps' : list Player) :
  Forall2 (fun p p' => valid p' = valid p) ps ps' -> len_players ps' = len_players ps.
Proof.
  unfold len_players, valid_players.
  induction 1 as [|p p' ps ps' E _ IH]; simpl; [done|].
  rewrite E. destruct (valid p); simpl; by rewrite IH.
Qed.

Lemma next_player_is_Some r (ps : list Player) :
  0 < len_players ps -> exists n, next_player r ps = Some (Some n).
Proof.
  intros Hlen.
  destruct (next_player_scan r ps) as [[Hnil _]|(k & t & _ & _ & _ & _ & Hres)].
  - unfold len_players in Hlen. rewrite Hnil in Hlen. simpl in Hlen. lia.
  - eauto.
Qed.

Lemma quiet_assign hs (ps : list Player) :
  Forall (fun p => in_turn (state p) = false) ps ->
  Forall (fun p => in_turn (state p) = false) (assign_hands hs ps).
Proof.
  intros Hall. revert hs. induction Hall as [|p ps Hp Hps IH]; intros hs; simpl; [done|].
  destruct (valid p); [destruct hs|]; constructor; auto.
Qed.

Lemma barrier_quiet s st :
  get_sync_state s = Some st ->
  Forall (fun p => in_turn (state p) = false) (players s) ->
  in_turn st = false.
Proof.
  intros [Hne Hst]%get_sync_state_from_None Hall.
  destruct (valid_players (players s)) as [|p vs] eqn:E; [done|].
  apply Forall_cons in Hst as [<- _].
  assert (p ∈ valid_players (players s)) as [Hp _]%elem_of_valid_players
    by (rewrite E; by left).
  rewrite Forall_forall in Hall. auto.
Qed.

Lemma global_operations_teller shuffle rnd s s' :
  global_operations shuffle rnd s = Some s' -> turn_has_teller s -> turn_has_teller s'.
Proof.
  unfold global_operations. intros (s1 & Hr & Hg)%bind_Some Hs.
  assert (turn_has_teller s1) as H1.
  { apply recover_frame in Hr as [Hfr Hps].
    destruct Hs as [Hcp|Hall].
    - left. by rewrite (f_equal current_player Hfr : current_player s1 = current_player s).
    - right. destruct Hps as [-> | ->]; [done|]. by apply quiet_for. }
  clear Hr Hs s. destruct (get_sync_state s1) as [st|] eqn:Hst; [|by injection Hg as <-].
  pose proof (barrier_nonempty _ _ Hst) as Hlen.
  assert (current_player s1 <> None \/ in_turn st = false) as Hst'.
  { destruct H1 as [?|Hall]; [by left|right]. by eapply barrier_quiet. }
  destruct st; try (by injection Hg as <-).
  - (* BEGIN_SYNC *)
    unfold on_begin_sync in Hg. apply Nat.ltb_lt in Hlen. rewrite Hlen in Hg.
    apply Nat.ltb_lt in Hlen.
    apply bind_Some in Hg as (s2 & Hb & Hg).
    apply bind_Some in Hg as (r & _ & Hg).
    apply bind_Some in Hg as (start & _ & Hg).
    apply bind_Some in Hg as (cp & Hnext & [= <-]). left. simpl in *.
    destruct (next_player_is_Some (Some (number start))
                (for_players
                   (fun player =>
                      send_message
                        ("BEGIN " +:+ card_set s2 +:+ " "
                         +:+ py_join "," (map str_Z (cards player)) +:+ " "
                         +:+ player_list_digest (players s2))
                        (set_state READY_WAIT player))
                   (players s2))) as [m Hm]; [|congruence].
    unfold len_players. rewrite valid_for_players by done. rewrite length_map.
    change (0 < len_players (players s2)).
    rewrite (valid_count_kept (players s1)); [done|].
    eapply (begin_game_rel (fun p p' => valid p' = valid p)); eauto.
  - (* TURN_SYNC *)
    unfold on_turn_sync in Hg.
    apply bind_Some in Hg as (cp & _ & Hg).
    apply bind_Some in Hg as (n & -> & Hg).
    apply bind_Some in Hg as (ps & _ & [= <-]). by left.
  - (* SELF_SYNC *)
    destruct Hst' as [Hcp|?]; [|done]. left.
    unfold on_self_sync in Hg. by apply bind_Some in Hg as (ps & _ & [= <-]).
  - (* VOTE_SYNC *)
    destruct Hst' as [Hcp|?]; [|done]. left.
    unfold on_vote_sync in Hg.
    apply bind_Some in Hg as (s2 & Hc & Hg).
    apply bind_Some in Hg as (cp & _ & Hg).
    apply bind_Some in Hg as (cur & _ & Hg).
    apply bind_Some in Hg as (ps & _ & [= <-]). simpl.
    apply calculate_result_frame in Hc.
    by rewrite (f_equal current_player Hc : current_player s2 = current_player s1).
  - (* SYNC_NEXT_TURN *)
    destruct H1 as [Hcp|Hall].
    + left. apply on_sync_next_turn_frame in Hg.
      by rewrite (f_equal current_player Hg : current_player s' = current_player s1).
    + right. rewrite on_sync_next_turn_spec in Hg.
      2:{ unfold len_players in Hlen. destruct (valid_players (players s1)); [|done].
          simpl in Hlen. lia. }
      injection Hg as <-. unfold next_turn_spec. simpl.
      apply quiet_map; [|by apply quiet_assign].
      intros p Hp. destruct (valid p); [|done].
      destruct (bool_decide _); [|done]. simpl. by destruct (get_broadcast p).
Qed.

Lemma check_teller s s' : check s = Some s' -> turn_has_teller s -> turn_has_teller s'.
Proof.
  intros Hc Hs.
  assert (current_player s' = current_player s) as Hcp.
  { unfold check in Hc. apply bind_Some in Hc as (d & _ & Hc).
    destruct d as [i|]; [|by injection Hc as <-].
    apply bind_Some in Hc as (p & _ & Hc).
    apply bind_Some in Hc as (flushed & _ & Hc).
    apply bind_Some in Hc as (? & _ & Hc). simpl in Hc.
    destruct (bool_decide (status p = MASTER) && bool_decide (game_state s = PLAYER_CONN));
      simpl in Hc; [by injection Hc as <-|].
    case_bool_decide; by injection Hc as <-. }
  destruct Hs as [?|Hall]; [left; congruence|right].
  destruct (check_rel_any
              (fun p p' => in_turn (state p) = false -> in_turn (state p') = false) s s')
    as [-> |(i & p & _ & Hdel)]; auto.
  eapply Forall2_Forall_r; [exact Hdel|].
  eapply Forall_impl; [by apply Forall_delete|]. auto.
Qed.

Lemma reachable_teller s : reachable s -> turn_has_teller s.
Proof.
  induction 1 as [|s s' _ IH Hstep]; [right; constructor|].
  destruct Hstep as [flow s s' Hf|flow s s' Hi|sock s Hfresh|s s' Hs|sh rnd s s' Hg
                    |s s' Hc|cmdline s|s|s].
  - apply flush_frame in Hf as [Hfr Hst]. destruct IH as [?|Hall].
    + left. by rewrite (f_equal current_player Hfr : current_player s' = current_player s).
    + right. by eapply quiet_states.
  - unfold handle_input in Hi. apply bind_Some in Hi as (n & _ & Hm).
    destruct IH as [?|Hall].
    + left. apply handle_message_frame in Hm.
      by rewrite (f_equal current_player Hm : current_player s' = current_player s).
    + right. by eapply handle_message_quiet.
  - unfold accept_connection.
    destruct (bool_decide (game_state s = PLAYER_CONN));
      [destruct (len_players (players s) <? 7)|]; try done.
    destruct IH as [?|Hall]; [by left|right]. simpl.
    apply Forall_app. split; [done|]. by apply Forall_singleton.
  - unfold handle_states in Hs. revert Hs. apply foldM_invariant; [|done].
    intros a n a' Ha Hn. destruct (self_is n valid id a); [|by injection Hn as <-].
    destruct Ha as [?|Hall].
    + left. apply handle_state_frame in Hn.
      by rewrite (f_equal current_player Hn : current_player a' = current_player a).
    + right. by eapply handle_state_quiet.
  - by eapply global_operations_teller.
  - by eapply check_teller.
  - unfold comm_start. by repeat case_match.
  - unfold comm_end. case_match; [|done].
    destruct IH as [?|Hall]; [by left|right]. simpl. by apply quiet_for.
  - done.
Qed.

Lemma find_player_is_Some n (ps : list Player) :
  is_Some (find_player n ps) <-> n ∈ map number ps.
Proof.
  unfold find_player. induction ps as [|p ps IH]; simpl.
  - split; [by intros [? ?]|by intros ?%elem_of_nil].
  - destruct (Nat.eqb_spec (number p) n) as [->|Hne].
    + split; [intros _; by left|by eexists].
    + rewrite IH. split; [by right|]. by intros [?|?]%elem_of_cons.
Qed.

Lemma verify_ref_true n s :
  verify_ref n s = Some true ->
  exists cur, find_player n (players s) = Some cur /\ valid cur = true.
Proof.
  unfold verify_ref. destruct (find_player n (players s)) as [cur|]; [|done].
  intros Hv. exists cur. split; [done|]. unfold verify in Hv. by destruct (valid cur).
Qed.

Lemma verify_ref_total n s : wf s -> is_Some (verify_ref n s).
Proof.
  intros [_ _ Hall _]. unfold verify_ref.
  destruct (find_player n (players s)) as [p|] eqn:Hf; [|done].
  apply find_player_Some in Hf as [Hin _]. rewrite Forall_forall in Hall.
  destruct (Hall p Hin) as (_ & [c Hc] & _). unfold verify. rewrite Hc.
  by destruct (valid p).
Qed.

Lemma len_players_valid (ps ps' : list Player) :
  map valid ps' = map valid ps -> len_players ps' = len_players ps.
Proof.
  unfold len_players, valid_players. revert ps'.
  induction ps as [|p ps IH]; intros [|p' ps']; simpl; try done.
  intros [= -> E]. destruct (valid p); simpl; by rewrite (IH _ E).
Qed.

Lemma barrier_total shuffle rnd s :
  wf s ->
  (get_sync_state s = Some VOTE_SYNC ->
   exists cp cur, current_player s = Some cp /\
                  find_player cp (players s) = Some cur /\ valid cur = true) ->
  is_Some
    match get_sync_state s with
    | Some BEGIN_SYNC => on_begin_sync shuffle rnd s
    | Some TURN_SYNC => on_turn_sync s
    | Some SELF_SYNC => on_self_sync shuffle s
    | Some VOTE_SYNC => on_vote_sync s
    | Some SYNC_NEXT_TURN => on_sync_next_turn s
    | _ => Some s
    end.
Proof.
  intros Hwf Hvote. destruct (get_sync_state s) as [st|] eqn:Hst; [|done].
  pose proof (barrier_nonempty _ _ Hst) as Hlen.
  assert (valid_players (players s) <> []) as Hne.
  { unfold len_players in Hlen. destruct (valid_players (players s)); [|done].
    simpl in Hlen. lia. }
  destruct st; try done.
  - (* BEGIN_SYNC *)
    unfold on_begin_sync. apply Nat.ltb_lt in Hlen. rewrite Hlen.
    apply Nat.ltb_lt in Hlen. unfold begin_game.
    destruct (deal_loop (players s) (usable_deck shuffle s)) as (ps' & -> & _ & Hf & _).
    simpl.
    assert (length ps' = length (players s)) as Elen.
    { rewrite <- (length_map (set_cards []) ps'), Hf. apply length_map. }
    assert (0 < length (players s)) as Hpos.
    { unfold len_players, valid_players in Hlen.
      pose proof (filter_length valid (players s)). lia. }
    match goal with |- context [randrange rnd (length ?l)] => set (L := l) end.
    assert (length L = length (players s)) as EL
      by (rewrite <- Elen; apply length_map).
    assert (0 < len_players L) as HL.
    { unfold L, len_players. rewrite valid_for_players by done. rewrite length_map.
      change (0 < len_players ps').
      rewrite (len_players_valid (players s)); [done|].
      pose proof (f_equal (map valid) Hf) as E.
      rewrite <- !list_fmap_compose in E. exact E. }
    unfold randrange. rewrite EL.
    destruct (Nat.eqb_spec (length (players s)) 0) as [?|_]; [lia|]. simpl.
    destruct (lookup_lt_is_Some_2 L (rnd mod length (players s))) as [start ->].
    { rewrite EL. apply Nat.mod_upper_bound. lia. }
    simpl. by destruct (next_player_is_Some (Some (number start)) L HL) as [m ->].
  - (* TURN_SYNC *)
    destruct (on_turn_sync_spec s Hne) as (t & _ & _ & ->). done.
  - (* VOTE_SYNC *)
    destruct Hvote as (cp & cur & Hcp & Hf & Hv); [done|].
    unfold on_vote_sync.
    destruct (calculate_result_total s cp cur) as [s2 Hc]; try done; [by destruct Hwf|].
    rewrite Hc. simpl.
    pose proof (calculate_result_frame _ _ Hc) as Hfr.
    rewrite (f_equal current_player Hfr : current_player s2 = current_player s), Hcp.
    simpl.
    assert (is_Some (find_player cp (players s2))) as [cur2 ->].
    { apply find_player_is_Some.
      apply calculate_result_keeps in Hc as (H2 & _).
      rewrite (same_ids_map_number _ _ H2). apply find_player_is_Some. by eexists. }
    done.
  - (* SYNC_NEXT_TURN *)
    by rewrite on_sync_next_turn_spec.
Qed.

Lemma global_operations_returns (shuffle : forall A : Type, list A -> list A)
    (rnd : nat) (s : Server) :
  reachable s -> is_Some (global_operations shuffle rnd s).
Proof.
  intros Hr. pose proof (reachable_wf s Hr) as Hwf.
  pose proof (reachable_teller s Hr) as Ht.
  unfold global_operations, recover.
  destruct (current_player s) as [cp|] eqn:Hcp.
  - destruct (verify_ref_total cp s Hwf) as [[|] Hv]; rewrite Hv; simpl.
    + apply barrier_total; [done|]. intros _.
      destruct (verify_ref_true _ _ Hv) as (cur & ? & ?). by exists cp, cur.
    + apply barrier_total.
      * eapply wf_kept; [exact Hwf|]. apply rk_all_states, roster_kept_refl.
      * intros [Hne Hall]%get_sync_state_from_None. exfalso. simpl in *.
        rewrite valid_for_players in Hne, Hall by done.
        destruct (valid_players (players s)); [done|].
        by apply Forall_cons in Hall as [? _].
  - simpl. apply barrier_total; [done|]. intros Hst. exfalso.
    destruct Ht as [?|Hall]; [done|]. by pose proof (barrier_quiet _ _ Hst Hall).
Qed.

(** X18.  In a session [global_operations] does not raise: at every barrier
    that it finds, what it needs is there (a valid player to designate, a
    valid storyteller in the roster to count the votes for). *)
Theorem global_operations_total (shuffle : forall A : Type, list A -> list A)
    (rnd : nat) (s : Server) :
  reachable s -> is_Some (global_operations shuffle rnd s).
Proof. apply global_operations_returns. Qed.

(** *** One iteration of the main loop *)

Lemma reachable_steps s s' : reachable s -> rtc step s s' -> reachable s'.
Proof. intros Hr. induction 1; eauto using reach_step. Qed.

Lemma handle_state_total n s : is_Some (handle_state n s).
Proof.
  destruct (find_player n (players s)) as [self|] eqn:Hf.
  - apply (handle_state_table n s self) in Hf. by rewrite Hf.
  - assert (forall a (test : PState -> bool) b,
              players a = players s -> self_is n state test a && b = false) as Hno.
    { intros a test b E. unfold self_is. by rewrite E, Hf. }
    unfold handle_state, on_ver_check.
    assert (self_is n state (fun st => bool_decide (st = VER_CHECK)) s = false) as ->
      by (unfold self_is; by rewrite Hf).
    unfold on_start_wait. rewrite Hno by done.
    unfold on_ver_wait. rewrite Hno by done.
    unfold on_wait_self_card. rewrite Hno by done. simpl.
    unfold on_wait_vote. by rewrite Hno.
Qed.

Lemma handle_states_total s : is_Some (handle_states s).
Proof.
  unfold handle_states. generalize (map number (players s)). intros l. revert s.
  induction l as [|n l IH]; intros s; simpl; [done|].
  destruct (self_is n valid id s).
  - destruct (handle_state_total n s) as [s1 ->]. simpl. apply IH.
  - simpl. apply IH.
Qed.

Lemma foldM_steps {B} (f : Server -> B -> option Server) l s s' :
  (forall a x a', f a x = Some a' -> step a a') ->
  foldM f s l = Some s' -> rtc step s s'.
Proof.
  intros Hf. revert s. induction l as [|x l IH]; intros s; simpl.
  - intros [= <-]. done.
  - intros (a & Ha & Hl)%bind_Some. eapply rtc_l; eauto.
Qed.

Lemma foldM_sockets {B} (f : Server -> B -> option Server) l s s' :
  (forall a x a', f a x = Some a' -> roster_kept a a') ->
  foldM f s l = Some s' -> sockets s' = sockets s.
Proof.
  intros Hf Hl. by destruct (foldM_keeps f l s s' Hf Hl) as (_ & ? & _).
Qed.

Lemma flow_ok_kept (a a1 : Server) (rest : list Flow) :
  sockets a1 = sockets a ->
  Forall (fun f => match f with
                   | Listening new => sockets a !! new = None
                   | Client flow => is_Some (sockets a !! flow)
                   end) rest ->
  Forall (fun f => match f with
                   | Listening new => sockets a1 !! new = None
                   | Client flow => is_Some (sockets a1 !! flow)
                   end) rest.
Proof. intros ->. done. Qed.

Lemma input_phase a rflows :
  NoDup rflows ->
  Forall (fun f => match f with
                   | Listening new => sockets a !! new = None
                   | Client flow => is_Some (sockets a !! flow)
                   end) rflows ->
  (exists a', foldM (fun s f => handle_flow f s) a rflows = Some a' /\ rtc step a a') \/
  (foldM (fun s f => handle_flow f s) a rflows = None /\
   exists a2 flow,
     rtc step a a2 /\ Client flow ∈ rflows /\ is_Some (sockets a2 !! flow) /\
     handle_input flow a2 = None).
Proof.
  revert a. induction rflows as [|f rest IH]; intros a Hnd Hok; simpl.
  - left. by exists a.
  - apply NoDup_cons in Hnd as [Hf Hnd]. apply Forall_cons in Hok as [Hok Hrest].
    destruct f as [new|flow]; simpl.
    + assert (step a (accept_connection new a)) as Hstep by (by apply step_accept).
      destruct (IH (accept_connection new a) Hnd) as [(a' & -> & Hs)|(-> & a2 & k & ?&?&?&?)].
      * apply Forall_forall. intros f' Hin. rewrite Forall_forall in Hrest.
        specialize (Hrest f' Hin).
        destruct f' as [n'|k]; unfold accept_connection;
          destruct (bool_decide (game_state a = PLAYER_CONN));
          [destruct (len_players (players a) <? 7)|
          |destruct (len_players (players a) <? 7)|]; simpl; try done.
        { rewrite lookup_insert_ne; [done|]. intros <-. done. }
        { destruct (decide (new = k)) as [->|Hne];
            [by rewrite lookup_insert_eq|by rewrite lookup_insert_ne]. }
      * left. exists a'. split; [done|]. by eapply rtc_l.
      * right. split; [done|]. exists a2, k. split; [by eapply rtc_l|].
        split; [by right|done].
    + destruct (handle_input flow a) as [a1|] eqn:Hi; simpl.
      * assert (step a a1) as Hstep by (by eapply step_input).
        destruct (IH a1 Hnd) as [(a' & -> & Hs)|(-> & a2 & k & ?&?&?&?)].
        { eapply flow_ok_kept; [|exact Hrest].
          by destruct (handle_input_keeps _ _ _ Hi) as (_ & ? & _). }
        { left. exists a'. split; [done|]. by eapply rtc_l. }
        { right. split; [done|]. exists a2, k. split; [by eapply rtc_l|].
          split; [by right|done]. }
      * right. split; [done|]. exists a, flow. split; [done|]. split; [by left|done].
Qed.

Lemma flush_phase wflows a :
  reachable a -> NoDup wflows ->
  Forall (fun flow => exists p, p ∈ players a /\ player_socket p = flow /\
                                has_buffer p = true) wflows ->
  exists a1,
    foldM (fun s flow => flush flow s) a wflows = Some a1 /\ rtc step a a1 /\
    sockets a1 = sockets a.
Proof.
  revert a. induction wflows as [|k rest IH]; intros a Hr Hnd Hall; simpl.
  - by exists a.
  - apply NoDup_cons in Hnd as [Hk Hnd].
    apply Forall_cons in Hall as [(p & Hp & <- & Hb) Hrest].
    destruct (flush_ready_at a p Hr Hp Hb) as (m & rest' & c & _ & _ & Hf).
    rewrite Hf. simpl.
    assert (step a (upd (number p)
                      (fun q => set_has_buffer (0 <? length rest')
                                  (set_buffer rest' (set_conn (Some (conn_send m c)) q)))
                      a)) as Hstep by (by eapply step_flush).
    destruct (IH _ (reach_step _ _ Hr Hstep) Hnd) as (a1 & -> & Hsteps & Hsock).
    + apply Forall_forall. intros k' Hk'. rewrite Forall_forall in Hrest.
      destruct (Hrest k' Hk') as (p' & Hp' & <- & Hb').
      exists p'. split; [|done]. simpl. unfold update_player.
      apply list_elem_of_fmap. exists p'. split; [|done].
      destruct (Nat.eqb_spec (number p') (number p)) as [E|_]; [|done].
      pose proof (reachable_wf a Hr) as [Hn _ _ _].
      rewrite (NoDup_number_inj _ _ _ Hn Hp' Hp E) in Hk'. done.
    + exists a1. split; [done|]. split; [by eapply rtc_l|]. by rewrite Hsock.
Qed.

Lemma select_ok_flows s wflows rflows :
  reachable s -> select_ok s wflows rflows ->
  Forall (fun flow => exists p, p ∈ players s /\ player_socket p = flow /\
                                has_buffer p = true) wflows /\
  Forall (fun f => match f with
                   | Listening new => sockets s !! new = None
                   | Client flow => is_Some (sockets s !! flow)
                   end) rflows.
Proof.
  intros Hr (_ & Hw & _ & Hrd). pose proof (reachable_wf s Hr) as [_ _ Hall _].
  rewrite Forall_forall in Hall. split.
  - eapply Forall_impl; [exact Hw|]. intros k Hk. unfold wlist in Hk.
    apply list_elem_of_fmap in Hk as (p & -> & Hp). exists p.
    rewrite list_elem_of_In in Hp. apply filter_In in Hp as [Hp Hb].
    rewrite <- list_elem_of_In in Hp.
    apply elem_of_valid_players in Hp as [Hp _]. done.
  - eapply Forall_impl; [exact Hrd|]. intros [new|k] Hk; [done|].
    unfold rlist in Hk. apply list_elem_of_fmap in Hk as (p & -> & Hp).
    apply elem_of_valid_players in Hp as [Hp _].
    destruct (Hall p Hp) as (_ & _ & -> & _). done.
Qed.

Lemma iteration_phases wflows rflows shuffle rnd s :
  reachable s -> select_ok s wflows rflows ->
  (exists s', iteration wflows rflows shuffle rnd s = Some s' /\ rtc step s s') \/
  (iteration wflows rflows shuffle rnd s = None /\
   exists a flow,
     reachable a /\ Client flow ∈ rflows /\ is_Some (sockets a !! flow) /\
     handle_input flow a = None).
Proof.
  intros Hr Hsel. destruct (select_ok_flows _ _ _ Hr Hsel) as [Hw Hrd].
  destruct Hsel as (Hndw & _ & Hndr & _). unfold iteration.
  destruct (flush_phase wflows s Hr Hndw Hw) as (s1 & -> & Hs1 & Hsock). simpl.
  destruct (input_phase s1 rflows Hndr) as [(s2 & -> & Hs2)|(-> & a & flow & Ha & ? & ? & ?)].
  { by rewrite Hsock. }
  2:{ right. split; [done|]. exists a, flow. split; [|done].
      eapply reachable_steps; [exact Hr|]. by etrans. }
  simpl. destruct (handle_states_total s2) as [s3 H3]. rewrite H3. simpl.
  assert (rtc step s s3) as Hs3.
  { etrans; [exact Hs1|]. etrans; [exact Hs2|]. apply rtc_once. by apply step_states. }
  pose proof (reachable_steps _ _ Hr Hs3) as Hr3.
  destruct (global_operations_returns shuffle rnd s3 Hr3) as [s4 H4]. rewrite H4. simpl.
  assert (rtc step s s4) as Hs4.
  { etrans; [exact Hs3|]. apply rtc_once. by eapply step_global. }
  pose proof (reachable_steps _ _ Hr Hs4) as Hr4.
  destruct (check_total s4 (reachable_wf _ Hr4)) as [s5 H5]. rewrite H5.
  left. exists s5. split; [done|]. etrans; [exact Hs4|]. apply rtc_once.
  by apply step_check.
Qed.

Lemma iteration_reachable (wflows : list Sock) (rflows : list Flow)
    (shuffle : forall A : Type, list A -> list A) (rnd : nat) (s s' : Server) :
  reachable s -> select_ok s wflows rflows ->
  iteration wflows rflows shuffle rnd s = Some s' ->
  rtc step s s' /\ reachable s'.
Proof.
  intros Hr Hsel Hit.
  destruct (iteration_phases wflows rflows shuffle rnd s Hr Hsel)
    as [(s1 & E & Hs)|(E & _)]; [|congruence].
  assert (s1 = s') as -> by congruence. split; [done|]. by eapply reachable_steps.
Qed.

(** X19.  An iteration of the main loop that returns is a sequence of
    operations of the session, so what holds in the reachable states holds
    along the loop. *)
Theorem iteration_steps (wflows : list Sock) (rflows : list Flow)
    (shuffle : forall A : Type, list A -> list A) (rnd : nat) (s s' : Server) :
  reachable s -> select_ok s wflows rflows ->
  iteration wflows rflows shuffle rnd s = Some s' ->
  rtc step s s' /\ reachable s'.
Proof. apply iteration_reachable. Qed.

(** X20.  What the server's own code can raise in an iteration.  The calls
    of the socket and connection objects are taken to return.  Then, in a
    session, an iteration of the main loop raises only in "Handle input",
    and only on a clue or a card whose second token passes [str.isnumeric]
    and is rejected by [int()] (a character that is numeric without being a
    decimal digit, or more than 4300 digits): no lookup, index, attribute
    access or removal of the flushes, the state events, the barriers and
    the sweep fails. *)
Theorem iteration_raises_on_input (wflows : list Sock) (rflows : list Flow)
    (shuffle : forall A : Type, list A -> list A) (rnd : nat) (s : Server) :
  reachable s -> select_ok s wflows rflows ->
  iteration wflows rflows shuffle rnd s = None ->
  exists a flow n self c,
    reachable a /\ Client flow ∈ rflows /\
    sockets a !! flow = Some n /\ find_player n (players a) = Some self /\
    conn self = Some c /\
    handle_message n a = None /\
    py_isnumeric (tok 1 (py_split (conn_get c).1)) = true /\
    py_int (tok 1 (py_split (conn_get c).1)) = None /\
    (state self = WAIT_ASSOC \/ state self = WAIT_SELF_CARD \/ state self = WAIT_VOTE).
Proof.
  intros Hr Hsel Hit.
  destruct (iteration_phases wflows rflows shuffle rnd s Hr Hsel)
    as [(s1 & E & _)|(_ & a & flow & Ha & Hin & Hlk & Hi)]; [congruence|].
  destruct Hlk as [n Hn].
  destruct (reachable_lookup a flow n Ha Hn) as (self & Hself & Hsock & Hnum).
  pose proof (reachable_wf a Ha) as [Hnd _ Hall _].
  rewrite Forall_forall in Hall. destruct (Hall self Hself) as (_ & [c Hc] & _).
  pose proof (find_player_elem _ _ Hnd Hself) as Hf. rewrite Hnum in Hf.
  unfold handle_input in Hi. rewrite Hn in Hi. simpl in Hi.
  exists a, flow, n, self, c. repeat (split; [done|]).
  destruct (conn_get c) as [line c'] eqn:Hg. simpl.
  destruct (proj1 (handle_message_None n a self c c' line Hf Hc Hg) Hi)
    as (H1 & H2 & [(? & _)|([?|?] & _)]); auto.
Qed.

(** *** The barriers [BEGIN_SYNC] and [VOTE_SYNC] *)

Lemma digest_cards (ps ps' : list Player) :
  map (set_cards []) ps' = map (set_cards []) ps ->
  player_list_digest ps' = player_list_digest ps.
Proof.
  intros E. unfold player_list_digest, valid_players. f_equal.
  revert ps' E. induction ps as [|p ps IH]; intros [|p' ps']; simpl; try done.
  intros E0. pose proof (f_equal (hd p) E0) as Ep. pose proof (f_equal (@tl _) E0) as E.
  simpl in Ep, E. clear E0.
  assert (valid p' = valid p) as -> by exact (f_equal valid Ep).
  assert (get_broadcast p' = get_broadcast p) as Eg by exact (f_equal get_broadcast Ep).
  assert (number p' = number p) as En by exact (f_equal number Ep).
  assert (name p' = name p) as Em by exact (f_equal name Ep).
  destruct (valid p); simpl; [|auto].
  rewrite Eg. destruct (get_broadcast p); simpl; [|auto].
  by rewrite En, Em, (IH _ E).
Qed.

(** X21.  The [BEGIN_SYNC] barrier.  With a storyteller that verifies, or
    none, when every valid player is in [BEGIN_SYNC]: the valid players
    receive, in join order, the consecutive slices of six cards of the
    usable deck, so the last ones receive fewer cards, or none, when the
    deck runs out, and every valid player holds exactly six cards when the
    usable deck has six for each of them; the server keeps the rest of the
    deck; every valid player goes to [READY_WAIT]; the last message of its
    queue is [BEGIN] with the card set, its own hand and the list of
    players; and a valid player is designated. *)
Theorem begin_sync_starts (shuffle : forall A : Type, list A -> list A)
    (rnd : nat) (s : Server) :
  storyteller_ok s ->
  synchronized_on BEGIN_SYNC s ->
  exists s' t,
    global_operations shuffle rnd s = Some s' /\
    synchronized_on READY_WAIT s' /\
    t ∈ valid_players (players s') /\ current_player s' = Some (number t) /\
    map cards (valid_players (players s'))
    = map (hand_at (usable_deck shuffle s)) (seq 0 (len_players (players s))) /\
    srv_cards s' = drop (6 * len_players (players s)) (usable_deck shuffle s) /\
    Forall (fun p =>
              last (buffer p)
              = Some ("BEGIN " +:+ card_set s +:+ " "
                      +:+ py_join "," (map str_Z (cards p)) +:+ " "
                      +:+ player_list_digest (players s)))
           (valid_players (players s')) /\
    (6 * len_players (players s) <= length (usable_deck shuffle s) ->
     Forall (fun p => length (cards p) = 6) (valid_players (players s'))).
Proof.
  intros Hok Hsync. pose proof Hsync as [Hne _].
  assert (0 < len_players (players s)) as Hlen.
  { unfold len_players. destruct (valid_players (players s)); [done|simpl; lia]. }
  unfold global_operations. rewrite (recover_storyteller_ok s Hok). simpl.
  rewrite (get_sync_state_synchronized _ _ Hsync).
  unfold on_begin_sync. apply Nat.ltb_lt in Hlen. rewrite Hlen. apply Nat.ltb_lt in Hlen.
  unfold begin_game.
  destruct (deal_loop (players s) (usable_deck shuffle s)) as (ps' & -> & Hh & Hf & _).
  simpl. rewrite (digest_cards _ _ Hf).
  set (msg := fun player : Player =>
                send_message
                  ("BEGIN " +:+ card_set s +:+ " "
                   +:+ py_join "," (map str_Z (cards player)) +:+ " "
                   +:+ player_list_digest (players s))
                  (set_state READY_WAIT player)).
  set (L := for_players msg ps').
  assert (map valid ps' = map valid (players s)) as Ev.
  { pose proof (f_equal (map valid) Hf) as E.
    rewrite <- !list_fmap_compose in E. exact E. }
  assert (valid_players L = map msg (valid_players ps')) as HvL
    by (by apply valid_for_players).
  assert (0 < len_players L) as HL.
  { unfold len_players. rewrite HvL, length_map.
    change (0 < len_players ps'). by rewrite (len_players_valid _ _ Ev). }
  assert (length L = length (players s)) as EL.
  { unfold L, for_players. rewrite length_map.
    rewrite <- (length_map (set_cards []) ps'), Hf. apply length_map. }
  assert (0 < length (players s)) as Hpos.
  { unfold len_players, valid_players in Hlen.
    pose proof (filter_length valid (players s)). lia. }
  unfold randrange. rewrite EL.
  destruct (Nat.eqb_spec (length (players s)) 0) as [?|_]; [lia|]. simpl.
  destruct (lookup_lt_is_Some_2 L (rnd mod length (players s))) as [start ->].
  { rewrite EL. apply Nat.mod_upper_bound. lia. }
  simpl.
  destruct (next_player_scan (Some (number start)) L)
    as [[Hnil _]|(k & t & _ & Ht & Hv & _ & ->)].
  { unfold len_players in HL. rewrite Hnil in HL. simpl in HL. lia. }
  simpl. eexists. exists t. split; [reflexivity|].
  unfold synchronized_on.
  cbn [players current_player srv_cards set_current_player set_players set_srv_cards].
  fold msg. fold L.
  assert (map cards (valid_players L)
          = map (hand_at (usable_deck shuffle s)) (seq 0 (len_players (players s))))
    as Hhands.
  { rewrite HvL, <- list_fmap_compose. rewrite <- Hh. by apply list_fmap_ext. }
  split; [|split; [|split; [|split; [|split; [|split]]]]]; try done.
  - split; rewrite HvL.
    + intros E. rewrite E in HvL. unfold len_players in HL. rewrite HvL in HL.
      simpl in HL. lia.
    + apply Forall_fmap, Forall_forall. by intros p _.
  - apply elem_of_valid_players. split; [by eapply list_elem_of_lookup_2|done].
  - rewrite HvL. apply Forall_fmap, Forall_forall. intros p _. simpl.
    apply last_snoc.
  - intros Hdeck.
    assert (Forall (fun h => length h = 6) (map cards (valid_players L))) as Hall.
    { rewrite Hhands. apply Forall_fmap, Forall_forall. intros j Hj.
      apply elem_of_seq in Hj. unfold hand_at. simpl.
      rewrite length_take, length_drop. lia. }
    by apply Forall_fmap in Hall.
Qed.

(** X22.  The [VOTE_SYNC] barrier.  In a roster of distinct player objects
    with a storyteller that verifies, when every valid player is in
    [VOTE_SYNC]: the scores are updated by [calculate_result], [STATUS] with
    the storyteller's card, the cards played and chosen and the new scores
    is queued for the eligible valid players, every valid player goes to
    [WAIT_NEXT_TURN], and the storyteller stays. *)
Theorem vote_sync_scores (shuffle : forall A : Type, list A -> list A)
    (rnd : nat) (s : Server) (cp : nat) (teller : Player) :
  NoDup (map number (players s)) ->
  current_player s = Some cp ->
  find_player cp (players s) = Some teller ->
  verify teller = Some true ->
  synchronized_on VOTE_SYNC s ->
  exists s2 teller2 s',
    calculate_result s = Some s2 /\
    find_player cp (players s2) = Some teller2 /\
    global_operations shuffle rnd s = Some s' /\
    players s'
    = for_players
        (fun p =>
           set_state WAIT_NEXT_TURN
             (if get_broadcast p then
                send_message
                  ("STATUS " +:+ str_card (current_card teller2) +:+ " "
                   +:+ py_join ","
                         (map (fun player =>
                                 str_nat (number player) +:+ ";"
                                 +:+ str_card (current_card player) +:+ ";"
                                 +:+ str_card (selected_card player))
                              (valid_players (players s2)))
                   +:+ " "
                   +:+ py_join ","
                         (map (fun player =>
                                 str_nat (number player) +:+ ";"
                                 +:+ str_Z (score player))
                              (valid_players (players s2)))) p
              else p))
        (players s2) /\
    synchronized_on WAIT_NEXT_TURN s' /\
    current_player s' = Some cp.
Proof.
  intros Hnd Hcp Hf Hv Hsync.
  assert (valid teller = true) as Hvalid by (unfold verify in Hv; by destruct (valid teller)).
  destruct (calculate_result_total s cp teller Hnd Hcp Hf Hvalid) as [s2 Hc].
  pose proof (calculate_result_frame _ _ Hc) as Hfr.
  pose proof (f_equal current_player Hfr : current_player s2 = current_player s) as Hcp2.
  assert (is_Some (find_player cp (players s2))) as [teller2 Hf2].
  { apply find_player_is_Some.
    pose proof (calculate_result_keeps _ _ Hc) as (H2 & _).
    rewrite (same_ids_map_number _ _ H2). apply find_player_is_Some. by eexists. }
  assert (Forall2 (fun p p' => valid p' = valid p /\ state p' = state p)
            (players s) (players s2)) as Hkept.
  { eapply (calculate_result_rel (fun p p' => valid p' = valid p /\ state p' = state p));
      eauto.
    intros p q r [? ?] [? ?]. split; congruence. }
  assert (valid_players (players s2) <> []) as Hne2.
  { destruct Hsync as [Hne _].
    assert (len_players (players s2) = len_players (players s)) as E.
    { apply len_players_valid. clear -Hkept.
      induction Hkept as [|p p' ps ps' [E _] _ IH]; simpl; [done|]. by rewrite E, IH. }
    unfold len_players in E. intros E2. rewrite E2 in E.
    destruct (valid_players (players s)); done. }
  exists s2, teller2. eexists. split; [done|]. split; [done|]. split.
  { unfold global_operations, recover. rewrite Hcp. unfold verify_ref. rewrite Hf, Hv.
    simpl. rewrite (get_sync_state_synchronized _ _ Hsync).
    unfold on_vote_sync. rewrite Hc. simpl. rewrite Hcp2, Hcp. simpl. rewrite Hf2. simpl.
    unfold set_all_states. simpl.
    rewrite for_players_compose by (intros p; by destruct (get_broadcast p)).
    reflexivity. }
  simpl. split; [done|]. split; [|by rewrite Hcp2].
  apply (synchronized_for_players s2); [done| |];
    intros p; by destruct (get_broadcast p).
Qed.

(** *** The output queue *)

Lemma update_player_compose n f g (ps : list Player) :
  (forall p, number (g p) = number p) ->
  update_player n f (update_player n g ps) = update_player n (fun p => f (g p)) ps.
Proof.
  intros Hg. unfold update_player. rewrite <- list_fmap_compose.
  apply list_fmap_ext. intros _ p _. simpl.
  destruct (number p =? n) eqn:E; [by rewrite Hg, E|by rewrite E].
Qed.

Lemma flush_one (s : Server) k n p c m rest :
  sockets s !! k = Some n -> find_player n (players s) = Some p ->
  conn p = Some c -> buffer p = m :: rest ->
  flush k s
  = Some (upd n
            (fun q => set_has_buffer (0 <? length rest)
                        (set_buffer rest (set_conn (Some (conn_send m c)) q)))
            s).
Proof.
  intros Hk Hf Hc Hb. unfold flush. rewrite Hk. simpl. rewrite Hf. simpl.
  rewrite Hc. simpl. by rewrite Hb.
Qed.

Lemma flush_all (k : Sock) (n : nat) (buf : list string) :
  forall (c : connection) (s : Server) (p : Player),
    sockets s !! k = Some n ->
    find_player n (players s) = Some p ->
    conn p = Some c -> buffer p = buf -> buf <> [] ->
    foldM (fun a flow => flush flow a) s (replicate (length buf) k)
    = Some (upd n
              (fun q => set_has_buffer false
                          (set_buffer []
                             (set_conn (Some (foldl (fun c m => conn_send m c) c buf)) q)))
              s).
Proof.
  induction buf as [|m rest IH]; intros c s p Hk Hf Hc Hb Hne; [done|].
  cbn [length replicate foldM].
  rewrite (flush_one s k n p c m rest Hk Hf Hc Hb). cbn [mbind option_bind].
  set (f := fun q : Player =>
              set_has_buffer (0 <? length rest)
                (set_buffer rest (set_conn (Some (conn_send m c)) q))).
  destruct (decide (rest = [])) as [->|Hrest]; [done|].
  rewrite (IH (conn_send m c) (upd n f s) (f p)); try done.
  - f_equal. unfold upd. cbn [players set_players]. rewrite update_player_compose by done.
    reflexivity.
  - by apply find_player_upd.
Qed.

(** X23.  The queue is first in, first out.  Writing out the queue of a
    player one message per ready socket, as "Push buffers" does, leaves what
    [Player.push_buffer] leaves: the queued messages sent on the connection
    in the order in which they were queued, an empty queue and a cleared
    flag. *)
Theorem flush_until_empty (s : Server) (k : Sock) (n : nat) (p : Player)
    (c : connection) :
  sockets s !! k = Some n ->
  find_player n (players s) = Some p ->
  conn p = Some c -> buffer p <> [] ->
  push_buffer p
  = Some (set_has_buffer false
            (set_buffer []
               (set_conn (Some (foldl (fun c m => conn_send m c) c (buffer p))) p))) /\
  foldM (fun a flow => flush flow a) s (replicate (length (buffer p)) k)
  = Some (upd n
            (fun q =>
               set_has_buffer false
                 (set_buffer []
                    (set_conn (Some (foldl (fun c m => conn_send m c) c (buffer p))) q)))
            s).
Proof.
  intros Hk Hf Hc Hne. split.
  - unfold push_buffer. rewrite Hc. by destruct (buffer p).
  - by eapply flush_all.
Qed.

(** *** [PlayerList.stop] *)

Lemma push_buffer_stop (p : Player) :
  is_Some (conn p) ->
  exists q, push_buffer p = Some q /\ number q = number p /\
            buffer q = [] /\ has_buffer q = false.
Proof.
  intros [c Hc]. unfold push_buffer. rewrite Hc. destruct (buffer p) eqn:E; eauto.
Qed.

Lemma mapM_push_buffer (ps : list Player) :
  Forall (fun p => is_Some (conn p)) ps ->
  exists qs, mapM push_buffer ps = Some qs /\
             Forall2 (fun p q => number q = number p /\ buffer q = [] /\
                                 has_buffer q = false) ps qs.
Proof.
  induction 1 as [|p ps Hp _ (qs & Hqs & H2)].
  - exists []. by split.
  - destruct (push_buffer_stop p Hp) as (q & Hq & ?).
    exists (q :: qs). split; [|by constructor].
    simpl. by rewrite Hq; simpl; rewrite Hqs.
Qed.

(** X24.  [PlayerList.stop] does not raise on a well-formed roster.  It
    empties the roster and the lookup, and leaves every player stopped:
    invalid, without connection, with an empty queue. *)
Theorem stop_all_stops (s : Server) :
  wf s ->
  exists s',
    stop_all s = Some s' /\ players s' = [] /\ sockets s' = ∅ /\
    exists stopped,
      gone s' = gone s ++ stopped /\
      Forall2 (fun p q => number q = number p /\ valid q = false /\ conn q = None /\
                          buffer q = [] /\ has_buffer q = false)
              (players s) stopped.
Proof.
  intros [_ _ Hall _].
  destruct (mapM_push_buffer (players s)) as (qs & Hqs & H2).
  { eapply Forall_impl; [exact Hall|]. by intros p (_ & ? & _). }
  unfold stop_all. rewrite Hqs. simpl. eexists. split; [done|]. simpl.
  split; [done|]. split; [done|]. exists (map stop qs). split; [done|].
  apply Forall2_fmap_r. eapply Forall2_impl; [exact H2|].
  intros p q (? & ? & ?). simpl. done.
Qed.

(** *** The console command [start] and the loss of the master *)

(** X25.  The console command [start] acts only in the phase [PLAYER_CONN]
    and on a line of exactly two tokens: the phase becomes [GAME] and the
    card set the second token.  At the next state event a player in
    [START_WAIT] then goes to [BEGIN_SYNC], as on the master's
    [START_GAME], and a player still in [VER_WAIT] is invalidated. *)
Theorem console_start (cmdline : list string) (s : Server) (n : nat) (self : Player) :
  find_player n (players s) = Some self ->
  (comm_start cmdline s <> s ->
   game_state s = PLAYER_CONN /\ length cmdline = 2 /\
   comm_start cmdline s = set_game_state GAME (set_card_set (tok 1 cmdline) s)) /\
  (game_state s = PLAYER_CONN -> length cmdline = 2 ->
   (state self = START_WAIT ->
    handle_state n (comm_start cmdline s)
    = Some (upd n (set_state BEGIN_SYNC)
              (set_game_state GAME (set_card_set (tok 1 cmdline) s)))) /\
   (state self = VER_WAIT ->
    handle_state n (comm_start cmdline s)
    = Some (upd n (set_valid false)
              (set_game_state GAME (set_card_set (tok 1 cmdline) s))))).
Proof.
  intros Hf. split.
  - unfold comm_start. case_bool_decide as Hg; simpl; [|done].
    destruct (Nat.eqb_spec (length cmdline) 2); [done|done].
  - intros Hg Hlen. unfold comm_start.
    rewrite bool_decide_eq_true_2 by done. simpl. rewrite Hlen. simpl.
    split; intros Hst;
      rewrite (handle_state_table n _ self) by done; by rewrite Hst.
Qed.

(** X26.  The loss of the master ends the session.  When the sweep removes
    the [MASTER] in the phase [PLAYER_CONN], the phase becomes [ERROR], the
    other players are left as they are (no list of players is sent), and
    the exit test of the main loop holds. *)
Theorem master_loss_ends_session (s s1 : Server) (i : nat) (p : Player) :
  check s = Some s1 ->
  first_dead 0 (players s) = Some (Some i) ->
  players s !! i = Some p ->
  status p = MASTER ->
  game_state s = PLAYER_CONN ->
  game_state s1 = ERROR /\ session_over s1 = true /\
  players s1 = delete i (players s).
Proof.
  intros Hc Hd Hp Hm Hg. unfold check in Hc. rewrite Hd in Hc. simpl in Hc.
  rewrite Hp in Hc. simpl in Hc.
  apply bind_Some in Hc as (flushed & _ & Hc).
  apply bind_Some in Hc as (? & _ & Hc). simpl in Hc.
  rewrite (bool_decide_eq_true_2 (status p = MASTER)) in Hc by done.
  rewrite (bool_decide_eq_true_2 (game_state s = PLAYER_CONN)) in Hc by done.
  simpl in Hc. injection Hc as <-. done.
Qed.

(** *** After a clue that fails the test *)

Lemma handle_states_turn_sync s :
  Forall (fun p => state p = TURN_SYNC) (valid_players (players s)) ->
  handle_states s = Some s.
Proof.
  intros Hall. unfold handle_states. generalize (map number (players s)).
  intros l. induction l as [|n l IH]; simpl; [done|].
  assert ((if self_is n valid id s then handle_state n s else Some s) = Some s) as ->.
  { unfold self_is. destruct (find_player n (players s)) as [p|] eqn:Hf; [|done].
    simpl. destruct (valid p) eqn:Hv; [|done].
    rewrite (handle_state_table n s p Hf).
    assert (state p = TURN_SYNC) as ->; [|done].
    rewrite Forall_forall in Hall. apply Hall, elem_of_valid_players.
    split; [|done]. by apply (find_player_Some n). }
  simpl. exact IH.
Qed.

(** X28.  After a clue that fails the test of the [WAIT_ASSOC] branch, sent
    by the storyteller of a game.  The state events that follow do
    nothing.  If the sender was the only valid player, no valid player is
    left and the exit test of the main loop holds: the session ends.
    Otherwise the round restarts: [global_operations] designates a valid
    player other than the sender, every valid player goes to [WAIT_ASSOC],
    the phase is still [GAME] and the exit test does not hold. *)
Theorem malformed_clue_restarts (shuffle : forall A : Type, list A -> list A)
    (rnd : nat) (s : Server) (n : nat) (self : Player) (c c' : connection)
    (line : string) :
  find_player n (players s) = Some self ->
  conn self = Some c ->
  conn_get c = (line, c') ->
  state self = WAIT_ASSOC ->
  has_turn self = true ->
  malformed_clue (py_split line) ->
  current_player s = Some n ->
  game_state s = GAME ->
  exists s',
    handle_message n s = Some s' /\
    handle_states s' = Some s' /\
    ((valid_players (players s') = [] /\ session_over s' = true) \/
     (exists t s'',
        t ∈ valid_players (players s') /\ number t <> n /\
        global_operations shuffle rnd s' = Some s'' /\
        current_player s'' = Some (number t) /\
        synchronized_on WAIT_ASSOC s'' /\
        game_state s'' = GAME /\ session_over s'' = false)).
Proof.
  intros Hf Hc Hg Hst Ht Hm Hcp Hph.
  destruct (malformed_clue_handled s n self c c' line Hf Hc Hg Hst Ht Hm)
    as (s' & Hh & Hps & Hfr & Hgs & Hinv & Hsync).
  exists s'. split; [exact Hh|]. split; [by apply handle_states_turn_sync|].
  assert (current_player s' = Some n) as Hcp'
    by (rewrite <- Hcp; exact (f_equal current_player Hfr)).
  assert (game_state s' = GAME) as Hph' by congruence.
  destruct (decide (valid_players (players s') = [])) as [Hv|Hv].
  - left. split; [exact Hv|]. unfold session_over, len_players. by rewrite Hv, Hph'.
  - right.
    assert (verify_ref n s' = Some false) as Hdead.
    { unfold verify_ref. rewrite Hps.
      rewrite find_player_map.
      2:{ intros p. destruct (number p =? n); [done|]. by destruct (valid p). }
      rewrite Hf. simpl. destruct (find_player_Some _ _ _ Hf) as [_ ->].
      by rewrite Nat.eqb_refl. }
    destruct (lost_storyteller_turn shuffle rnd s' n Hcp' Hdead Hv)
      as (t & s'' & Htin & _ & Hgo & Hcur & _ & Hsy).
    exists t, s''. split; [exact Htin|]. split.
    { intros Hn. apply elem_of_valid_players in Htin as [Htin Htv].
      rewrite Forall_forall in Hinv. rewrite (Hinv t Htin Hn) in Htv. done. }
    split; [exact Hgo|]. split; [exact Hcur|]. split; [exact Hsy|].
    destruct (global_operations_footprint _ _ _ _ Hgo) as (Hph'' & _).
    rewrite Hph' in Hph''. split; [exact Hph''|].
    unfold session_over, len_players. rewrite Hph''.
    destruct Hsy as [Hne _].
    destruct (valid_players (players s'')); done.
Qed.

End Protocol.

(** ** The properties on concrete rosters *)

#[local] Existing Instance script_api.

Lemma id_shuffle_perm : forall A (l : list A), Permutation (id_shuffle A l) l.
Proof. intros A l. apply Permutation_refl. Defined.

Lemma calculate_result_scores_witness :
  NoDup (map number (players vote_round)) /\
  calculate_result vote_round
  = Some (set_players
            (map (fun p =>
                    if valid p then
                      set_score
                        (score p
                         + score_gain teller7 (valid_players (players vote_round)) p)%Z p
                    else p)
                 (players vote_round))
            vote_round) /\
  map score (players (default vote_round (calculate_result vote_round)))
  = [4; 5; 0; 0]%Z.
Proof.
  assert (NoDup (map number (players vote_round))) as Hn
    by (apply (bool_decide_unpack _); vm_compute; exact I).
  split; [exact Hn|].
  split; [|vm_compute; reflexivity].
  apply (calculate_result_scores vote_round 0 teller7 Hn); reflexivity.
Defined.

Lemma begin_game_deal_witness :
  (forall A (l : list A), Permutation (id_shuffle A l) l) /\
  exists s',
    begin_game id_shuffle (at_deal (card_set_of 98) 5) = Some s' /\
    Forall (fun p => length (cards p) = 6) (valid_players (players s')) /\
    NoDup (concat (map cards (valid_players (players s'))) ++ srv_cards s').
Proof.
  split; [exact id_shuffle_perm|].
  destruct (begin_game_deal id_shuffle (at_deal (card_set_of 98) 5) id_shuffle_perm)
    as (s' & Hb & _ & _ & _ & _ & Hnd & Hsix).
  exists s'. split; [exact Hb|]. split; [|exact Hnd].
  apply Hsix. vm_compute. lia.
Defined.

(** C2 as stated fails: with five players and a set of 50 cards the usable
    deck has 27 cards, and the fifth player receives three. *)
Lemma begin_game_short_hand :
  (forall A (l : list A), Permutation (id_shuffle A l) l) /\
  synchronized_on BEGIN_SYNC (at_deal (card_set_of 50) 5) /\
  len_players (players (at_deal (card_set_of 50) 5)) = 5 /\
  card_num (at_deal (card_set_of 50) 5) = 50%Z /\
  (fun s => map (fun p => length (cards p)) (valid_players (players s)))
    <$> begin_game id_shuffle (at_deal (card_set_of 50) 5)
  = Some [6; 6; 6; 6; 3] /\
  (fun s => map (fun p => (state p, length (cards p))) (valid_players (players s)))
    <$> global_operations id_shuffle 0 (at_deal (card_set_of 50) 5)
  = Some [ (READY_WAIT, 6); (READY_WAIT, 6); (READY_WAIT, 6); (READY_WAIT, 6);
           (READY_WAIT, 3) ].
Proof.
  split; [exact id_shuffle_perm|].
  split; [split; [vm_compute; discriminate|vm_compute; repeat constructor]|].
  split; [vm_compute; reflexivity|]. split; [vm_compute; reflexivity|].
  split; vm_compute; reflexivity.
Qed.

Lemma usable_deck_size_witness :
  (deck_offset (len_players (players (at_deal (card_set_of 50) 5)))
   <= card_num (at_deal (card_set_of 50) 5))%Z /\
  length (usable_deck id_shuffle (at_deal (card_set_of 50) 5)) = 27.
Proof.
  assert (deck_offset (len_players (players (at_deal (card_set_of 50) 5)))
          <= card_num (at_deal (card_set_of 50) 5))%Z as Hle
    by (vm_compute; discriminate).
  split; [exact Hle|].
  destruct (usable_deck_size id_shuffle (at_deal (card_set_of 50) 5)
              id_shuffle_perm Hle) as [_ H50].
  assert (card_num (at_deal (card_set_of 50) 5) = 50%Z) as Hc
    by (vm_compute; reflexivity).
  rewrite (H50 Hc). vm_compute. reflexivity.
Defined.

(** C3 as stated fails on a small card set: with 20 cards and five players
    the slice [cards[:20 - 23]] keeps 17 cards. *)
Lemma usable_deck_small_set :
  card_num (at_deal (card_set_of 20) 5) = 20%Z /\
  len_players (players (at_deal (card_set_of 20) 5)) = 5 /\
  length (usable_deck id_shuffle (at_deal (card_set_of 20) 5)) = 17 /\
  Z.of_nat (length (usable_deck id_shuffle (at_deal (card_set_of 20) 5)))
  <> (20 - 23)%Z.
Proof.
  split; [vm_compute; reflexivity|]. split; [vm_compute; reflexivity|].
  split; [vm_compute; reflexivity|]. vm_compute. discriminate.
Qed.

Lemma sync_next_turn_witness :
  storyteller_ok next_round /\
  synchronized_on SYNC_NEXT_TURN next_round /\
  global_operations id_shuffle 0 next_round = Some (next_turn_spec next_round) /\
  map (fun p => (valid p, state p, cards p, buffer p))
      (players (next_turn_spec next_round))
  = [ (true, TURN_SYNC, [2; 8]%Z, ["CARDS 2,8"]);
      (true, TURN_SYNC, [4; 9]%Z, ["CARDS 4,9"]);
      (true, TURN_SYNC, [5; 10]%Z, ["CARDS 5,10"]) ] /\
  srv_cards (next_turn_spec next_round) = [11]%Z.
Proof.
  assert (storyteller_ok next_round) as Hok by reflexivity.
  assert (synchronized_on SYNC_NEXT_TURN next_round) as Hsync
    by (split; [discriminate|repeat constructor]).
  split; [exact Hok|]. split; [exact Hsync|].
  split; [exact (sync_next_turn id_shuffle 0 next_round Hok Hsync)|].
  split; vm_compute; reflexivity.
Defined.

(** C4 as stated fails twice.  In [last_card] the second player is left
    without cards, the first one is not: the game goes on.  In
    [teller_gone] the valid players are synchronized on [SYNC_NEXT_TURN]
    and the storyteller is invalid: they are sent to the next turn with
    their played cards still in hand. *)
Lemma end_game_first_hand_only :
  (storyteller_ok last_card /\
   synchronized_on SYNC_NEXT_TURN last_card /\
   exists s',
     global_operations id_shuffle 0 last_card = Some s' /\
     map (fun p => (valid p, state p, cards p, buffer p)) (players s')
     = [ (true, TURN_SYNC, [2]%Z, ["CARDS 2"]); (true, TURN_SYNC, [], ["CARDS "]) ]) /\
  (synchronized_on SYNC_NEXT_TURN teller_gone /\
   map (fun p => (valid p, cards p, current_card p)) (players teller_gone)
   = [ (false, [1; 2]%Z, Some 1%Z); (true, [3; 4]%Z, Some 3%Z);
       (true, [5; 6]%Z, Some 6%Z) ] /\
   exists s',
     global_operations id_shuffle 0 teller_gone = Some s' /\
     map (fun p => (valid p, state p, cards p, buffer p)) (players s')
     = [ (false, WAIT_NEXT_TURN, [1; 2]%Z, []);
         (true, WAIT_ASSOC, [3; 4]%Z, ["TURN 1"]);
         (true, WAIT_ASSOC, [5; 6]%Z, ["TURN 1"]) ]).
Proof.
  split.
  - split; [reflexivity|]. split; [split; [discriminate|repeat constructor]|].
    eexists. split; vm_compute; reflexivity.
  - split; [split; [discriminate|repeat constructor]|]. split; [reflexivity|].
    eexists. split; vm_compute; reflexivity.
Qed.

Lemma malformed_clue_rewinds_witness :
  malformed_clue (py_split "TURN blue sky") /\
  exists s',
    handle_message 0 bad_clue = Some s' /\
    game_state s' = GAME /\
    map (fun p => (valid p, state p)) (players s')
    = [ (false, WAIT_ASSOC); (true, TURN_SYNC); (true, TURN_SYNC) ].
Proof.
  assert (malformed_clue (py_split "TURN blue sky")) as Hm
    by (right; right; reflexivity).
  split; [exact Hm|].
  destruct (malformed_clue_rewinds bad_clue 0 clue_sender
              (reading ["TURN blue sky"]) (reading []) "TURN blue sky"
              eq_refl eq_refl eq_refl eq_refl eq_refl Hm)
    as (s' & Hh & Hps & _ & Hg & _).
  exists s'. split; [exact Hh|]. split; [rewrite Hg; reflexivity|].
  rewrite Hps. reflexivity.
Defined.

Lemma accept_connection_admission_witness :
  (players (accept_connection 17 (seated None 7)) = players (seated None 7) /\
   sockets (accept_connection 17 (seated None 7)) = sockets (seated None 7) /\
   closed (accept_connection 17 (seated None 7)) = [17]) /\
  map status (players (accept_connection 10 (fresh None))) = [MASTER].
Proof.
  destruct (accept_connection_admission 17 (seated None 7)) as (_ & _ & Hfull).
  destruct (accept_connection_admission 10 (fresh None)) as (Hadd & _).
  split.
  - apply Hfull; reflexivity.
  - destruct Hadd as (_ & Hps & _); [reflexivity|vm_compute; lia|].
    rewrite Hps. reflexivity.
Defined.

Lemma late_joiner_reachable : reachable late_joiner.
Proof.
  apply (reach_step master_left).
  - apply (reach_step (seated None 1)).
    + apply (reach_step (fresh None)); [apply reach_prepare|].
      apply (step_accept 10 (fresh None)). reflexivity.
    + apply (step_input 10). vm_compute. reflexivity.
  - apply (step_accept 11 master_left). vm_compute. reflexivity.
Defined.

Lemma master_is_first_joiner_witness :
  reachable late_joiner /\
  map (fun p => (number p, status p, valid p)) (players late_joiner)
  = [ (0, MASTER, false); (1, PLAYER, true) ] /\
  length (List.filter (fun p => bool_decide (status p = MASTER)) (players late_joiner))
  <= 1.
Proof.
  split; [exact late_joiner_reachable|]. split; [vm_compute; reflexivity|].
  exact (proj1 (master_is_first_joiner late_joiner late_joiner_reachable)).
Defined.

Lemma lobby_wf : wf (lobby [1]).
Proof.
  split.
  - apply (bool_decide_unpack _). vm_compute. exact I.
  - apply (bool_decide_unpack _). vm_compute. exact I.
  - repeat constructor; try (vm_compute; lia); try (eexists; reflexivity);
      try reflexivity; try discriminate.
  - split; [vm_compute; lia|reflexivity].
Defined.

Lemma check_twice_witness :
  length (List.filter dead (players (lobby [1]))) <= 1 /\
  wf (lobby [1]) /\
  exists s1, check (lobby [1]) = Some s1 /\ check s1 = Some s1.
Proof.
  assert (length (List.filter dead (players (lobby [1]))) <= 1) as Hone
    by (vm_compute; lia).
  split; [exact Hone|]. split; [exact lobby_wf|].
  destruct (check_twice (lobby [1]) Hone) as [Hidem Htot].
  destruct (Htot lobby_wf) as [s1 Hc].
  exists s1. split; [exact Hc|exact (Hidem s1 Hc)].
Defined.

(** C8 as stated fails: with two invalidated players, the first sweep
    removes one and the second sweep removes the other and broadcasts the
    player list again. *)
Lemma check_twice_two_dead :
  map valid (players (lobby [1; 2])) = [true; false; false] /\
  (fun s => map (fun p => (number p, buffer p)) (players s)) <$> check (lobby [1; 2])
  = Some [ (0, ["PLAYER_LIST 0;p0"]); (2, []) ] /\
  (fun s => map (fun p => (number p, buffer p)) (players s))
    <$> (check (lobby [1; 2]) ≫= check)
  = Some [ (0, ["PLAYER_LIST 0;p0"; "PLAYER_LIST 0;p0"]) ].
Proof. split; [reflexivity|]. split; vm_compute; reflexivity. Qed.

Lemma check_master_phase_witness :
  exists s1,
    check (lobby [0]) = Some s1 /\ game_state (lobby [0]) = PLAYER_CONN /\
    game_state s1 = ERROR /\ map number (players s1) = [1; 2].
Proof.
  destruct (check (lobby [0])) as [s1|] eqn:E1; [|vm_compute in E1; discriminate].
  exists s1. split; [reflexivity|]. split; [reflexivity|].
  destruct (check_master_phase (lobby [0]) s1 0
              (set_valid false (in_round 0 START_WAIT false [] None None []))
              E1 eq_refl eq_refl eq_refl) as (Hn & Herr & _).
  split; [exact (Herr eq_refl)|]. rewrite Hn. reflexivity.
Defined.

Lemma check_removes_one_witness :
  exists s1 p flushed,
    check lobby_queued = Some s1 /\
    map valid (players lobby_queued) = [true; false; false] /\
    players lobby_queued !! 1 = Some p /\
    buffer p = ["PLAYER_LIST 0;p0"; "PLAYER_LIST 0;p0,1;p1"] /\
    push_buffer p = Some flushed /\
    sc_out <$> conn flushed = Some ["PLAYER_LIST 0;p0"; "PLAYER_LIST 0;p0,1;p1"] /\
    buffer flushed = [] /\
    gone s1 = [set_conn None (set_valid false flushed)] /\
    sockets lobby_queued !! 11 = Some 1 /\ sockets s1 !! 11 = None /\
    length (players s1) + 1 = length (players lobby_queued) /\
    map number (players s1) = [0; 2] /\
    length (List.filter dead (players s1)) = 1.
Proof.
  destruct (check lobby_queued) as [s1|] eqn:E1; [|vm_compute in E1; discriminate].
  destruct (check_removes_one lobby_queued s1 E1)
    as [[Hd _]|(i & p & flushed & Hd & Hp & _ & _ & Hpb & _ & Hfl & Hg & _ & Hs & Hl
                & Hn & _ & Hdead)].
  { vm_compute in Hd. discriminate. }
  assert (i = 1) as -> by (vm_compute in Hd; congruence).
  exists s1, p, flushed.
  split; [reflexivity|]. split; [reflexivity|]. split; [exact Hp|].
  injection Hp as <-.
  split; [reflexivity|]. split; [exact Hpb|].
  split; [rewrite Hfl; reflexivity|]. split; [rewrite Hfl; reflexivity|].
  split; [exact Hg|]. split; [reflexivity|].
  split; [rewrite Hs; reflexivity|].
  split; [exact Hl|]. split; [rewrite Hn; reflexivity|].
  assert (length (List.filter dead (players lobby_queued)) = 2) as E
    by (vm_compute; reflexivity).
  rewrite E in Hdead. lia.
Defined.

(** ** The protocol on concrete sessions *)

Lemma solo_select (s : @Server solo_api) :
  wlist s = [10] -> rlist s = [10] -> select_ok s [10] [Client 10].
Proof.
  intros Hw Hr. unfold select_ok. rewrite Hw, Hr.
  split; [apply NoDup_singleton|]. split; [repeat constructor|].
  split; [apply NoDup_singleton|]. repeat constructor.
Qed.

Lemma solo_run :
  reachable solo_fresh /\ reachable solo_lobby /\ reachable solo_named /\
  reachable solo_dealt /\ reachable solo_turn /\
  rtc step solo_lobby solo_named /\ rtc step solo_named solo_dealt /\
  rtc step solo_dealt solo_turn.
Proof.
  assert (reachable solo_fresh) as H0 by apply reach_prepare.
  assert (rtc step solo_fresh solo_lobby /\ reachable solo_lobby) as [_ H1].
  { apply (iteration_reachable [] [Listening 10] id_shuffle 0); [done| |].
    - split; [apply NoDup_nil_2|]. split; [constructor|].
      split; [apply NoDup_singleton|]. repeat constructor.
    - vm_compute. reflexivity. }
  assert (rtc step solo_lobby solo_named /\ reachable solo_named) as [S2 H2].
  { apply (iteration_reachable [10] [Client 10] id_shuffle 0); [done| |].
    - apply solo_select; vm_compute; reflexivity.
    - vm_compute. reflexivity. }
  assert (rtc step solo_named solo_dealt /\ reachable solo_dealt) as [S3 H3].
  { apply (iteration_reachable [10] [Client 10] id_shuffle 0); [done| |].
    - apply solo_select; vm_compute; reflexivity.
    - vm_compute. reflexivity. }
  assert (rtc step solo_dealt solo_turn /\ reachable solo_turn) as [S4 H4].
  { apply (iteration_reachable [10] [Client 10] id_shuffle 0); [done| |].
    - apply solo_select; vm_compute; reflexivity.
    - vm_compute. reflexivity. }
  done.
Qed.

Lemma next_player_rotates_witness :
  NoDup (map number (players next_round)) /\
  in_round 0 SYNC_NEXT_TURN true [1; 2]%Z (Some 1%Z) (Some (-1)%Z) []
    ∈ players next_round /\
  in_round 1 SYNC_NEXT_TURN false [3; 4]%Z (Some 3%Z) (Some 1%Z) []
    ∈ players next_round /\
  exists m, next_player (Some 0) (players next_round) = Some (Some m) /\ m <> 0.
Proof.
  assert (NoDup (map number (players next_round))) as Hnd
    by (apply (bool_decide_unpack _); vm_compute; exact I).
  assert (in_round 0 SYNC_NEXT_TURN true [1; 2]%Z (Some 1%Z) (Some (-1)%Z) []
            ∈ players next_round) as Hp by (simpl; left).
  assert (in_round 1 SYNC_NEXT_TURN false [3; 4]%Z (Some 3%Z) (Some 1%Z) []
            ∈ players next_round) as Hq by (simpl; right; left).
  split; [exact Hnd|]. split; [exact Hp|]. split; [exact Hq|].
  apply (next_player_rotates 0 (players next_round) _ _ Hnd Hp eq_refl Hq eq_refl).
  simpl. lia.
Defined.


Lemma reachable_queue_flag_witness :
  reachable solo_named /\ solo_player solo_named ∈ players solo_named /\
  (has_buffer (solo_player solo_named) = true <-> buffer (solo_player solo_named) <> []) /\
  (0 <= score (solo_player solo_named))%Z.
Proof.
  destruct solo_run as (_ & _ & H2 & _).
  assert (solo_player solo_named ∈ players solo_named) as Hp by (vm_compute; left).
  split; [exact H2|]. split; [exact Hp|].
  exact (reachable_queue_flag solo_named _ H2 Hp).
Defined.

Lemma lookup_is_roster_witness :
  reachable solo_named /\
  (sockets solo_named !! 10 = Some 0 <->
   exists p : @Player solo_api,
     p ∈ players solo_named /\ player_socket p = 10 /\ number p = 0) /\
  (sockets solo_named !! 10 = Some 0 ->
   exists p : @Player solo_api,
     find_player 0 (players solo_named) = Some p /\ player_socket p = 10 /\
     is_Some (conn p)).
Proof.
  destruct solo_run as (_ & _ & H2 & _).
  split; [exact H2|]. exact (lookup_is_roster solo_named 10 0 H2).
Defined.

Lemma flush_ready_witness :
  reachable solo_named /\ solo_player solo_named ∈ players solo_named /\
  has_buffer (solo_player solo_named) = true /\
  exists m rest (c : @connection solo_api),
    buffer (solo_player solo_named) = m :: rest /\
    conn (solo_player solo_named) = Some c /\
    flush (player_socket (solo_player solo_named)) solo_named
    = Some (upd (number (solo_player solo_named))
              (fun q : @Player solo_api => set_has_buffer (0 <? length rest)
                          (set_buffer rest (set_conn (Some (conn_send m c)) q)))
              solo_named).
Proof.
  destruct solo_run as (_ & _ & H2 & _).
  assert (solo_player solo_named ∈ players solo_named) as Hp by (vm_compute; left).
  assert (has_buffer (solo_player solo_named) = true) as Hb by (vm_compute; reflexivity).
  split; [exact H2|]. split; [exact Hp|]. split; [exact Hb|].
  exact (flush_ready solo_named _ H2 Hp Hb).
Defined.

Lemma handle_message_raises_witness :
  find_player 1 (players (card_reply long_id)) = Some (card_sender long_id) /\
  conn (card_sender long_id) = Some (reading ["CARD " +:+ long_id]) /\
  conn_get (reading ["CARD " +:+ long_id]) = ("CARD " +:+ long_id, reading []) /\
  String.length long_id = 4301 /\
  py_isnumeric (tok 1 (py_split ("CARD " +:+ long_id))) = true /\
  py_int (tok 1 (py_split ("CARD " +:+ long_id))) = None /\
  handle_message 1 (card_reply long_id) = None /\
  handle_message 1 (card_reply (digit_run (Z.to_nat max_str_digits))) <> None.
Proof.
  assert (find_player 1 (players (card_reply long_id)) = Some (card_sender long_id))
    as Hf by reflexivity.
  assert (conn (card_sender long_id) = Some (reading ["CARD " +:+ long_id])) as Hc
    by reflexivity.
  assert (conn_get (reading ["CARD " +:+ long_id]) = ("CARD " +:+ long_id, reading []))
    as Hg by reflexivity.
  assert (py_isnumeric (tok 1 (py_split ("CARD " +:+ long_id))) = true) as Hn
    by (vm_compute; reflexivity).
  assert (py_int (tok 1 (py_split ("CARD " +:+ long_id))) = None) as Hi
    by (vm_compute; reflexivity).
  split; [exact Hf|]. split; [exact Hc|]. split; [exact Hg|].
  split; [vm_compute; reflexivity|]. split; [exact Hn|]. split; [exact Hi|].
  split; [|vm_compute; discriminate].
  apply (handle_message_raises 1 (card_reply long_id) (card_sender long_id) _ _ _ Hf Hc Hg).
  split; [exact Hn|]. split; [exact Hi|]. right.
  split; [by left|]. split; [reflexivity|]. split; [|vm_compute; reflexivity].
  assert (length (py_split ("CARD " +:+ long_id)) = 2) as -> by (vm_compute; reflexivity).
  lia.
Defined.

Lemma only_master_starts_witness :
  find_player 0 (players solo_named) = Some (solo_player solo_named) /\
  conn (solo_player solo_named) = Some (solo_conn solo_named) /\
  handle_message 0 solo_named = Some solo_started /\
  ((status (solo_player solo_named) = MASTER /\
    state (solo_player solo_named) = START_WAIT /\
    (exists x, py_split (conn_get (solo_conn solo_named)).1 = ["START_GAME"; x] /\
               card_set solo_started = x) /\
    game_state solo_started = GAME /\
    players solo_started
    = update_player 0 (set_state BEGIN_SYNC)
        (update_player 0 (set_conn (Some (conn_get (solo_conn solo_named)).2))
           (players solo_named))) \/
   (~ (status (solo_player solo_named) = MASTER /\
       state (solo_player solo_named) = START_WAIT /\
       exists x, py_split (conn_get (solo_conn solo_named)).1 = ["START_GAME"; x]) /\
    game_state solo_started = game_state solo_named /\
    card_set solo_started = card_set solo_named)).
Proof.
  assert (find_player 0 (players solo_named) = Some (solo_player solo_named)) as Hf
    by (vm_compute; reflexivity).
  assert (conn (solo_player solo_named) = Some (solo_conn solo_named)) as Hc
    by (vm_compute; reflexivity).
  assert (handle_message 0 solo_named = Some solo_started) as Hm
    by (vm_compute; reflexivity).
  split; [exact Hf|]. split; [exact Hc|]. split; [exact Hm|].
  exact (only_master_starts 0 solo_named solo_started _ _
           (conn_get (solo_conn solo_named)).2 _ Hf Hc (surjective_pairing _) Hm).
Defined.

Lemma handle_message_footprint_witness :
  handle_message 0 bad_clue = Some (default bad_clue (handle_message 0 bad_clue)) /\
  Forall2
    (fun p p' =>
       number p' = number p /\ status p' = status p /\
       player_socket p' = player_socket p /\ score p' = score p /\
       cards p' = cards p /\ has_turn p' = has_turn p /\
       (valid p' = true -> valid p = true) /\
       (number p <> 0 ->
        valid p' = valid p /\ name p' = name p /\
        get_broadcast p' = get_broadcast p /\ conn p' = conn p /\
        current_card p' = current_card p /\ selected_card p' = selected_card p))
    (players bad_clue) (players (default bad_clue (handle_message 0 bad_clue))) /\
  set_card_set ""
    (set_game_state PLAYER_CONN
       (set_players [] (default bad_clue (handle_message 0 bad_clue))))
  = set_card_set "" (set_game_state PLAYER_CONN (set_players [] bad_clue)).
Proof.
  assert (handle_message 0 bad_clue
          = Some (default bad_clue (handle_message 0 bad_clue))) as Hm
    by (vm_compute; reflexivity).
  split; [exact Hm|]. exact (handle_message_footprint 0 bad_clue _ Hm).
Defined.

Lemma global_operations_frame_witness :
  global_operations id_shuffle 0 next_round
  = Some (default next_round (global_operations id_shuffle 0 next_round)) /\
  game_state (default next_round (global_operations id_shuffle 0 next_round))
  = game_state next_round /\
  set_current_player None
    (set_srv_cards []
       (set_players [] (default next_round (global_operations id_shuffle 0 next_round))))
  = set_current_player None (set_srv_cards [] (set_players [] next_round)) /\
  map number (players (default next_round (global_operations id_shuffle 0 next_round)))
  = map number (players next_round).
Proof.
  assert (global_operations id_shuffle 0 next_round
          = Some (default next_round (global_operations id_shuffle 0 next_round))) as Hg
    by (vm_compute; reflexivity).
  split; [exact Hg|]. exact (global_operations_frame id_shuffle 0 next_round _ Hg).
Defined.

Lemma bad_clue_barrier st :
  synchronized_on st bad_clue -> st = WAIT_ASSOC.
Proof.
  intros [_ Hall]. unfold bad_clue, round_of in Hall. simpl in Hall.
  by apply Forall_cons in Hall as [<- _].
Qed.

Lemma global_operations_idle_witness :
  storyteller_ok bad_clue /\
  (forall st, synchronized_on st bad_clue ->
     st <> BEGIN_SYNC /\ st <> TURN_SYNC /\ st <> SELF_SYNC /\ st <> VOTE_SYNC /\
     st <> SYNC_NEXT_TURN) /\
  global_operations id_shuffle 0 bad_clue = Some bad_clue.
Proof.
  assert (storyteller_ok bad_clue) as Hok by (vm_compute; reflexivity).
  assert (forall st, synchronized_on st bad_clue ->
            st <> BEGIN_SYNC /\ st <> TURN_SYNC /\ st <> SELF_SYNC /\ st <> VOTE_SYNC /\
            st <> SYNC_NEXT_TURN) as Hno.
  { intros st ->%bad_clue_barrier. repeat split; discriminate. }
  split; [exact Hok|]. split; [exact Hno|].
  exact (global_operations_idle id_shuffle 0 bad_clue Hok Hno).
Defined.

Lemma turn_sync_designates_witness :
  storyteller_ok turn_barrier /\ synchronized_on TURN_SYNC turn_barrier /\
  exists t s',
    t ∈ valid_players (players turn_barrier) /\
    next_player (current_player turn_barrier) (players turn_barrier)
    = Some (Some (number t)) /\
    global_operations id_shuffle 0 turn_barrier = Some s' /\
    current_player s' = Some (number t) /\
    players s'
    = for_players
        (fun p =>
           (fun q => if get_broadcast q
                     then send_message ("TURN " +:+ str_nat (number t)) q else q)
             (set_state WAIT_ASSOC (set_has_turn (number p =? number t) p)))
        (players turn_barrier) /\
    synchronized_on WAIT_ASSOC s' /\
    (forall p', p' ∈ valid_players (players s') ->
       (has_turn p' = true <-> number p' = number t)).
Proof.
  assert (storyteller_ok turn_barrier) as Hok by (vm_compute; reflexivity).
  assert (synchronized_on TURN_SYNC turn_barrier) as Hsync
    by (split; [vm_compute; discriminate|vm_compute; repeat constructor]).
  split; [exact Hok|]. split; [exact Hsync|].
  exact (turn_sync_designates id_shuffle 0 turn_barrier Hok Hsync).
Defined.

Lemma storyteller_lost_restarts_witness :
  current_player teller_gone = Some 0 /\
  verify_ref 0 teller_gone = Some false /\
  valid_players (players teller_gone) <> [] /\
  exists t s',
    t ∈ valid_players (players teller_gone) /\
    next_player (Some 0) (players teller_gone) = Some (Some (number t)) /\
    global_operations id_shuffle 0 teller_gone = Some s' /\
    current_player s' = Some (number t) /\
    players s'
    = for_players
        (fun p =>
           (fun q => if get_broadcast q
                     then send_message ("TURN " +:+ str_nat (number t)) q else q)
             (set_state WAIT_ASSOC (set_has_turn (number p =? number t) p)))
        (players teller_gone) /\
    synchronized_on WAIT_ASSOC s'.
Proof.
  assert (verify_ref 0 teller_gone = Some false) as Hdead by (vm_compute; reflexivity).
  assert (valid_players (players teller_gone) <> []) as Hne by (vm_compute; discriminate).
  split; [reflexivity|]. split; [exact Hdead|]. split; [exact Hne|].
  exact (storyteller_lost_restarts id_shuffle 0 teller_gone 0 eq_refl Hdead Hne).
Defined.

Lemma self_sync_ballot_witness :
  (forall A (l : list A), Permutation (id_shuffle A l) l) /\
  storyteller_ok ballot_barrier /\ synchronized_on SELF_SYNC ballot_barrier /\
  exists ballot s',
    Permutation ballot (map current_card (valid_players (players ballot_barrier))) /\
    global_operations id_shuffle 0 ballot_barrier = Some s' /\
    s' = set_players
           (for_players
              (fun p =>
                 set_state WAIT_VOTE
                   (if get_broadcast p
                    then send_message ("VOTE " +:+ py_join "," (map str_card ballot)) p
                    else p))
              (players ballot_barrier)) ballot_barrier /\
    synchronized_on WAIT_VOTE s'.
Proof.
  assert (storyteller_ok ballot_barrier) as Hok by (vm_compute; reflexivity).
  assert (synchronized_on SELF_SYNC ballot_barrier) as Hsync
    by (split; [vm_compute; discriminate|vm_compute; repeat constructor]).
  split; [exact id_shuffle_perm|]. split; [exact Hok|]. split; [exact Hsync|].
  exact (self_sync_ballot id_shuffle 0 ballot_barrier id_shuffle_perm Hok Hsync).
Defined.

Lemma end_command_ends_game_witness :
  game_state next_round = GAME /\ storyteller_ok next_round /\
  synchronized_on SYNC_NEXT_TURN next_round /\
  exists s',
    global_operations id_shuffle 0 (comm_end next_round) = Some s' /\
    players s'
    = for_players
        (fun p =>
           set_valid false
             ((fun q => if get_broadcast q then send_message "END_GAME" q else q)
                (set_cards [] p)))
        (players next_round) /\
    srv_cards s' = [] /\
    valid_players (players s') = [] /\
    session_over s' = true.
Proof.
  assert (storyteller_ok next_round) as Hok by (vm_compute; reflexivity).
  assert (synchronized_on SYNC_NEXT_TURN next_round) as Hsync
    by (split; [vm_compute; discriminate|vm_compute; repeat constructor]).
  split; [reflexivity|]. split; [exact Hok|]. split; [exact Hsync|].
  exact (end_command_ends_game id_shuffle 0 next_round eq_refl Hok Hsync).
Defined.

Lemma handle_state_dispatch_witness :
  find_player 1 (players (seated None 2)) = Some (new_player 11 PLAYER 1) /\
  handle_state 1 (seated None 2)
  = Some
      (upd 1 (fun p =>
                set_state VER_WAIT
                  (send_message
                     ("VERSION " +:+ str_nat (number p) +:+ " "
                      +:+ str_status (status p) +:+ " " +:+ res_name (seated None 2)
                      +:+ " " +:+ res_link (seated None 2)) p)) (seated None 2)).
Proof.
  assert (find_player 1 (players (seated None 2)) = Some (new_player 11 PLAYER 1)) as Hf
    by (vm_compute; reflexivity).
  split; [exact Hf|].
  exact (handle_state_dispatch 1 (seated None 2) _ Hf).
Defined.

Lemma solo_started_reachable : reachable solo_started.
Proof.
  destruct solo_run as (_ & _ & H2 & _).
  apply (reach_step solo_named); [exact H2|].
  apply (step_input 10). vm_compute. reflexivity.
Qed.

Lemma global_operations_total_witness :
  reachable solo_started /\ get_sync_state solo_started = Some BEGIN_SYNC /\
  is_Some (global_operations id_shuffle 0 solo_started).
Proof.
  split; [exact solo_started_reachable|]. split; [vm_compute; reflexivity|].
  exact (global_operations_total id_shuffle 0 solo_started solo_started_reachable).
Defined.

Lemma iteration_steps_witness :
  reachable solo_named /\ select_ok solo_named [10] [Client 10] /\
  iteration [10] [Client 10] id_shuffle 0 solo_named = Some solo_dealt /\
  rtc step solo_named solo_dealt /\ reachable solo_dealt.
Proof.
  destruct solo_run as (_ & _ & H2 & _).
  assert (select_ok solo_named [10] [Client 10]) as Hsel
    by (apply solo_select; vm_compute; reflexivity).
  assert (iteration [10] [Client 10] id_shuffle 0 solo_named = Some solo_dealt) as Hit
    by (vm_compute; reflexivity).
  split; [exact H2|]. split; [exact Hsel|]. split; [exact Hit|].
  exact (iteration_steps [10] [Client 10] id_shuffle 0 solo_named solo_dealt H2 Hsel Hit).
Defined.

Lemma iteration_raises_on_input_witness :
  reachable solo_turn /\ select_ok solo_turn [10] [Client 10] /\
  iteration [10] [Client 10] id_shuffle 0 solo_turn = None /\
  exists (a : @Server solo_api) flow n self c,
    reachable a /\ Client flow ∈ [Client 10] /\
    sockets a !! flow = Some n /\ find_player n (players a) = Some self /\
    conn self = Some c /\
    handle_message n a = None /\
    py_isnumeric (tok 1 (py_split (conn_get c).1)) = true /\
    py_int (tok 1 (py_split (conn_get c).1)) = None /\
    (state self = WAIT_ASSOC \/ state self = WAIT_SELF_CARD \/ state self = WAIT_VOTE).
Proof.
  destruct solo_run as (_ & _ & _ & _ & H4 & _).
  assert (select_ok solo_turn [10] [Client 10]) as Hsel
    by (apply solo_select; vm_compute; reflexivity).
  assert (iteration [10] [Client 10] id_shuffle 0 solo_turn = None) as Hit
    by (vm_compute; reflexivity).
  split; [exact H4|]. split; [exact Hsel|]. split; [exact Hit|].
  exact (iteration_raises_on_input [10] [Client 10] id_shuffle 0 solo_turn H4 Hsel Hit).
Defined.

Lemma begin_sync_starts_witness :
  storyteller_ok (at_deal None 5) /\ synchronized_on BEGIN_SYNC (at_deal None 5) /\
  exists s',
    global_operations id_shuffle 0 (at_deal None 5) = Some s' /\
    synchronized_on READY_WAIT s' /\
    length (usable_deck id_shuffle (at_deal None 5)) = 27 /\
    map length (map cards (valid_players (players s'))) = [6; 6; 6; 6; 3] /\
    srv_cards s' = [] /\
    is_Some (current_player s') /\
    storyteller_ok (at_deal None 3) /\ synchronized_on BEGIN_SYNC (at_deal None 3) /\
    6 * len_players (players (at_deal None 3))
    <= length (usable_deck id_shuffle (at_deal None 3)) /\
    exists s3,
      global_operations id_shuffle 0 (at_deal None 3) = Some s3 /\
      Forall (fun p => length (cards p) = 6) (valid_players (players s3)).
Proof.
  assert (storyteller_ok (at_deal None 5)) as Hok by (vm_compute; exact I).
  assert (synchronized_on BEGIN_SYNC (at_deal None 5)) as Hsync
    by (split; [vm_compute; discriminate|vm_compute; repeat constructor]).
  assert (storyteller_ok (at_deal None 3)) as Hok3 by (vm_compute; exact I).
  assert (synchronized_on BEGIN_SYNC (at_deal None 3)) as Hsync3
    by (split; [vm_compute; discriminate|vm_compute; repeat constructor]).
  assert (6 * len_players (players (at_deal None 3))
          <= length (usable_deck id_shuffle (at_deal None 3))) as Hdeck
    by (vm_compute; lia).
  split; [exact Hok|]. split; [exact Hsync|].
  destruct (begin_sync_starts id_shuffle 0 (at_deal None 5) Hok Hsync)
    as (s' & t & Hg & Hs & _ & Ht & Hh & Hd & _ & _).
  destruct (begin_sync_starts id_shuffle 0 (at_deal None 3) Hok3 Hsync3)
    as (s3 & _ & Hg3 & _ & _ & _ & _ & _ & _ & Hsix).
  exists s'. split; [exact Hg|]. split; [exact Hs|]. split; [reflexivity|].
  split; [rewrite Hh; reflexivity|]. split; [rewrite Hd; reflexivity|].
  split; [rewrite Ht; by eexists|].
  split; [exact Hok3|]. split; [exact Hsync3|]. split; [exact Hdeck|].
  exists s3. split; [exact Hg3|]. exact (Hsix Hdeck).
Defined.

Lemma vote_sync_scores_witness :
  NoDup (map number (players vote_round)) /\
  current_player vote_round = Some 0 /\
  find_player 0 (players vote_round) = Some teller7 /\
  verify teller7 = Some true /\
  synchronized_on VOTE_SYNC vote_round /\
  exists s2 teller2 s',
    calculate_result vote_round = Some s2 /\
    find_player 0 (players s2) = Some teller2 /\
    global_operations id_shuffle 0 vote_round = Some s' /\
    players s'
    = for_players
        (fun p =>
           set_state WAIT_NEXT_TURN
             (if get_broadcast p then
                send_message
                  ("STATUS " +:+ str_card (current_card teller2) +:+ " "
                   +:+ py_join ","
                         (map (fun player =>
                                 str_nat (number player) +:+ ";"
                                 +:+ str_card (current_card player) +:+ ";"
                                 +:+ str_card (selected_card player))
                              (valid_players (players s2)))
                   +:+ " "
                   +:+ py_join ","
                         (map (fun player =>
                                 str_nat (number player) +:+ ";"
                                 +:+ str_Z (score player))
                              (valid_players (players s2)))) p
              else p))
        (players s2) /\
    synchronized_on WAIT_NEXT_TURN s' /\
    current_player s' = Some 0.
Proof.
  assert (NoDup (map number (players vote_round))) as Hnd
    by (apply (bool_decide_unpack _); vm_compute; exact I).
  assert (find_player 0 (players vote_round) = Some teller7) as Hf
    by (vm_compute; reflexivity).
  assert (verify teller7 = Some true) as Hv by (vm_compute; reflexivity).
  assert (synchronized_on VOTE_SYNC vote_round) as Hsync
    by (split; [vm_compute; discriminate|vm_compute; repeat constructor]).
  split; [exact Hnd|]. split; [reflexivity|]. split; [exact Hf|]. split; [exact Hv|].
  split; [exact Hsync|].
  exact (vote_sync_scores id_shuffle 0 vote_round 0 teller7 Hnd eq_refl Hf Hv Hsync).
Defined.

Lemma flush_until_empty_witness :
  sockets solo_backlog !! 10 = Some 0 /\
  find_player 0 (players solo_backlog) = Some (solo_player solo_backlog) /\
  conn (solo_player solo_backlog) = Some (solo_conn solo_backlog) /\
  buffer (solo_player solo_backlog)
  = ["VERSION 0 MASTER v1 http://host/pack"; "PLAYER_LIST 0;alice"] /\
  sc_out (solo_conn solo_backlog) = [] /\
  exists (c : @connection solo_api),
    sc_out c = ["VERSION 0 MASTER v1 http://host/pack"; "PLAYER_LIST 0;alice"] /\
    push_buffer (solo_player solo_backlog)
    = Some (set_has_buffer false
              (set_buffer [] (set_conn (Some c) (solo_player solo_backlog)))) /\
    foldM (fun a flow => flush flow a) solo_backlog [10; 10]
    = Some (upd 0 (fun q => set_has_buffer false (set_buffer [] (set_conn (Some c) q)))
              solo_backlog).
Proof.
  assert (sockets solo_backlog !! 10 = Some 0) as Hk by (vm_compute; reflexivity).
  assert (find_player 0 (players solo_backlog) = Some (solo_player solo_backlog)) as Hf
    by (vm_compute; reflexivity).
  assert (conn (solo_player solo_backlog) = Some (solo_conn solo_backlog)) as Hc
    by (vm_compute; reflexivity).
  assert (buffer (solo_player solo_backlog)
          = ["VERSION 0 MASTER v1 http://host/pack"; "PLAYER_LIST 0;alice"]) as Hb
    by (vm_compute; reflexivity).
  assert (buffer (solo_player solo_backlog) <> []) as Hne by (rewrite Hb; discriminate).
  split; [exact Hk|]. split; [exact Hf|]. split; [exact Hc|]. split; [exact Hb|].
  split; [vm_compute; reflexivity|].
  destruct (flush_until_empty solo_backlog 10 0 _ _ Hk Hf Hc Hne) as [Hp Hfl].
  rewrite Hb in Hp, Hfl.
  eexists. split; [|split; [exact Hp|exact Hfl]]. vm_compute. reflexivity.
Defined.

Lemma stop_all_stops_witness :
  wf solo_turn /\
  exists s',
    stop_all solo_turn = Some s' /\ players s' = [] /\ sockets s' = ∅ /\
    exists stopped,
      gone s' = gone solo_turn ++ stopped /\
      Forall2 (fun p q => number q = number p /\ valid q = false /\ conn q = None /\
                          buffer q = [] /\ has_buffer q = false)
              (players solo_turn) stopped.
Proof.
  destruct solo_run as (_ & _ & _ & _ & H4 & _).
  pose proof (reachable_wf solo_turn H4) as Hwf.
  split; [exact Hwf|]. exact (stop_all_stops solo_turn Hwf).
Defined.

Lemma console_start_witness :
  find_player 0 (players solo_named) = Some (solo_player solo_named) /\
  game_state solo_named = PLAYER_CONN /\
  state (solo_player solo_named) = START_WAIT /\
  (comm_start ["start"; "0"] solo_named <> solo_named ->
   game_state solo_named = PLAYER_CONN /\ length ["start"; "0"] = 2 /\
   comm_start ["start"; "0"] solo_named
   = set_game_state GAME (set_card_set (tok 1 ["start"; "0"]) solo_named)) /\
  (game_state solo_named = PLAYER_CONN -> length ["start"; "0"] = 2 ->
   (state (solo_player solo_named) = START_WAIT ->
    handle_state 0 (comm_start ["start"; "0"] solo_named)
    = Some (upd 0 (set_state BEGIN_SYNC)
              (set_game_state GAME (set_card_set (tok 1 ["start"; "0"]) solo_named)))) /\
   (state (solo_player solo_named) = VER_WAIT ->
    handle_state 0 (comm_start ["start"; "0"] solo_named)
    = Some (upd 0 (set_valid false)
              (set_game_state GAME (set_card_set (tok 1 ["start"; "0"]) solo_named))))).
Proof.
  assert (find_player 0 (players solo_named) = Some (solo_player solo_named)) as Hf
    by (vm_compute; reflexivity).
  split; [exact Hf|]. split; [vm_compute; reflexivity|]. split; [vm_compute; reflexivity|].
  exact (console_start ["start"; "0"] solo_named 0 _ Hf).
Defined.

Lemma master_loss_ends_session_witness :
  check master_left = Some (default master_left (check master_left)) /\
  first_dead 0 (players master_left) = Some (Some 0) /\
  players master_left !! 0
  = Some (default (new_player 10 MASTER 0) (players master_left !! 0)) /\
  status (default (new_player 10 MASTER 0) (players master_left !! 0)) = MASTER /\
  game_state master_left = PLAYER_CONN /\
  game_state (default master_left (check master_left)) = ERROR /\
  session_over (default master_left (check master_left)) = true /\
  players (default master_left (check master_left)) = delete 0 (players master_left).
Proof.
  assert (check master_left = Some (default master_left (check master_left))) as Hc
    by (vm_compute; reflexivity).
  assert (first_dead 0 (players master_left) = Some (Some 0)) as Hd
    by (vm_compute; reflexivity).
  assert (players master_left !! 0
          = Some (default (new_player 10 MASTER 0) (players master_left !! 0))) as Hp
    by (vm_compute; reflexivity).
  assert (status (default (new_player 10 MASTER 0) (players master_left !! 0)) = MASTER)
    as Hm by (vm_compute; reflexivity).
  assert (game_state master_left = PLAYER_CONN) as Hg by (vm_compute; reflexivity).
  split; [exact Hc|]. split; [exact Hd|]. split; [exact Hp|]. split; [exact Hm|].
  split; [exact Hg|].
  exact (master_loss_ends_session master_left _ 0 _ Hc Hd Hp Hm Hg).
Defined.

Lemma malformed_clue_restarts_witness :
  malformed_clue (py_split "TURN blue sky") /\
  (exists s' s'',
     handle_message 0 bad_clue = Some s' /\
     handle_states s' = Some s' /\
     global_operations id_shuffle 0 s' = Some s'' /\
     current_player s'' = Some 1 /\
     map (fun p => (valid p, state p, has_turn p)) (players s'')
     = [ (false, WAIT_ASSOC, true); (true, WAIT_ASSOC, true);
         (true, WAIT_ASSOC, false) ] /\
     game_state s'' = GAME /\ session_over s'' = false) /\
  (exists s',
     handle_message 0 lone_clue = Some s' /\
     valid_players (players s') = [] /\ session_over s' = true).
Proof.
  assert (malformed_clue (py_split "TURN blue sky")) as Hm
    by (right; right; reflexivity).
  split; [exact Hm|]. split.
  - destruct (malformed_clue_restarts id_shuffle 0 bad_clue 0 clue_sender
                (reading ["TURN blue sky"]) (reading []) "TURN blue sky"
                eq_refl eq_refl eq_refl eq_refl eq_refl Hm eq_refl eq_refl)
      as (s' & Hh & Hs & [[Hv _]|(t & s'' & _ & _ & Hgo & Hcur & _ & Hph & Hover)]).
    + vm_compute in Hh. injection Hh as <-. vm_compute in Hv. discriminate.
    + exists s', s''. split; [exact Hh|]. split; [exact Hs|]. split; [exact Hgo|].
      vm_compute in Hh. injection Hh as <-.
      vm_compute in Hgo. injection Hgo as <-.
      split; [reflexivity|]. split; [reflexivity|]. split; [exact Hph|exact Hover].
  - destruct (malformed_clue_restarts id_shuffle 0 lone_clue 0 clue_sender
                (reading ["TURN blue sky"]) (reading []) "TURN blue sky"
                eq_refl eq_refl eq_refl eq_refl eq_refl Hm eq_refl eq_refl)
      as (s' & Hh & _ & [[Hv Hover]|(t & s'' & Htin & _)]).
    + exists s'. split; [exact Hh|]. split; [exact Hv|exact Hover].
    + vm_compute in Hh. injection Hh as <-. vm_compute in Htin.
      by apply elem_of_nil in Htin.
Defined.

(** C5.  The code on a clue whose card id is not a number.  The state
    [solo_turn] is reached by the main loop from the start of a session;
    its player is the storyteller, in [WAIT_ASSOC], and the line it sends is
    [TURN], a superscript two, and a clue word: three tokens, the keyword
    [TURN], and a card id that passes [str.isnumeric] although [int()]
    rejects it.  [handle_message] raises on this line, and so does the
    iteration of the main loop that reads it: the sender is not invalidated
    and no player is set to [TURN_SYNC]. *)
Theorem malformed_clue_crash :
  reachable solo_turn /\
  select_ok solo_turn [10] [Client 10] /\
  current_player solo_turn = Some 0 /\
  find_player 0 (players solo_turn) = Some (solo_player solo_turn) /\
  state (solo_player solo_turn) = WAIT_ASSOC /\
  has_turn (solo_player solo_turn) = true /\
  (conn_get (solo_conn solo_turn)).1 = "TURN " +:+ superscript_two +:+ " sky" /\
  py_split ("TURN " +:+ superscript_two +:+ " sky") = ["TURN"; superscript_two; "sky"] /\
  py_isnumeric superscript_two = true /\
  py_int superscript_two = None /\
  handle_message 0 solo_turn = None /\
  iteration [10] [Client 10] id_shuffle 0 solo_turn = None.
Proof.
  destruct solo_run as (_ & _ & _ & _ & H4 & _).
  split; [exact H4|].
  split; [apply solo_select; vm_compute; reflexivity|].
  split; [vm_compute; reflexivity|]. split; [vm_compute; reflexivity|].
  split; [vm_compute; reflexivity|]. split; [vm_compute; reflexivity|].
  split; [vm_compute; reflexivity|]. split; [vm_compute; reflexivity|].
  split; [vm_compute; reflexivity|]. split; [vm_compute; reflexivity|].
  split; vm_compute; reflexivity.
Qed.
